(** * ShapeTree: containers, schema trees, dispatcher and caching fetch

    A shallow embedding of [lib/shape-tree.js], of the caching fetch of
    [ecosystems/simple-apps.js] and of the existence checks of
    [lib/shape-tree-fetch.js], with the properties their specification
    states about them.

    Conventions.  Asynchronous code is modelled on one schedule: every
    [await] resumes before anything else runs, so an [async] function is a
    state transformer over the storage and the JavaScript objects it
    mutates.  The interleavings that the per-container lock has to order
    are modelled separately, by a step relation, in [Module Mutex].
    Exceptions are values of [error]; a computation that awaits a promise
    that never settles is [Blocked]. *)

From Stdlib Require Import ZArith NArith Ascii String List Lia Bool.
From stdpp Require Import base tactics option list gmap strings relations pretty.


Local Open Scope list_scope.

(** ** JavaScript values that the model needs *)

(** The error classes of [lib/rdf-errors].  [Error] stands for every
    exception that is not a [ManagedError] (plain [Error], [TypeError],
    [URIError], file-system errors). *)
Inductive error : Type :=
| Error (message : string)
| NotFoundError (resource : string) (message : string)
| UriTemplateMatchError (slug : option string) (message : string)
| MissingShapeError (shape : string) (message : string)
| ValidationError (node : string) (message : string)
| ShapeTreeStructureError (root : string) (message : string).

(** Modelled from the spec: [lib/rdf-errors] is not part of the sources;
    the specification lists not-found, no-match, ambiguous-match,
    missing-shape, validation and structure errors as the recognised
    (managed) ones. *)
Definition ManagedError (e : error) : bool :=
  match e with
  | Error _ => false
  | _ => true
  end.

Definition message (e : error) : string :=
  match e with
  | Error m | NotFoundError _ m | UriTemplateMatchError _ m
  | MissingShapeError _ m | ValidationError _ m
  | ShapeTreeStructureError _ m => m
  end.

(** Outcome of running a piece of code to its end. *)
Inductive result (A : Type) : Type :=
| Ok (a : A)
| Throw (e : error)
| Blocked
| OutOfFuel.
Arguments Ok {A} a.
Arguments Throw {A} e.
Arguments Blocked {A}.
Arguments OutOfFuel {A}.

(** ** Strings *)

Module Str.

Fixpoint startsWith (s p : string) : bool :=
  match p, s with
  | EmptyString, _ => true
  | String a p', String b s' => if Ascii.eqb a b then startsWith s' p' else false
  | String _ _, EmptyString => false
  end.

Definition endsWith (s p : string) : bool :=
  startsWith (String.rev s) (String.rev p).

(** [s.split('/')] : never empty, [''.split('/')] is [['']]. *)
Fixpoint split (sep : ascii) (s : string) : list string :=
  match s with
  | EmptyString => [EmptyString]
  | String c s' =>
      if Ascii.eqb c sep then EmptyString :: split sep s'
      else match split sep s' with
           | w :: ws => String c w :: ws
           | [] => [String c EmptyString]
           end
  end.

Fixpoint drop (n : nat) (s : string) : string :=
  match n, s with
  | O, _ => s
  | S n', String _ s' => drop n' s'
  | S _, EmptyString => EmptyString
  end.

(** [s.replace(pat, '')] with a string pattern: the first occurrence only. *)
Fixpoint remove_first (pat s : string) : string :=
  if startsWith s pat then drop (String.length pat) s
  else match s with
       | EmptyString => EmptyString
       | String c s' => String c (remove_first pat s')
       end.

(** The text up to and including the last ['/'] *)
Fixpoint dir_of (s : string) : string :=
  match s with
  | EmptyString => EmptyString
  | String c s' =>
      match dir_of s' with
      | EmptyString => if Ascii.eqb c "/" then String c EmptyString else EmptyString
      | d => String c d
      end
  end.

(** [dirname "/a/b/" = "/a/"], [dirname "/a/b" = "/a/"], [dirname "/" = "/"]. *)
Definition dirname (s : string) : string :=
  match String.rev s with
  | String "/" r => match dir_of (String.rev r) with
                    | EmptyString => "/"
                    | d => d
                    end
  | _ => dir_of s
  end.

Definition filter_chars (keep : ascii -> bool) (s : string) : string :=
  string_of_list_ascii (List.filter keep (list_ascii_of_string s)).

End Str.

(** ** URLs *)

(** A parsed WHATWG [URL].  [hash] is empty or starts with ['#'], [search]
    is empty or starts with ['?']. *)
Record URL : Type := mkURL {
  origin : string;
  pathname : string;
  search : string;
  hash : string
}.

Global Instance URL_eq_dec : EqDecision URL.
Proof. solve_decision. Defined.

Definition href (u : URL) : string :=
  origin u +:+ pathname u +:+ search u +:+ hash u.

(** What a caller may pass where a [URL] is expected. *)
Inductive js_value : Type :=
| VUrl (u : URL)
| VString (s : string)
| VUndefined.

Definition show (v : js_value) : string :=
  match v with
  | VUrl u => href u
  | VString s => s
  | VUndefined => "undefined"
  end.

(** ** RDF graphs *)

Module Rdf.

Inductive term : Type :=
| NamedNode (value : string)
| Literal (value : string)
| BlankNode (value : string)
| DefaultGraph.

Definition value (t : term) : string :=
  match t with
  | NamedNode v | Literal v | BlankNode v => v
  | DefaultGraph => ""
  end.

Record quad : Type := Quad {
  subject : term;
  predicate : term;
  object : term;
  qgraph : term
}.

Global Instance term_eq_dec : EqDecision term.
Proof. solve_decision. Defined.
Global Instance quad_eq_dec : EqDecision quad.
Proof. solve_decision. Defined.

Definition triple (s p o : term) : quad := Quad s p o DefaultGraph.

(** An [N3.Store]: a set of quads.  The list keeps one enumeration order
    (insertion order here) for [getQuads]. *)
Definition Store : Type := list quad.

Definition has (g : Store) (q : quad) : bool := bool_decide (q ∈ g).

Definition addQuad (q : quad) (g : Store) : Store :=
  if has g q then g else g ++ [q].

Definition addQuads (qs : list quad) (g : Store) : Store :=
  fold_left (fun acc q => addQuad q acc) qs g.

Definition removeQuad (q : quad) (g : Store) : Store :=
  List.filter (fun q' => negb (bool_decide (q' = q))) g.

Definition matches (pat : option term) (t : term) : bool :=
  match pat with
  | None => true
  | Some p => bool_decide (p = t)
  end.

(** [g.getQuads(s, p, o)], [null] being a wildcard *)
Definition getQuads (g : Store) (s p o : option term) : list quad :=
  List.filter
    (fun q => matches s (subject q) && matches p (predicate q) && matches o (object q)) g.

(** Modelled from the spec: the RDF capability's zero-or-one lookup
    ([rdfInterface.zeroOrOne], not part of the sources): no match is
    [null], one match is that quad, several matches are an error. *)
Definition zeroOrOne (g : Store) (s p o : option term) : result (option quad) :=
  match getQuads g s p o with
  | [] => Ok None
  | [q] => Ok (Some q)
  | _ => Throw (Error "Expected zero or one match")
  end.

End Rdf.
Import Rdf.

(** Modelled from the spec: the namespace table [lib/prefixes] is not part
    of the sources; these are the namespaces it names. *)
Module Prefixes.
Definition ns_ldp : string := "http://www.w3.org/ns/ldp#".
Definition ns_rdf : string := "http://www.w3.org/1999/02/22-rdf-syntax-ns#".
Definition ns_rdfs : string := "http://www.w3.org/2000/01/rdf-schema#".
Definition ns_dc : string := "http://purl.org/dc/terms/".
Definition ns_tree : string := "http://www.w3.org/ns/shapetree#".
End Prefixes.

(** ** The sequential lock ([class Mutex]) *)

Module Mutex.

(** The promises that [lock] builds.  A promise is described by what it
    waits for; whether it has been fulfilled is then a function of the
    set of tickets whose [unlockNext] has been called. *)
Inductive promise : Type :=
| Resolved                       (* Promise.resolve() *)
| WillLock (ticket : nat)        (* new Promise(resolve => unlockNext = ...) *)
| ThenValue (p : promise)        (* p.then(() => unlockNext) *)
| ThenPromise (p q : promise).   (* p.then(() => q) *)

(** [issued] numbers the calls of [lock] (it names the closure
    [unlockNext] of each call); [released] are the tickets whose
    [unlockNext] ran, that is, whose [willLock] is resolved. *)
Record Mutex : Type := mkMutex {
  _locking : promise;
  _locks : Z;
  issued : nat;
  released : gset nat
}.

Definition new : Mutex := mkMutex Resolved 0 0 ∅.

Fixpoint fulfilled (rel : gset nat) (p : promise) : bool :=
  match p with
  | Resolved => true
  | WillLock t => bool_decide (t ∈ rel)
  | ThenValue p => fulfilled rel p
  | ThenPromise p q => fulfilled rel p && fulfilled rel q
  end.

(** [lock ()]: the new state, the ticket and the promise [willUnlock]. *)
Definition lock (m : Mutex) : Mutex * (nat * promise) :=
  let t := issued m in
  let willLock := WillLock t in
  let willUnlock := ThenValue (_locking m) in
  (mkMutex (ThenPromise (_locking m) willLock) (_locks m + 1) (S t) (released m),
   (t, willUnlock)).

(** The closure [unlockNext] of ticket [t]. *)
Definition unlockNext (t : nat) (m : Mutex) : Mutex :=
  mkMutex (_locking m) (_locks m - 1) (issued m) ({[t]} ∪ released m).

(** *** Clients of one lock, interleaved

    [waiting]: callers suspended at [await this._mutex.lock()], with the
    promise they await; [running]: callers between the resumption of
    that [await] and their call of [unlock()]; [entered]: the tickets in
    the order in which their critical sections started, latest first. *)
Record clients : Type := mkClients {
  mutex : Mutex;
  waiting : list (nat * promise);
  running : list nat;
  entered : list nat
}.

Definition start : clients := mkClients new [] [] [].

Inductive step : clients -> clients -> Prop :=
| step_lock s :
    step s (mkClients (fst (lock (mutex s)))
                      (waiting s ++ [snd (lock (mutex s))])
                      (running s) (entered s))
| step_resume s t p :
    (t, p) ∈ waiting s ->
    fulfilled (released (mutex s)) p = true ->
    step s (mkClients (mutex s)
                      (List.filter (fun w => negb (Nat.eqb (fst w) t)) (waiting s))
                      (t :: running s) (t :: entered s))
| step_unlock s t :
    t ∈ running s ->
    step s (mkClients (unlockNext t (mutex s))
                      (waiting s)
                      (List.filter (fun r => negb (Nat.eqb r t)) (running s))
                      (entered s)).

Definition reachable (s : clients) : Prop := rtc step start s.

End Mutex.

(** ** Storage: the file-system backend ([storage/fs-promises.js]) *)

Module Storage.

(** Directories with the graph of their index file, and plain files
    with their text (UTF-16 code units), both by path.  The path of a
    directory ends with ['/']. *)
Record Storage : Type := mkStorage {
  containers : gmap string Store;
  resources : gmap string (list N)
}.

Definition ENOENT (syscall path : string) : error :=
  Error ("ENOENT: no such file or directory, " +:+ syscall +:+ " '" +:+ path +:+ "'").

Definition as_dir (p : string) : string :=
  if Str.endsWith p "/" then p else p +:+ "/".

Definition as_file (p : string) : string :=
  if Str.endsWith p "/" then String.rev (Str.drop 1 (String.rev p)) else p.

Definition is_dir (st : Storage) (p : string) : bool :=
  bool_decide (is_Some (containers st !! as_dir p)).

Definition is_file (st : Storage) (p : string) : bool :=
  bool_decide (is_Some (resources st !! p)).

(** [rstat(url).then(stat => true, e => false)] *)
Definition exists_ (st : Storage) (u : URL) : bool :=
  is_dir st (pathname u) || is_file st (pathname u).

Definition read (u : URL) (st : Storage) : result (list N) :=
  match resources st !! pathname u with
  | Some body => Ok body
  | None => Throw (ENOENT "open" (pathname u))
  end.

Definition write (u : URL) (body : list N) (st : Storage) : result unit * Storage :=
  if is_dir st (Str.dirname (pathname u)) && negb (is_dir st (pathname u))
  then (Ok tt, mkStorage (containers st) (<[pathname u := body]> (resources st)))
  else (Throw (ENOENT "open" (pathname u)), st).

Definition readContainer (u : URL) (st : Storage) : result Store :=
  match containers st !! pathname u with
  | Some g => Ok g
  | None => Throw (ENOENT "open" (pathname u))
  end.

Definition writeContainer (g : Store) (u : URL) (st : Storage) : result unit * Storage :=
  match containers st !! pathname u with
  | Some _ => (Ok tt, mkStorage (<[pathname u := g]> (containers st)) (resources st))
  | None => (Throw (ENOENT "open" (pathname u)), st)
  end.

Definition outside {A} (dir : string) (kv : string * A) : Prop :=
  Str.startsWith (fst kv) dir = false.

Global Instance outside_dec {A} dir (kv : string * A) : Decision (outside dir kv).
Proof. unfold outside. apply _. Defined.

(** Recursive removal: the directory and everything below it. *)
Definition removeContainer (u : URL) (st : Storage) : result unit * Storage :=
  match containers st !! pathname u with
  | Some _ => (Ok tt, mkStorage (filter (outside (pathname u)) (containers st))
                                (filter (outside (pathname u)) (resources st)))
  | None => (Throw (ENOENT "scandir" (pathname u)), st)
  end.

(** The text that [makeContainer] parses:
    [<> a ldp:BasicContainer; dcterms:title "title".] *)
Definition makeContainer (u : URL) (title : string) : Store :=
  [ triple (NamedNode (href u)) (NamedNode (Prefixes.ns_rdf +:+ "type"))
           (NamedNode (Prefixes.ns_ldp +:+ "BasicContainer"));
    triple (NamedNode (href u)) (NamedNode (Prefixes.ns_dc +:+ "title")) (Literal title) ].

(** [mkdir], then on [EEXIST] read the index, and invent the contents
    when the directory is new or has no readable index. *)
Definition ensureContainer (u : URL) (title : string) (st : Storage)
  : result (bool * Store) * Storage :=
  match containers st !! pathname u with
  | Some g => (Ok (false, g), st)
  | None =>
      if is_file st (as_file (pathname u))
      then (Ok (true, makeContainer u title), st)
      else if is_dir st (Str.dirname (pathname u))
      then (Ok (true, makeContainer u title),
            mkStorage (<[pathname u := makeContainer u title]> (containers st)) (resources st))
      else (Throw (ENOENT "mkdir" (pathname u)), st)
  end.

End Storage.

(** ** What the code takes from Node and from its libraries *)

(** [path.join], [path.relative], [new URL(relative, base)],
    [new URL(absolute)] and [new UriTemplate(template).match(name)] (a
    truth value, the template being [undefined] for a node without one). *)
Class Platform : Type := {
  Path_join : string -> string -> string;
  Path_relative : string -> string -> string;
  URL_new : string -> URL -> result URL;
  URL_parse : string -> result URL;
  UriTemplate_match : option string -> string -> result bool
}.

(** ** Containers ([class Container], [class ManagedContainer]) *)

Module Container.
Import Storage.

(** The second argument of the constructors: a [dc:title], or the pair
    of an already-read graph and its prefixes ([title instanceof Array]). *)
Inductive title_arg : Type :=
| Title (s : string)
| Loaded (g : Store) (prefixes : list (string * string)).

(** One record for both classes; [managed] tells a [ManagedContainer].
    A field that was never assigned is [None]. *)
Record Container : Type := mkContainer {
  url : URL;
  prefixes : list (string * string);
  _mutex : Mutex.Mutex;
  graph : Store;
  subdirs : list (option URL);
  newDir : option bool;
  managed : bool;
  shapeTreeUrl : option URL;
  shapeTreeInstancePath : option string;
  shapeTreeInstanceRoot : option URL
}.

Definition set_mutex (m : Mutex.Mutex) (c : Container) : Container :=
  mkContainer (url c) (prefixes c) m (graph c) (subdirs c) (newDir c) (managed c)
              (shapeTreeUrl c) (shapeTreeInstancePath c) (shapeTreeInstanceRoot c).

Definition set_graph (g : Store) (c : Container) : Container :=
  mkContainer (url c) (prefixes c) (_mutex c) g (subdirs c) (newDir c) (managed c)
              (shapeTreeUrl c) (shapeTreeInstancePath c) (shapeTreeInstanceRoot c).

Definition set_subdirs (l : list (option URL)) (c : Container) : Container :=
  mkContainer (url c) (prefixes c) (_mutex c) (graph c) l (newDir c) (managed c)
              (shapeTreeUrl c) (shapeTreeInstancePath c) (shapeTreeInstanceRoot c).

Definition set_newDir (b : bool) (c : Container) : Container :=
  mkContainer (url c) (prefixes c) (_mutex c) (graph c) (subdirs c) (Some b) (managed c)
              (shapeTreeUrl c) (shapeTreeInstancePath c) (shapeTreeInstanceRoot c).

Definition set_managed (c : Container) : Container :=
  mkContainer (url c) (prefixes c) (_mutex c) (graph c) (subdirs c) (newDir c) true
              (shapeTreeUrl c) (shapeTreeInstancePath c) (shapeTreeInstanceRoot c).

Definition set_shapeTreeUrl (v : option URL) (c : Container) : Container :=
  mkContainer (url c) (prefixes c) (_mutex c) (graph c) (subdirs c) (newDir c) (managed c)
              v (shapeTreeInstancePath c) (shapeTreeInstanceRoot c).

Definition set_shapeTreeInstancePath (v : option string) (c : Container) : Container :=
  mkContainer (url c) (prefixes c) (_mutex c) (graph c) (subdirs c) (newDir c) (managed c)
              (shapeTreeUrl c) v (shapeTreeInstanceRoot c).

Definition set_shapeTreeInstanceRoot (v : option URL) (c : Container) : Container :=
  mkContainer (url c) (prefixes c) (_mutex c) (graph c) (subdirs c) (newDir c) (managed c)
              (shapeTreeUrl c) (shapeTreeInstancePath c) v.

(** The constructor up to [this.ready = ...]: the three checks and the
    initial fields. *)
Definition new (u : js_value) (title : title_arg) : result Container :=
  match u with
  | VUrl url =>
      if negb (Str.endsWith (pathname url) "/")
      then Throw (Error ("url " +:+ href url +:+ " must end with '/'"))
      else if Str.endsWith (pathname url) "//"
      then Throw (Error ("url " +:+ href url +:+ " ends with '//'"))
      else Ok (mkContainer url
                 (match title with Loaded _ p => p | Title _ => [] end)
                 Mutex.new
                 (match title with Loaded g _ => g | Title _ => [] end)
                 [] None false None None None)
  | _ => Throw (Error ("url " +:+ show u +:+ " must be an instance of URL"))
  end.

(** [await this._mutex.lock()]: the state of the lock once the caller
    has resumed, and its ticket; [None] when the promise never settles. *)
Definition acquire (c : Container) : option (Mutex.Mutex * nat) :=
  let '(m, (t, willUnlock)) := Mutex.lock (_mutex c) in
  if Mutex.fulfilled (Mutex.released m) willUnlock then Some (m, t) else None.

(** [loadOrCreate] of [Container]. *)
Definition loadOrCreate (title : string) (c : Container) (st : Storage)
  : result Container * Storage :=
  match acquire c with
  | None => (Blocked, st)
  | Some (m, t) =>
      match ensureContainer (url c) title st with
      | (Ok (nd, containerGraph), st') =>
          (Ok (set_mutex (Mutex.unlockNext t m)
                 (set_graph (addQuads containerGraph (graph c)) (set_newDir nd c))), st')
      | (Throw e, st') => (Throw e, st')
      | (Blocked, st') => (Blocked, st')
      | (OutOfFuel, st') => (OutOfFuel, st')
      end
  end.

(** [this.ready] of a [Container] under construction. *)
Definition ready (title : title_arg) (c : Container) (st : Storage)
  : result Container * Storage :=
  match title with
  | Loaded _ _ => (Ok c, st)
  | Title t => loadOrCreate t c st
  end.

(** [await new Container(url, title).ready] *)
Definition open (u : js_value) (title : title_arg) (st : Storage)
  : result Container * Storage :=
  match new u title with
  | Ok c => ready title c st
  | Throw e => (Throw e, st)
  | Blocked => (Blocked, st)
  | OutOfFuel => (OutOfFuel, st)
  end.

(** [write ()]: the outcome, the container afterwards, the storage. *)
Definition write (c : Container) (st : Storage) : result unit * Container * Storage :=
  match acquire c with
  | None => (Blocked, set_mutex (fst (Mutex.lock (_mutex c))) c, st)
  | Some (m, t) =>
      match writeContainer (graph c) (url c) st with
      | (Ok x, st') => (Ok x, set_mutex (Mutex.unlockNext t m) c, st')
      | (r, st') => (r, set_mutex (Mutex.unlockNext t m) c, st')
      end
  end.

Definition remove (c : Container) (st : Storage) : result unit * Container * Storage :=
  match acquire c with
  | None => (Blocked, set_mutex (fst (Mutex.lock (_mutex c))) c, st)
  | Some (m, t) =>
      match removeContainer (url c) st with
      | (Ok x, st') => (Ok x, set_mutex (Mutex.unlockNext t m) c, st')
      | (r, st') => (r, set_mutex (Mutex.unlockNext t m) c, st')
      end
  end.

(** [merge] of a payload that is already an [N3.Store] *)
Definition merge (payload : Store) (c : Container) : Container :=
  set_graph (addQuads payload (graph c)) c.

Definition membership (c : Container) (location : string) : quad :=
  triple (NamedNode (href (url c))) (NamedNode (Prefixes.ns_ldp +:+ "contains"))
         (NamedNode location).

Definition addMember (location : string) (c : Container) : Container :=
  set_graph (addQuad (membership c location) (graph c)) c.

Definition removeMember (location : string) (c : Container) : Container :=
  set_graph (removeQuad (membership c location) (graph c)) c.

Definition addSubdirs (addUs : list (option URL)) (c : Container) : Container :=
  set_subdirs (subdirs c ++ addUs) c.

Section Managed.
Context `{Platform}.

Definition asUrl (g : Store) (s : URL) (p : string) : result (option URL) :=
  match zeroOrOne g (Some (NamedNode (href s))) (Some (NamedNode (Prefixes.ns_tree +:+ p))) None with
  | Ok (Some ret) =>
      match URL_parse (value (object ret)) with
      | Ok u => Ok (Some u)
      | Throw e => Throw e
      | Blocked => Blocked
      | OutOfFuel => OutOfFuel
      end
  | Ok None => Ok None
  | Throw e => Throw e
  | Blocked => Blocked
  | OutOfFuel => OutOfFuel
  end.

Definition asLiteral (g : Store) (s : URL) (p : string) : result (option string) :=
  match zeroOrOne g (Some (NamedNode (href s))) (Some (NamedNode (Prefixes.ns_tree +:+ p))) None with
  | Ok (Some ret) => Ok (Some (value (object ret)))
  | Ok None => Ok None
  | Throw e => Throw e
  | Blocked => Blocked
  | OutOfFuel => OutOfFuel
  end.

Definition parseShapeTreeInstance (c : Container) : result Container :=
  match asUrl (graph c) (url c) "shapeTreeInstanceRoot" with
  | Ok root =>
      match asLiteral (graph c) (url c) "shapeTreeInstancePath" with
      | Ok path =>
          match asUrl (graph c) (url c) "shapeTreeRoot" with
          | Ok stu =>
              Ok (set_shapeTreeUrl stu
                    (set_shapeTreeInstancePath path (set_shapeTreeInstanceRoot root c)))
          | Throw e => Throw e
          | Blocked => Blocked
          | OutOfFuel => OutOfFuel
          end
      | Throw e => Throw e
      | Blocked => Blocked
      | OutOfFuel => OutOfFuel
      end
  | Throw e => Throw e
  | Blocked => Blocked
  | OutOfFuel => OutOfFuel
  end.

(** The statements of [containerText], parsed relative to the
    container: [<>] is the container, the instance root is the
    relative reference [Path.relative(shapeTreeInstancePath, '')]. *)
Definition containerText (c : Container) (shapeTreeUrl : URL) (shapeTreeInstancePath : string)
  : result (list quad) :=
  match URL_new (Path_relative shapeTreeInstancePath "") (url c) with
  | Ok root =>
      Ok [ triple (NamedNode (href (url c))) (NamedNode (Prefixes.ns_tree +:+ "shapeTreeRoot"))
                  (NamedNode (href shapeTreeUrl));
           triple (NamedNode (href (url c))) (NamedNode (Prefixes.ns_tree +:+ "shapeTreeInstancePath"))
                  (Literal shapeTreeInstancePath);
           triple (NamedNode (href (url c))) (NamedNode (Prefixes.ns_tree +:+ "shapeTreeInstanceRoot"))
                  (NamedNode (href root)) ]
  | Throw e => Throw e
  | Blocked => Blocked
  | OutOfFuel => OutOfFuel
  end.

(** [loadOrCreate] of [ManagedContainer]; [shapeTreeUrl] and
    [shapeTreeInstancePath] are the constructor's parameters. *)
Definition managed_loadOrCreate (shapeTreeUrl : URL) (shapeTreeInstancePath : string)
           (c : Container) (st : Storage) : result Container * Storage :=
  match acquire c with
  | None => (Blocked, st)
  | Some (m, t) =>
      if match newDir c with Some true => true | _ => false end
      then match containerText c shapeTreeUrl shapeTreeInstancePath with
           | Ok s =>
               let c' := set_graph (addQuads s (graph c)) c in
               match writeContainer (graph c') (url c') st with
               | (Ok _, st') => (Ok (set_mutex (Mutex.unlockNext t m) c'), st')
               | (Throw e, st') => (Throw e, st')
               | (Blocked, st') => (Blocked, st')
               | (OutOfFuel, st') => (OutOfFuel, st')
               end
           | Throw e => (Throw e, st)
           | Blocked => (Blocked, st)
           | OutOfFuel => (OutOfFuel, st)
           end
      else match parseShapeTreeInstance c with
           | Ok c' => (Ok (set_mutex (Mutex.unlockNext t m) c'), st)
           | Throw e => (Throw e, st)
           | Blocked => (Blocked, st)
           | OutOfFuel => (OutOfFuel, st)
           end
  end.

(** [await new ManagedContainer(url, title, shapeTreeUrl,
    shapeTreeInstancePath).ready].  [super] has started the
    container's [loadOrCreate] before the constructor checks
    [shapeTreeUrl], so the storage keeps its effect when that check
    throws.  The statement [this,shapeTreeUrl = shapeTreeUrl] is a
    comma expression: it assigns the parameter to itself and leaves
    the field [shapeTreeUrl] as it was. *)
Definition managed_open (u : js_value) (title : title_arg) (shapeTreeUrl : js_value)
           (shapeTreeInstancePath : string) (st : Storage) : result Container * Storage :=
  match new u title with
  | Ok c0 =>
      let c := set_managed c0 in
      match title with
      | Loaded _ _ => (parseShapeTreeInstance c, st)
      | Title t =>
          let '(r, st1) := loadOrCreate t c st in
          match shapeTreeUrl with
          | VUrl stu =>
              match URL_new (Path_relative shapeTreeInstancePath "") stu with
              | Ok root =>
                  match r with
                  | Ok c1 =>
                      managed_loadOrCreate stu shapeTreeInstancePath
                        (set_shapeTreeInstanceRoot (Some root)
                           (set_shapeTreeInstancePath (Some shapeTreeInstancePath) c1)) st1
                  | Throw e => (Throw e, st1)
                  | Blocked => (Blocked, st1)
                  | OutOfFuel => (OutOfFuel, st1)
                  end
              | Throw e => (Throw e, st1)
              | Blocked => (Blocked, st1)
              | OutOfFuel => (OutOfFuel, st1)
              end
          | _ => (Throw (Error ("shapeTreeUrl " +:+ show shapeTreeUrl
                                  +:+ " must be an instance of URL")), st1)
          end
      end
  | Throw e => (Throw e, st)
  | Blocked => (Blocked, st)
  | OutOfFuel => (OutOfFuel, st)
  end.

(** [loadContainer (url)] *)
Definition loadContainer (u : URL) (st : Storage) : result Container :=
  match readContainer u st with
  | Ok containerGraph =>
      match asUrl containerGraph u "shapeTreeInstanceRoot" with
      | Ok (Some _) => fst (managed_open (VUrl u) (Loaded containerGraph []) VUndefined "" st)
      | Ok None => fst (open (VUrl u) (Loaded containerGraph []) st)
      | Throw e => Throw e
      | Blocked => Blocked
      | OutOfFuel => OutOfFuel
      end
  | Throw e => Throw e
  | Blocked => Blocked
  | OutOfFuel => OutOfFuel
  end.

End Managed.

End Container.

(** ** Schema trees ([class RemoteShapeTree]) *)

Module ShapeTree.
Import Storage Container.

(** A shape tree whose graph has been fetched. *)
Record RemoteShapeTree : Type := mkRemoteShapeTree {
  url : URL;
  path : string;
  graph : Store
}.

Definition tree (p : string) : option term := Some (NamedNode (Prefixes.ns_tree +:+ p)).
Definition rdfs_label : option term := Some (NamedNode (Prefixes.ns_rdfs +:+ "label")).

(** The test of [cqz.find] in [getRdfRoot]. *)
Definition selects (g : Store) (name : string) (q : quad) : bool :=
  (length (getQuads g (Some (object q)) rdfs_label (Some (Literal name))) =? 1)%nat
  || (length (getQuads g (Some (object q)) (tree "uriTemplate") None) =? 1)%nat.

(** One round of the [reduce] of [getRdfRoot]; [.object] of [undefined]
    is a [TypeError]. *)
Definition getRdfRoot_step (g : Store) (node : result term) (name : string) : result term :=
  match node with
  | Ok node =>
      if String.eqb name "." then Ok node
      else
        let cqz := getQuads g (Some node) (tree "contents") None in
        match List.find (selects g name) cqz with
        | Some q => Ok (object q)
        | None => Throw (Error "Cannot read property 'object' of undefined")
        end
  | r => r
  end.

Definition getRdfRoot (t : RemoteShapeTree) : result term :=
  fold_left (getRdfRoot_step (graph t)) (Str.split "/" (path t))
            (Ok (NamedNode (href (url t)))).

(** The value of [matchingStep]; [type] is set only when [typeNode] is. *)
Record Step : Type := mkStep {
  node : term;
  typeNode : option term;
  name : option term;
  uriTemplate : option term;
  shape : option term;
  contents : list term;
  type : option string
}.

Definition falsy (slug : option string) : bool :=
  match slug with
  | None => true
  | Some s => String.eqb s ""
  end.

Fixpoint join (sep : string) (l : list string) : string :=
  match l with
  | [] => ""
  | [x] => x
  | x :: l' => x +:+ sep +:+ join sep l'
  end.

(** [l.filter(p)] for a test that can throw *)
Fixpoint filterM {A} (p : A -> result bool) (l : list A) : result (list A) :=
  match l with
  | [] => Ok []
  | x :: l' =>
      match p x with
      | Ok b =>
          match filterM p l' with
          | Ok r => Ok (if b then x :: r else r)
          | e => e
          end
      | Throw e => Throw e
      | Blocked => Blocked
      | OutOfFuel => OutOfFuel
      end
  end.

Definition obj (g : Store) (choice : term) (property : string) : result (option term) :=
  match zeroOrOne g (Some choice) (tree property) None with
  | Ok q => Ok (option_map object q)
  | Throw e => Throw e
  | Blocked => Blocked
  | OutOfFuel => OutOfFuel
  end.

Definition no_match_message (shapeTreeNode : term) (contents : list term) : string :=
  "No match in " +:+ value shapeTreeNode +:+ " " +:+ join ", " (map value contents).

Definition ambiguous_message (contents : list term) : string :=
  "Ambiguous match against " +:+ join ", " (map value contents).

Section WithPlatform.
Context `{Platform}.

(** The test of [contents.filter] in [matchingStep]. *)
Definition qualifies (g : Store) (slug : option string) (step : term) : result bool :=
  if falsy slug then Ok true
  else UriTemplate_match
         (head (map (fun q2 => value (object q2)) (getQuads g (Some step) (tree "uriTemplate") None)))
         (default "" slug).

Definition build_step (g : Store) (choice : term) : result Step :=
  match obj g choice "expectedType" with
  | Ok typeNode =>
      match obj g choice "name" with
      | Ok name =>
          match obj g choice "uriTemplate" with
          | Ok uriTemplate =>
              match obj g choice "shape" with
              | Ok shape =>
                  Ok (mkStep choice typeNode name uriTemplate shape
                        (map object (getQuads g (Some choice) (tree "contents") None))
                        (option_map (fun t => Str.remove_first Prefixes.ns_ldp (value t)) typeNode))
              | Throw e => Throw e
              | Blocked => Blocked
              | OutOfFuel => OutOfFuel
              end
          | Throw e => Throw e
          | Blocked => Blocked
          | OutOfFuel => OutOfFuel
          end
      | Throw e => Throw e
      | Blocked => Blocked
      | OutOfFuel => OutOfFuel
      end
  | Throw e => Throw e
  | Blocked => Blocked
  | OutOfFuel => OutOfFuel
  end.

Definition matchingStep (g : Store) (shapeTreeNode : term) (slug : option string) : result Step :=
  let contents := map object (getQuads g (Some shapeTreeNode) (tree "contents") None) in
  match filterM (qualifies g slug) contents with
  | Ok [] => Throw (UriTemplateMatchError slug (no_match_message shapeTreeNode contents))
  | Ok [choice] => build_step g choice
  | Ok (_ :: _ :: _) => Throw (UriTemplateMatchError slug (ambiguous_message contents))
  | Throw e => Throw e
  | Blocked => Blocked
  | OutOfFuel => OutOfFuel
  end.

(** The callbacks of [Promise.all (... .map(async t => ...))], run one
    after the other in the order of the list; the first rejection is
    the outcome.  [rec] is [instantiateStatic] of the nested step; it
    gets the new container as its parent and gives it back. *)
Fixpoint instantiate_nested
         (rec : RemoteShapeTree -> term -> URL -> string -> Container -> Storage
                -> result Container * Container * Storage)
         (shapeTree : RemoteShapeTree) (rootUrl : URL) (pathWithinShapeTree : string)
         (ts : list quad) (ret : Container) (st : Storage)
  : result (list (option URL)) * Container * Storage :=
  match ts with
  | [] => (Ok [], ret, st)
  | t :: ts' =>
      let nested := object t in
      match zeroOrOne (graph shapeTree) (Some nested) rdfs_label None with
      | Ok None =>
          match instantiate_nested rec shapeTree rootUrl pathWithinShapeTree ts' ret st with
          | (Ok l, ret', st') => (Ok (None :: l), ret', st')
          | other => other
          end
      | Ok (Some labelT) =>
          let toAdd := value (object labelT) in
          let step := mkRemoteShapeTree (url shapeTree)
                        (Path_join pathWithinShapeTree toAdd) (graph shapeTree) in
          match URL_new (Path_join toAdd "/") rootUrl with
          | Ok nestedUrl =>
              match rec step nested nestedUrl (path step) ret st with
              | (Ok child, ret', st') =>
                  match instantiate_nested rec shapeTree rootUrl pathWithinShapeTree ts' ret' st' with
                  | (Ok l, ret'', st'') => (Ok (Some (Container.url child) :: l), ret'', st'')
                  | other => other
                  end
              | (Throw e, ret', st') => (Throw e, ret', st')
              | (Blocked, ret', st') => (Blocked, ret', st')
              | (OutOfFuel, ret', st') => (OutOfFuel, ret', st')
              end
          | Throw e => (Throw e, ret, st)
          | Blocked => (Blocked, ret, st)
          | OutOfFuel => (OutOfFuel, ret, st)
          end
      | Throw e => (Throw e, ret, st)
      | Blocked => (Blocked, ret, st)
      | OutOfFuel => (OutOfFuel, ret, st)
      end
  end.

Definition wrap (rootUrl : URL) (e : error) : error :=
  if ManagedError e then e else ShapeTreeStructureError (href rootUrl) (message e).

(** [instantiateStatic (stepNode, rootUrl, pathWithinShapeTree, parent)]:
    the outcome, the parent afterwards, the storage.  A shape tree
    whose contents are cyclic recurses for ever; [fuel] bounds the
    depth.  [parent.write()] is not awaited: its outcome is dropped. *)
Fixpoint instantiateStatic (fuel : nat) (shapeTree : RemoteShapeTree)
         (stepNode : term) (rootUrl : URL) (pathWithinShapeTree : string)
         (parent : Container) (st : Storage)
  : result Container * Container * Storage :=
  match fuel with
  | O => (OutOfFuel, parent, st)
  | S fuel' =>
      match managed_open (VUrl rootUrl)
              (Title ("index for nested resource " +:+ pathWithinShapeTree))
              (VUrl (url shapeTree)) pathWithinShapeTree st with
      | (Ok ret, st1) =>
          let parent1 := addMember (href (Container.url ret)) parent in
          match instantiate_nested (instantiateStatic fuel') shapeTree
                  rootUrl pathWithinShapeTree
                  (getQuads (graph shapeTree) (Some stepNode) (tree "contents") None)
                  ret st1 with
          | (Ok subs, ret2, st2) =>
              let '(_, parent2, st3) := write parent1 st2 in
              (Ok (addSubdirs subs ret2), parent2, st3)
          | (Throw e, ret2, st2) =>
              match remove ret2 st2 with
              | (Ok _, _, st3) =>
                  (Throw (wrap rootUrl e),
                   removeMember (href (Container.url ret2)) parent1, st3)
              | (Throw e', _, st3) => (Throw e', parent1, st3)
              | (Blocked, _, st3) => (Blocked, parent1, st3)
              | (OutOfFuel, _, st3) => (OutOfFuel, parent1, st3)
              end
          | (Blocked, _, st2) => (Blocked, parent1, st2)
          | (OutOfFuel, _, st2) => (OutOfFuel, parent1, st2)
          end
      | (Throw e, st1) => (Throw e, parent, st1)
      | (Blocked, st1) => (Blocked, parent, st1)
      | (OutOfFuel, st1) => (OutOfFuel, parent, st1)
      end
  end.

End WithPlatform.

End ShapeTree.

(** ** JavaScript strings as UTF-16 code units *)

Module Js.

Definition of_string (s : string) : list N :=
  map N_of_ascii (list_ascii_of_string s).

Definition between (lo hi c : N) : bool := (lo <=? c)%N && (c <=? hi)%N.

Definition alnum (c : N) : bool :=
  between 48 57 c || between 65 90 c || between 97 122 c.

Fixpoint startsWith (s p : list N) : bool :=
  match p, s with
  | [], _ => true
  | a :: p', b :: s' => N.eqb a b && startsWith s' p'
  | _ :: _, [] => false
  end.

(** [s.indexOf(pat)], [None] for [-1] *)
Fixpoint indexOf (pat s : list N) : option nat :=
  if startsWith s pat then Some O
  else match s with
       | [] => None
       | _ :: s' => option_map S (indexOf pat s')
       end.

Definition includes (pat s : list N) : bool :=
  match indexOf pat s with Some _ => true | None => false end.

(** [s.substr(start)] and [s.substr(0, length)] for integer arguments *)
Definition substr_from (s : list N) (start : Z) : list N :=
  if (start <? 0)%Z then List.skipn (Z.to_nat (Z.max (Z.of_nat (length s) + start) 0)) s
  else List.skipn (Z.to_nat start) s.

Definition substr_to (s : list N) (len : Z) : list N :=
  List.firstn (Z.to_nat len) s.

(** [s.split(/\n/)] *)
Fixpoint split (sep : N) (s : list N) : list (list N) :=
  match s with
  | [] => [[]]
  | c :: s' =>
      if N.eqb c sep then [] :: split sep s'
      else match split sep s' with
           | w :: ws => (c :: w) :: ws
           | [] => [[c]]
           end
  end.

(** [l.join(sep)] *)
Fixpoint join (sep : list N) (l : list (list N)) : list N :=
  match l with
  | [] => []
  | [x] => x
  | x :: l' => x ++ sep ++ join sep l'
  end.

(** *** [escape] *)

(** [A-Za-z0-9@*_+-./] *)
Definition unescaped (c : N) : bool :=
  alnum c || bool_decide (c ∈ [64; 42; 95; 43; 45; 46; 47]%N).

Definition hex_digit (n : N) : N :=
  if (n <? 10)%N then (48 + n)%N else (55 + n)%N.

Definition escape_unit (c : N) : list N :=
  if unescaped c then [c]
  else if (c <? 256)%N then [37; hex_digit (c / 16); hex_digit (c mod 16)]%N
  else [37; 117; hex_digit (c / 4096); hex_digit ((c / 256) mod 16);
        hex_digit ((c / 16) mod 16); hex_digit (c mod 16)]%N.

Definition escape (s : list N) : list N := flat_map escape_unit s.

(** *** [decodeURIComponent] *)

Definition URIError : error := Error "URI malformed".

Definition hex_value (c : N) : option N :=
  if between 48 57 c then Some (c - 48)%N
  else if between 65 70 c then Some (c - 55)%N
  else if between 97 102 c then Some (c - 87)%N
  else None.

(** The two hexadecimal digits after a ['%'] *)
Definition byte_at (s : list N) : option (N * list N) :=
  match s with
  | h :: l :: rest =>
      match hex_value h, hex_value l with
      | Some h', Some l' => Some (16 * h' + l', rest)%N
      | _, _ => None
      end
  | _ => None
  end.

(** [n] continuation octets, each written [%XX] with [XX] in 80..BF *)
Fixpoint continuation (n : nat) (s : list N) : option (list N * list N) :=
  match n with
  | O => Some ([], s)
  | S n' =>
      match s with
      | c :: rest =>
          if N.eqb c 37 then
            match byte_at rest with
            | Some (b, rest') =>
                if between 128 191 b then
                  match continuation n' rest' with
                  | Some (bs, r) => Some (b :: bs, r)
                  | None => None
                  end
                else None
            | None => None
            end
          else None
      | [] => None
      end
  end.

(** The number of octets that the lead octet announces: 2, 3 or 4 *)
Definition octets (b : N) : option nat :=
  if between 192 223 b then Some 2%nat
  else if between 224 239 b then Some 3%nat
  else if between 240 247 b then Some 4%nat
  else None.

(** The code point of a well-formed UTF-8 sequence *)
Definition utf8_value (b : N) (cs : list N) : option N :=
  match cs with
  | [c1] =>
      let v := ((b - 192) * 64 + (c1 - 128))%N in
      if (128 <=? v)%N then Some v else None
  | [c1; c2] =>
      let v := ((b - 224) * 4096 + (c1 - 128) * 64 + (c2 - 128))%N in
      if (2048 <=? v)%N && negb (between 55296 57343 v) then Some v else None
  | [c1; c2; c3] =>
      let v := ((b - 240) * 262144 + (c1 - 128) * 4096 + (c2 - 128) * 64 + (c3 - 128))%N in
      if between 65536 1114111 v then Some v else None
  | _ => None
  end.

Definition utf16 (v : N) : list N :=
  if (v <? 65536)%N then [v]
  else [55296 + (v - 65536) / 1024; 56320 + (v - 65536) mod 1024]%N.

Definition prepend (l : list N) (r : result (list N)) : result (list N) :=
  match r with
  | Ok s => Ok (l ++ s)
  | e => e
  end.

Fixpoint decode (fuel : nat) (s : list N) : result (list N) :=
  match s with
  | [] => Ok []
  | c :: rest =>
      match fuel with
      | O => OutOfFuel
      | S fuel' =>
          if N.eqb c 37 then
            match byte_at rest with
            | Some (b, rest') =>
                if (b <? 128)%N then prepend [b] (decode fuel' rest')
                else
                  match octets b with
                  | Some n =>
                      match continuation (Nat.pred n) rest' with
                      | Some (cs, rest'') =>
                          match utf8_value b cs with
                          | Some v => prepend (utf16 v) (decode fuel' rest'')
                          | None => Throw URIError
                          end
                      | None => Throw URIError
                      end
                  | None => Throw URIError
                  end
            | None => Throw URIError
            end
          else prepend [c] (decode fuel' rest)
      end
  end.

Definition decodeURIComponent (s : list N) : result (list N) :=
  decode (length s) s.

(** *** A [Map] with string keys, in insertion order *)

Fixpoint map_set (k v : list N) (m : list (list N * list N)) : list (list N * list N) :=
  match m with
  | [] => [(k, v)]
  | (k', v') :: m' => if bool_decide (k' = k) then (k, v) :: m' else (k', v') :: map_set k v m'
  end.

End Js.

(** ** The caching fetch ([SimpleApps.cachingFetch]) *)

Module Cache.
Import Storage.

(** A response of the network: [Array.from(resp.headers)] and
    [await resp.text()]. *)
Record NetResponse : Type := mkNetResponse {
  ok : bool;
  net_headers : list (list N * list N);
  net_text : list N
}.

(** What [cachingFetch] resolves to: a [FakeResponse], or on the
    same-origin path the response of the network. *)
Record Response : Type := mkResponse {
  _url : URL;
  headers : list (list N * list N);
  _text : list N
}.

(** The storage, and how many times the network was asked. *)
Record World : Type := mkWorld {
  storage : Storage;
  fetched : nat
}.

Definition keep_char (c : ascii) : bool :=
  let n := N_of_ascii c in
  Js.alnum n || N.eqb n 95 || N.eqb n 45.

(** [cacheName(url.href)]: the URL is parsed again, its fragment is
    emptied, and its [href] is stripped. *)
Definition cacheName (url : URL) : string :=
  Str.filter_chars keep_char (href (mkURL (origin url) (pathname url) (search url) "")).

(** [new URL(name, cacheUrl)] for a name of letters, digits, [_] and [-] *)
Definition resolve_name (name : string) (cacheUrl : URL) : URL :=
  if String.eqb name "" then mkURL (origin cacheUrl) (pathname cacheUrl) (search cacheUrl) ""
  else mkURL (origin cacheUrl) (Str.dir_of (pathname cacheUrl) +:+ name) "" "".

(** [pair => !pair[0].match(/date|time/)] *)
Definition kept (pair : list N * list N) : bool :=
  negb (Js.includes (Js.of_string "date") (fst pair) || Js.includes (Js.of_string "time") (fst pair)).

Definition to_map (pairs : list (list N * list N)) : list (list N * list N) :=
  fold_left (fun m pair => Js.map_set (fst pair) (snd pair) m) pairs [].

Definition header_line (pair : list N * list N) : list N :=
  Js.escape (fst pair) ++ Js.of_string ": " ++ Js.escape (snd pair).

Definition nl : list N := [10%N].

Definition image_of (headers : list (list N * list N)) (text : list N) : list N :=
  Js.join nl (map header_line headers) ++ nl ++ nl ++ text.

Definition line_terminator (c : N) : bool :=
  bool_decide (c ∈ [10; 13; 8232; 8233]%N).

Fixpoint until_colon (s : list N) : list N * list N :=
  match s with
  | [] => ([], [])
  | c :: s' => if N.eqb c 58 then ([], s)
               else let '(k, r) := until_colon s' in (c :: k, r)
  end.

(** [line.match] of the pattern: a key of one or more characters other
    than [':'], then [": "], then a value without line terminators up
    to the end.  The two groups, or [None] for [null]. *)
Definition match_line (line : list N) : option (list N * list N) :=
  match until_colon line with
  | ((_ :: _) as key, c1 :: c2 :: val) =>
      if N.eqb c1 58 && N.eqb c2 32 && forallb (fun c => negb (line_terminator c)) val
      then Some (key, val) else None
  | _ => None
  end.

Definition TypeError_null : error := Error "Cannot read property 'map' of null".

(** One round of the [reduce] over the header lines of a cached image *)
Definition read_line (m : result (list (list N * list N))) (line : list N)
  : result (list (list N * list N)) :=
  match m with
  | Ok m =>
      match match_line line with
      | Some (key, val) =>
          match Js.decodeURIComponent line with
          | Ok _ =>
              match Js.decodeURIComponent key with
              | Ok key' =>
                  match Js.decodeURIComponent val with
                  | Ok val' => Ok (Js.map_set key' val' m)
                  | Throw e => Throw e
                  | Blocked => Blocked
                  | OutOfFuel => OutOfFuel
                  end
              | Throw e => Throw e
              | Blocked => Blocked
              | OutOfFuel => OutOfFuel
              end
          | Throw e => Throw e
          | Blocked => Blocked
          | OutOfFuel => OutOfFuel
          end
      | None => Throw TypeError_null
      end
  | r => r
  end.

(** The [else] branch of [cachingFetch] after [storage.read] *)
Definition parse_image (image : list N) : result (list (list N * list N) * list N) :=
  let eoh : Z := match Js.indexOf (nl ++ nl) image with
                 | Some i => Z.of_nat i
                 | None => (-1)%Z
                 end in
  let text := Js.substr_from image (eoh + 2) in
  match fold_left read_line (Js.split 10 (Js.substr_to image eoh)) (Ok []) with
  | Ok headers => Ok (headers, text)
  | Throw e => Throw e
  | Blocked => Blocked
  | OutOfFuel => OutOfFuel
  end.

Section WithNetwork.
(** [node-fetch] *)
Variable Fetch : URL -> result NetResponse.

(** Modelled from the spec: [Errors.getOrThrow] is in [lib/rdf-errors],
    which is not part of the sources; it fetches and throws when the
    response is not [ok]. *)
Definition getOrThrow (url : URL) : result NetResponse :=
  match Fetch url with
  | Ok resp => if ok resp then Ok resp else Throw (NotFoundError (href url) "fetch failed")
  | r => r
  end.

(** [cachingFetch (url)] of a [SimpleApps] whose [cacheUrl] is [cacheRoot] *)
Definition cachingFetch (cacheRoot : URL) (url : URL) (w : World) : result Response * World :=
  let cacheUrl := resolve_name (cacheName url) cacheRoot in
  if String.eqb (origin cacheRoot +:+ "/") (origin url +:+ "/") then
    match Fetch url with
    | Ok resp => (Ok (mkResponse url (net_headers resp) (net_text resp)),
                  mkWorld (storage w) (S (fetched w)))
    | Throw e => (Throw e, mkWorld (storage w) (S (fetched w)))
    | Blocked => (Blocked, mkWorld (storage w) (S (fetched w)))
    | OutOfFuel => (OutOfFuel, mkWorld (storage w) (S (fetched w)))
    end
  else if negb (exists_ (storage w) cacheUrl) then
    match getOrThrow url with
    | Ok resp =>
        let text := net_text resp in
        let headers := to_map (List.filter kept (net_headers resp)) in
        let image := image_of headers text in
        match write cacheUrl image (storage w) with
        | (Ok _, st') => (Ok (mkResponse url headers text), mkWorld st' (S (fetched w)))
        | (Throw e, st') => (Throw e, mkWorld st' (S (fetched w)))
        | (Blocked, st') => (Blocked, mkWorld st' (S (fetched w)))
        | (OutOfFuel, st') => (OutOfFuel, mkWorld st' (S (fetched w)))
        end
    | Throw e => (Throw e, mkWorld (storage w) (S (fetched w)))
    | Blocked => (Blocked, mkWorld (storage w) (S (fetched w)))
    | OutOfFuel => (OutOfFuel, mkWorld (storage w) (S (fetched w)))
    end
  else
    match read cacheUrl (storage w) with
    | Ok image =>
        match parse_image image with
        | Ok (headers, text) => (Ok (mkResponse url headers text), w)
        | Throw e => (Throw e, w)
        | Blocked => (Blocked, w)
        | OutOfFuel => (OutOfFuel, w)
        end
    | Throw e => (Throw e, w)
    | Blocked => (Blocked, w)
    | OutOfFuel => (OutOfFuel, w)
    end.

End WithNetwork.

End Cache.

(** ** The dispatcher's existence checks ([lib/shape-tree-fetch.js]) *)

Module Dispatch.
Import Storage Container.

(** What [throwIfNotFound] is given: a value that was awaited, or the
    promise itself. *)
Inductive awaited (A : Type) : Type :=
| Value (v : A)
| Promise (p : A).
Arguments Value {A} v.
Arguments Promise {A} p.

Record stat : Type := mkStat {
  isContainer : bool
}.

(** [storage.rstat (url)], for an identifier that does not end with
    the storage's metadata suffix *)
Definition rstat (u : URL) (st : Storage) : result stat :=
  if is_dir st (pathname u) then Ok (mkStat true)
  else if is_file st (pathname u) then Ok (mkStat false)
  else Throw (ENOENT "lstat" (pathname u)).

(** [rstatOrNull (url)], once awaited *)
Definition rstatOrNull (u : URL) (st : Storage) : option stat :=
  match rstat u st with
  | Ok s => Some s
  | _ => None
  end.

(** [if (rstat)]: [null] is falsy, an object is truthy, a promise is an
    object. *)
Definition truthy (v : awaited (option stat)) : bool :=
  match v with
  | Value (Some _) => true
  | Value None => false
  | Promise _ => true
  end.

(** An exception in flight, with the [status] property it carries *)
Record thrown : Type := mkThrown {
  exn : error;
  exn_status : option N
}.

Definition throwIfNotFound (rstat : awaited (option stat)) (url : URL) (method : string)
  : option thrown :=
  if truthy rstat then None
  else Some (mkThrown (NotFoundError (href url) (method +:+ " " +:+ pathname url)) (Some 404%N)).

Record Response : Type := mkResponse {
  status : N;
  body_message : string
}.

(** The [catch] of [shapeTreeFetch], then [errorResponse]: an exception
    that is not managed gets [e.status || 500]. *)
Definition errorResponse (e : thrown) (managed_status : error -> N) : Response :=
  mkResponse
    (if ManagedError (exn e)
     then default (managed_status (exn e)) (exn_status e)
     else match exn_status e with
          | Some s => if N.eqb s 0 then 500%N else s
          | None => 500%N
          end)
    (message (exn e)).

Inductive method : Type := GET | POST | PUT | DELETE | OTHER (name : string).

Definition method_name (m : method) : string :=
  match m with
  | GET => "GET" | POST => "POST" | PUT => "PUT" | DELETE => "DELETE" | OTHER n => n
  end.

Section Dispatcher.
Context `{Platform}.

(** [process.env.SHAPETREE !== 'fetch'] *)
Variable NoShapeTrees : bool.
(** The status that the class of a managed error gives it
    ([lib/rdf-errors] is not part of the sources). *)
Variable managed_status : error -> N.
(** The fetch that the dispatcher wraps *)
Variable nextFetch : URL -> method -> Storage -> Response * Storage.
(** The [POST] branch after its existence check, and the [PUT] branch
    for a managed parent: they need [validatePayload] and
    [plantShapeTreeInstance], which the sources do not have. *)
Variable post_rest : URL -> Storage -> Response * Storage.
Variable put_managed : URL -> Container -> Storage -> Response * Storage.

Definition fail (e : error) : Response :=
  errorResponse (mkThrown e None) managed_status.

(** [shapeTreeFetch (url, options)] *)
Definition shapeTreeFetch (url : URL) (m : method) (st : Storage) : Response * Storage :=
  let requestUrl := url in
  let rstat := rstatOrNull requestUrl st in
  match m with
  | POST =>
      match throwIfNotFound (Value rstat) requestUrl (method_name m) with
      | Some e => (errorResponse e managed_status, st)
      | None => post_rest url st
      end
  | PUT =>
      match URL_new (if Str.endsWith (pathname requestUrl) "/" then ".." else ".") requestUrl with
      | Ok parentUrl =>
          let pstat := Promise (rstatOrNull parentUrl st) in
          match throwIfNotFound pstat requestUrl (method_name m) with
          | Some e => (errorResponse e managed_status, st)
          | None =>
              let '(postedContainer, st') :=
                if NoShapeTrees then open (VUrl parentUrl) (Title "undefined") st
                else (loadContainer parentUrl st, st) in
              match postedContainer with
              | Ok c => if managed c then put_managed url c st' else nextFetch url m st'
              | Throw e => (fail e, st')
              | Blocked => (fail (Error "never settles"), st')
              | OutOfFuel => (fail (Error "never settles"), st')
              end
          end
      | Throw e => (fail e, st)
      | _ => (fail (Error "never settles"), st)
      end
  | _ => nextFetch url m st
  end.

End Dispatcher.

End Dispatch.

(** ** A reference platform

    Node's [path.join], [path.normalize] and [path.relative] (the working
    directory being the root), relative references of path segments for
    [new URL], and URI templates of literals and simple [{var}]
    expressions.  It is what the examples run on. *)

Module Node.

Definition is_dot (s : string) : bool := String.eqb s "" || String.eqb s ".".

Fixpoint normalizeSegments (allowAboveRoot : bool) (acc segs : list string) : list string :=
  match segs with
  | [] => rev acc
  | s :: r =>
      if is_dot s then normalizeSegments allowAboveRoot acc r
      else if String.eqb s ".." then
        match acc with
        | a :: acc' =>
            if String.eqb a ".." then normalizeSegments allowAboveRoot (s :: acc) r
            else normalizeSegments allowAboveRoot acc' r
        | [] =>
            if allowAboveRoot then normalizeSegments allowAboveRoot [s] r
            else normalizeSegments allowAboveRoot [] r
        end
      else normalizeSegments allowAboveRoot (s :: acc) r
  end.

Definition normalize (p : string) : string :=
  if String.eqb p "" then "."
  else
    let isAbsolute := Str.startsWith p "/" in
    let body := ShapeTree.join "/" (normalizeSegments (negb isAbsolute) [] (Str.split "/" p)) in
    let body := if String.eqb body "" && negb isAbsolute then "." else body in
    let body := if negb (String.eqb body "") && Str.endsWith p "/" then body +:+ "/" else body in
    if isAbsolute then "/" +:+ body else body.

Definition join (a b : string) : string :=
  if String.eqb a "" then normalize b
  else if String.eqb b "" then normalize a
  else normalize (a +:+ "/" +:+ b).

Definition resolve (p : string) : list string :=
  normalizeSegments false [] (Str.split "/" p).

Fixpoint strip_common (a b : list string) : list string * list string :=
  match a, b with
  | x :: a', y :: b' => if String.eqb x y then strip_common a' b' else (a, b)
  | _, _ => (a, b)
  end.

Definition relative (from to : string) : string :=
  let '(up, down) := strip_common (resolve from) (resolve to) in
  ShapeTree.join "/" (map (fun _ => "..") up ++ down).

Definition remove_dot_segments (p : string) : string :=
  let segs := Str.split "/" p in
  let trailing := match last segs with
                  | Some s => is_dot s || String.eqb s ".."
                  | None => false
                  end in
  let body := ShapeTree.join "/" (normalizeSegments false [] segs) in
  "/" +:+ body +:+ (if trailing && negb (String.eqb body "") then "/" else "").

Definition url_new (rel : string) (base : URL) : result URL :=
  if String.eqb rel "" then Ok (mkURL (origin base) (pathname base) (search base) "")
  else if Str.startsWith rel "/" then Ok (mkURL (origin base) (remove_dot_segments rel) "" "")
  else Ok (mkURL (origin base) (remove_dot_segments (Str.dir_of (pathname base) +:+ rel)) "" "").

Fixpoint take_until (stop : ascii -> bool) (s : string) : string * string :=
  match s with
  | EmptyString => (EmptyString, EmptyString)
  | String c s' =>
      if stop c then (EmptyString, s)
      else let '(a, b) := take_until stop s' in (String c a, b)
  end.

Definition is_char (c d : ascii) : bool := Ascii.eqb c d.

(** [scheme://host/path?query#fragment] *)
Definition url_parse (s : string) : result URL :=
  let '(scheme, r) := take_until (is_char ":") s in
  if Str.startsWith r "://" && negb (String.eqb scheme "") then
    let '(host, r1) := take_until (fun c => is_char "/" c || is_char "?" c || is_char "#" c)
                                  (Str.drop 3 r) in
    let '(path, r2) := take_until (fun c => is_char "?" c || is_char "#" c) r1 in
    let '(query, fragment) := take_until (is_char "#") r2 in
    Ok (mkURL (scheme +:+ "://" +:+ host) (if String.eqb path "" then "/" else path)
              (if String.eqb query "?" then "" else query)
              (if String.eqb fragment "#" then "" else fragment))
  else Throw (Error ("Invalid URL: " +:+ s)).

(** *** URI templates *)

Inductive part : Type :=
| Lit (c : ascii)
| Var.

(** [{name}] is a variable; a brace that is not closed is a literal. *)
Fixpoint parse_template (fuel : nat) (t : string) : list part :=
  match fuel, t with
  | S fuel', String c t' =>
      if is_char "{" c then
        match take_until (is_char "}") t' with
        | (_, String _ rest) => Var :: parse_template fuel' rest
        | (_, EmptyString) => Lit c :: parse_template fuel' t'
        end
      else Lit c :: parse_template fuel' t'
  | _, _ => []
  end.

(** A variable stands for any run of characters, ['/'] among them. *)
Fixpoint match_var (k : string -> bool) (s : string) : bool :=
  k s || match s with
         | String c s' => match_var k s'
         | EmptyString => false
         end.

Fixpoint match_parts (ps : list part) : string -> bool :=
  match ps with
  | [] => fun s => String.eqb s ""
  | Lit c :: ps' => fun s => match s with
                             | String d s' => is_char c d && match_parts ps' s'
                             | EmptyString => false
                             end
  | Var :: ps' => match_var (match_parts ps')
  end.

Definition template_match (template : option string) (name : string) : result bool :=
  match template with
  | Some t => Ok (match_parts (parse_template (String.length t) t) name)
  | None => Throw (Error "Cannot read property 'replace' of undefined")
  end.

#[export] Instance platform : Platform := {|
  Path_join := join;
  Path_relative := relative;
  URL_new := url_new;
  URL_parse := url_parse;
  UriTemplate_match := template_match
|}.

End Node.

(** ** Notions that the properties are stated with *)

Module Spec.
Import Storage Container.

(** How many ['/'] a path ends with *)
Fixpoint leading_slashes (s : string) : nat :=
  match s with
  | String c s' => if Ascii.eqb c "/" then S (leading_slashes s') else O
  | EmptyString => O
  end.

Definition trailing_slashes (s : string) : nat := leading_slashes (String.rev s).

(** An identifier that a container may be opened with: a [URL] whose
    path ends with exactly one separator. *)
Definition container_identifier (u : js_value) : bool :=
  match u with
  | VUrl url => (trailing_slashes (pathname url) =? 1)%nat
  | _ => false
  end.

(** *** The lock *)

(** [_locking] after [n] calls of [lock] *)
Fixpoint chain (n : nat) : Mutex.promise :=
  match n with
  | O => Mutex.Resolved
  | S k => Mutex.ThenPromise (chain k) (Mutex.WillLock k)
  end.

(** What holds of the clients of a lock at any time: the tickets that
    entered are the first ones, in order; each of them has released or is
    running; a running ticket has all earlier ones released. *)
Definition lock_invariant (s : Mutex.clients) : Prop :=
  let m := Mutex.mutex s in
  let k := length (Mutex.entered s) in
  Mutex._locking m = chain (Mutex.issued m)
  /\ Mutex.entered s = rev (seq 0 k)
  /\ k <= Mutex.issued m
  /\ (forall t p, (t, p) ∈ Mutex.waiting s ->
                  p = Mutex.ThenValue (chain t) /\ k <= t < Mutex.issued m)
  /\ (forall t, t ∈ Mutex.released m -> t < k /\ t ∉ Mutex.running s)
  /\ (forall t, t < k -> t ∈ Mutex.released m \/ t ∈ Mutex.running s)
  /\ (forall t, t ∈ Mutex.running s ->
                t < k /\ forall j, j < t -> j ∈ Mutex.released m)
  /\ NoDup (Mutex.running s).

(** *** The cache *)

(** Code units below 128 *)
Definition ascii_only (s : list N) : bool := forallb (fun c => (c <? 128)%N) s.

(** A header that the cache can hold and give back: its name is not
    empty, and name and value are ASCII. *)
Definition cacheable (pair : list N * list N) : bool :=
  negb (forallb (fun _ => false) (fst pair)) && ascii_only (fst pair) && ascii_only (snd pair).

(** No empty line: the text has no two adjacent line feeds and does not
    end with one. *)
Fixpoint no_blank (s : list N) : bool :=
  match s with
  | [] => true
  | c :: s' =>
      (negb (N.eqb c 10) || match s' with
                            | [] => false
                            | d :: _ => negb (N.eqb d 10)
                            end)
      && no_blank s'
  end.

(** No line feed *)
Definition one_line (s : list N) : bool := forallb (fun c => negb (N.eqb c 10)) s.

(** What [escape] produces for ASCII: the characters it keeps, and ['%']. *)
Definition safe (c : N) : bool := Js.unescaped c || N.eqb c 37.

(** *** Schema trees *)

Definition is_ok {A} (r : result A) : bool :=
  match r with
  | Ok _ => true
  | _ => false
  end.

(** The declared children of a node, in the order of the store *)
Definition children (g : Store) (n : term) : list term :=
  map object (getQuads g (Some n) (ShapeTree.tree "contents") None).

(** [c] has the property [tree:p] with the value [o]. *)
Definition declared (g : Store) (c : term) (p : string) (o : term) : Prop :=
  exists gr, Quad c (NamedNode (Prefixes.ns_tree +:+ p)) o gr ∈ g.

(** [c] has the label [name]: the store holds one statement
    [c rdfs:label name].  It may hold other labels of [c] as well. *)
Definition labelled (g : Store) (name : string) (c : term) : bool :=
  (length (getQuads g (Some c) ShapeTree.rdfs_label (Some (Literal name))) =? 1)%nat.

Definition declares_label (g : Store) (c : term) : bool :=
  negb (forallb (fun _ => false) (getQuads g (Some c) ShapeTree.rdfs_label None)).

Definition templated (g : Store) (c : term) : bool :=
  (length (getQuads g (Some c) (ShapeTree.tree "uriTemplate") None) =? 1)%nat.

Definition template_of (g : Store) (c : term) : option string :=
  head (map (fun q => value (object q)) (getQuads g (Some c) (ShapeTree.tree "uriTemplate") None)).

(** What [getRdfRoot] selects by: the label, or the presence of a
    template. *)
Definition eligible (g : Store) (name : string) (c : term) : bool :=
  labelled g name c || templated g c.

(** [c] is the first eligible child of [n]. *)
Definition first_eligible (g : Store) (n : term) (name : string) (c : term) : Prop :=
  exists before after,
    children g n = before ++ c :: after
    /\ eligible g name c = true
    /\ Forall (fun x => eligible g name x = false) before.

(** The walk of [getRdfRoot] along the segments of a path *)
Inductive walks (g : Store) : term -> list string -> term -> Prop :=
| walks_done n : walks g n [] n
| walks_dot n segments m :
    walks g n segments m -> walks g n ("." :: segments) m
| walks_child n name c segments m :
    name <> "." -> first_eligible g n name c -> walks g c segments m ->
    walks g n (name :: segments) m.

(** The step record carries what the graph declares for [c]. *)
Definition carries (g : Store) (c : term) (s : ShapeTree.Step) : Prop :=
  ShapeTree.node s = c
  /\ (forall o, ShapeTree.typeNode s = Some o <-> declared g c "expectedType" o)
  /\ (forall o, ShapeTree.name s = Some o <-> declared g c "name" o)
  /\ (forall o, ShapeTree.uriTemplate s = Some o <-> declared g c "uriTemplate" o)
  /\ (forall o, ShapeTree.shape s = Some o <-> declared g c "shape" o)
  /\ ShapeTree.contents s = children g c
  /\ ShapeTree.type s
     = option_map (fun t => Str.remove_first Prefixes.ns_ldp (value t)) (ShapeTree.typeNode s).

(** The nodes in one line, as the messages of [matchingStep] list them *)
Definition listed (cs : list term) : string := String.concat ", " (map value cs).

Definition no_match (n : term) (slug : option string) (cs : list term) : error :=
  UriTemplateMatchError slug ("No match in " +:+ value n +:+ " " +:+ listed cs).

Definition ambiguous (slug : option string) (cs : list term) : error :=
  UriTemplateMatchError slug ("Ambiguous match against " +:+ listed cs).

(** The properties that a step carries, in the order in which
    [matchingStep] looks them up; one with several values has no single
    value to carry. *)
Definition step_properties : list string := ["expectedType"; "name"; "uriTemplate"; "shape"].

Definition several (g : Store) (c : term) (p : string) : bool :=
  (1 <? length (getQuads g (Some c) (ShapeTree.tree p) None))%nat.

(** *** Static instantiation *)

(** [u] lies strictly below [base]. *)
Definition below (base u : URL) : bool :=
  Str.startsWith (pathname u) (pathname base)
  && negb (String.eqb (pathname u) (pathname base)).

(** Every ticket of the lock has released. *)
Definition idle (m : Mutex.Mutex) : bool :=
  Mutex.fulfilled (Mutex.released m) (Mutex._locking m).

(** What a call for the identifier [u] may touch: nothing outside the
    subtree of [u] but the graph stored for its parent; it creates and
    removes nothing outside the subtree; the parent is still the
    container of the same identifier, and its lock is free again. *)
Definition frame (u : URL) (parent parent' : Container) (st st' : Storage) : Prop :=
  Container.url parent' = Container.url parent
  /\ (idle (Container._mutex parent) = true -> idle (Container._mutex parent') = true)
  /\ forall k, Str.startsWith k (pathname u) = false ->
       resources st' !! k = resources st !! k
       /\ (is_Some (containers st' !! k) <-> is_Some (containers st !! k))
       /\ (k <> pathname (Container.url parent) -> containers st' !! k = containers st !! k).

(** What the calls for the children of [root] may touch: below [root]
    anything, of the directory [root] itself only the stored graph,
    nothing else. *)
Definition nested_frame (root : string) (st st' : Storage) : Prop :=
  forall k, Str.startsWith k root = false \/ k = root ->
    resources st' !! k = resources st !! k
    /\ (is_Some (containers st' !! k) <-> is_Some (containers st !! k))
    /\ (Str.startsWith k root = false -> containers st' !! k = containers st !! k).

Section WithPlatform.
Context `{Platform}.

(** The identifier that [instantiateStatic] forms for the child [t] lies
    strictly below [rootUrl], and so on below that child ([deeper]). *)
Definition child_ok (deeper : term -> URL -> bool) (g : Store) (rootUrl : URL) (t : quad) : bool :=
  match zeroOrOne g (Some (object t)) ShapeTree.rdfs_label None with
  | Ok (Some labelT) =>
      match URL_new (Path_join (value (object labelT)) "/") rootUrl with
      | Ok nestedUrl => below rootUrl nestedUrl && deeper (object t) nestedUrl
      | _ => true
      end
  | _ => true
  end.

(** Down to the depth [fuel], every nested identifier lies strictly
    below the identifier it is nested in. *)
Fixpoint well_nested (fuel : nat) (g : Store) (stepNode : term) (rootUrl : URL) : bool :=
  match fuel with
  | O => true
  | S fuel' =>
      forallb (child_ok (well_nested fuel' g) g rootUrl)
              (getQuads g (Some stepNode) (ShapeTree.tree "contents") None)
  end.

(** The segment matches the URI template of [c]. *)
Definition template_accepts (g : Store) (name : string) (c : term) : bool :=
  match template_of g c with
  | Some t => match UriTemplate_match (Some t) name with
              | Ok true => true
              | _ => false
              end
  | None => false
  end.

(** The selection as the specification words it: the child whose label
    is the segment or, if no child declares a label, the child whose URI
    template the segment matches. *)
Definition claimed_child (g : Store) (n : term) (name : string) : option term :=
  match List.find (labelled g name) (children g n) with
  | Some c => Some c
  | None =>
      if forallb (fun c => negb (declares_label g c)) (children g n)
      then List.find (template_accepts g name) (children g n)
      else None
  end.

Definition claimed_step (g : Store) (n : option term) (name : string) : option term :=
  if String.eqb name "." then n
  else match n with
       | Some n => claimed_child g n name
       | None => None
       end.

Definition claimed_getRdfRoot (t : ShapeTree.RemoteShapeTree) : option term :=
  fold_left (claimed_step (ShapeTree.graph t)) (Str.split "/" (ShapeTree.path t))
            (Some (NamedNode (href (ShapeTree.url t)))).

(** The name that is asked for; none when the argument is absent or
    empty. *)
Definition named (slug : option string) : option string :=
  match slug with
  | Some (String a s) => Some (String a s)
  | _ => None
  end.

(** What the matcher answers when the URI template of [c] is tried on
    [name]; a child without a template gives it [undefined]. *)
Definition answer (g : Store) (name : string) (c : term) : result bool :=
  UriTemplate_match (template_of g c) name.

(** A child passes the filter of [matchingStep]: no name is asked for,
    or its URI template matches the name. *)
Definition qualifying (g : Store) (slug : option string) (c : term) : bool :=
  match named slug with
  | None => true
  | Some name =>
      match answer g name c with
      | Ok true => true
      | _ => false
      end
  end.

(** The first child, in the order of the store, for which the matcher
    has no answer, and what it gives instead of one. *)
Fixpoint first_unanswered (g : Store) (name : string) (cs : list term)
  : option (result ShapeTree.Step) :=
  match cs with
  | [] => None
  | c :: cs' =>
      match answer g name c with
      | Ok _ => first_unanswered g name cs'
      | Throw e => Some (Throw e)
      | Blocked => Some Blocked
      | OutOfFuel => Some OutOfFuel
      end
  end.

Definition unanswered (g : Store) (slug : option string) (cs : list term)
  : option (result ShapeTree.Step) :=
  match named slug with
  | None => None
  | Some name => first_unanswered g name cs
  end.

End WithPlatform.

End Spec.

(** ** Data of the examples *)

Module Example.
Import Storage Container.

Definition host : string := "http://localhost".
Definition at_ (p : string) : URL := mkURL host p "" "".

(** A container that already lists [http://localhost/Data/a/] *)
Definition data : Container :=
  mkContainer (at_ "/Data/") [] Mutex.new
    [membership (mkContainer (at_ "/Data/") [] Mutex.new [] [] None false None None None)
                "http://localhost/Data/a/"]
    [] None false None None None.

(** The same container without members *)
Definition empty_data : Container :=
  mkContainer (at_ "/Data/") [] Mutex.new [] [] None false None None None.

(** A storage with the document root, [/Data/] and [/Cache/] *)
Definition st0 : Storage :=
  mkStorage {[ "/" := []; "/Data/" := []; "/Cache/" := [] ]} ∅.

(** *** A shape tree: a root with a templated child *)

Definition shapes : URL := mkURL "http://shapes.example" "/tree" "" "#root".
Definition root_node : term := NamedNode (href shapes).
Definition label_node : term := NamedNode "http://shapes.example/tree#label".

Definition templated_graph : Store :=
  [ triple root_node (NamedNode (Prefixes.ns_tree +:+ "contents")) label_node;
    triple label_node (NamedNode (Prefixes.ns_tree +:+ "expectedType"))
           (NamedNode (Prefixes.ns_ldp +:+ "Resource"));
    triple label_node (NamedNode (Prefixes.ns_tree +:+ "uriTemplate")) (Literal "{labelName}.ttl");
    triple label_node (NamedNode (Prefixes.ns_tree +:+ "shape"))
           (NamedNode "http://shapes.example/schema#LabelShape") ].

Definition templated_tree (path : string) : ShapeTree.RemoteShapeTree :=
  ShapeTree.mkRemoteShapeTree shapes path templated_graph.

(** The same root with a second child of the same template *)
Definition note_node : term := NamedNode "http://shapes.example/tree#note".

Definition ambiguous_graph : Store :=
  templated_graph ++
  [ triple root_node (NamedNode (Prefixes.ns_tree +:+ "contents")) note_node;
    triple note_node (NamedNode (Prefixes.ns_tree +:+ "uriTemplate")) (Literal "{noteName}.ttl") ].

(** *** A shape tree whose static part cannot be instantiated: [repos]
    and [users] are static containers, and the child of [users] has two
    labels *)

Definition repos_node : term := NamedNode "http://shapes.example/tree#repos".
Definition users_node : term := NamedNode "http://shapes.example/tree#users".
Definition bad_node : term := NamedNode "http://shapes.example/tree#bad".

Definition failing_graph : Store :=
  [ triple root_node (NamedNode (Prefixes.ns_tree +:+ "contents")) repos_node;
    triple root_node (NamedNode (Prefixes.ns_tree +:+ "contents")) users_node;
    triple repos_node (NamedNode (Prefixes.ns_rdfs +:+ "label")) (Literal "repos");
    triple users_node (NamedNode (Prefixes.ns_rdfs +:+ "label")) (Literal "users");
    triple users_node (NamedNode (Prefixes.ns_tree +:+ "contents")) bad_node;
    triple bad_node (NamedNode (Prefixes.ns_rdfs +:+ "label")) (Literal "x");
    triple bad_node (NamedNode (Prefixes.ns_rdfs +:+ "label")) (Literal "y") ].

Definition failing_tree : ShapeTree.RemoteShapeTree :=
  ShapeTree.mkRemoteShapeTree shapes "." failing_graph.

(** *** Two URLs with one cache name *)

Definition cacheRoot : URL := at_ "/Cache/".
Definition u1 : URL := mkURL "http://a.example" "/b/c" "" "".
Definition u2 : URL := mkURL "http://a.example" "/bc" "" "".

Definition response_of (body : string) : Cache.NetResponse :=
  Cache.mkNetResponse true
    [ (Js.of_string "content-type", Js.of_string "text/turtle");
      (Js.of_string "date", Js.of_string "Wed, 10 Jun 2020 17:39:09 GMT") ]
    (Js.of_string body).

Definition network (u : URL) : result Cache.NetResponse :=
  if String.eqb (pathname u) "/b/c" then Ok (response_of "<#one> <#p> <#o>.")
  else Ok (response_of "<#two> <#p> <#o>.").

Definition w0 : Cache.World := Cache.mkWorld st0 0.

(** The cache after [u1] has been fetched once *)
Definition w_warm : Cache.World :=
  snd (Cache.cachingFetch network cacheRoot u1 w0).

(** A response whose only header is its date *)
Definition dated_only (u : URL) : result Cache.NetResponse :=
  Ok (Cache.mkNetResponse true
        [ (Js.of_string "date", Js.of_string "Wed, 10 Jun 2020 17:39:09 GMT") ]
        (Js.of_string "<#s> <#p> <#o>.")).

(** A response with a header value outside ASCII *)
Definition latin1 (u : URL) : result Cache.NetResponse :=
  Ok (Cache.mkNetResponse true
        [ (Js.of_string "content-type", Js.of_string "text/turtle");
          (Js.of_string "x-author", [233%N]) ]
        (Js.of_string "<#s> <#p> <#o>.")).

(** *** Clients of a lock: three calls of [lock], the first holder
    inside its critical section *)

Definition three_waiting : Mutex.clients :=
  Mutex.mkClients
    (Mutex.mkMutex (Spec.chain 3) 3 3 ∅)
    [(1, Mutex.ThenValue (Spec.chain 1)); (2, Mutex.ThenValue (Spec.chain 2))]
    [0] [0].

(** A container whose directory is gone: [write] fails *)
Definition lost : Container :=
  mkContainer (at_ "/Lost/") [] Mutex.new [] [] None false None None None.

(** The container of [/Data/] while its lock has the three clients *)
Definition busy : Container :=
  mkContainer (at_ "/Data/") [] (Mutex.mutex three_waiting) [] [] None false None None None.

End Example.

(** * The rest of the library: link headers, response objects, name
      invention, the ecosystem's index and planting *)

(** ** Link headers ([parseLinks] of [lib/shape-tree-fetch.js] and of
       [storage/ldp-proxy.js]) *)

Module Links.

Definition dquote : ascii := "034"%char.

(** The pieces of the pattern
    [/<(.*?)> *; *rel *= *"(.*?)" *,? */]: a character, a character
    repeated (greedy), an optional character (greedy), and the lazy
    capturing group [(.*?)]. *)
Inductive re : Type :=
| Chr (c : ascii)
| Star (c : ascii)
| Opt (c : ascii)
| Group.

(** [.] matches any character but a line terminator. *)
Definition line_terminator (c : ascii) : bool :=
  Ascii.eqb c "010" || Ascii.eqb c "013".

(** [c*] before the continuation [k]: the longest run first *)
Fixpoint star {A} (c : ascii) (k : string -> option A) (s : string) : option A :=
  match s with
  | String d s' =>
      if Ascii.eqb c d
      then match star c k s' with
           | Some r => Some r
           | None => k s
           end
      else k s
  | EmptyString => k s
  end.

(** [(.*?)] before the continuation [k]: the shortest capture first;
    [acc] is what the group has taken. *)
Fixpoint lazy {A} (k : string -> string -> option A) (s acc : string) : option A :=
  match k s acc with
  | Some r => Some r
  | None =>
      match s with
      | String d s' => if line_terminator d then None else lazy k s' (acc +:+ String d "")
      | EmptyString => None
      end
  end.

(** A backtracking match of the pieces [p] at the start of [s]: the
    captures and the text after the match. *)
Fixpoint exec (p : list re) (s : string) (caps : list string)
  : option (list string * string) :=
  match p with
  | [] => Some (caps, s)
  | Chr c :: p' =>
      match s with
      | String d s' => if Ascii.eqb c d then exec p' s' caps else None
      | EmptyString => None
      end
  | Star c :: p' => star c (fun s => exec p' s caps) s
  | Opt c :: p' =>
      match s with
      | String d s' =>
          if Ascii.eqb c d
          then match exec p' s' caps with
               | Some r => Some r
               | None => exec p' s caps
               end
          else exec p' s caps
      | EmptyString => exec p' s caps
      end
  | Group :: p' => lazy (fun s acc => exec p' s (caps ++ [acc])) s ""
  end.

Definition pattern : list re :=
  [ Chr "<"; Group; Chr ">"; Star " "; Chr ";"; Star " ";
    Chr "r"; Chr "e"; Chr "l"; Star " "; Chr "="; Star " ";
    Chr dquote; Group; Chr dquote; Star " "; Opt ","; Star " " ].

(** [s.split(pattern)]: the text before each match, then the captures
    of the match, and at the end the text after the last match.  [pre]
    is the text since the last match.  The pattern matches no empty
    string, so every round consumes a character. *)
Fixpoint split (fuel : nat) (pre s : string) : result (list string) :=
  match fuel with
  | O => OutOfFuel
  | S fuel' =>
      match s with
      | EmptyString => Ok [pre]
      | String c s' =>
          match exec pattern s [] with
          | Some (caps, rest) =>
              match split fuel' "" rest with
              | Ok l => Ok (pre :: caps ++ l)
              | r => r
              end
          | None => split fuel' (pre +:+ String c "") s'
          end
      end
  end.

(** The object [ret]: a table from relation to target *)
Definition links : Type := gmap string string.

(** [ret[key] = value] on a plain object: assigning a string to
    [__proto__] leaves the object as it was. *)
Definition assign_key (key value : string) (ret : links) : links :=
  if String.eqb key "__proto__" then ret else <[key := value]> ret.

(** [for (i = 0; i < components.length; i += 3)
       ret[components[i+1]] = components[i]] *)
Fixpoint assign (components : list string) (ret : links) : links :=
  match components with
  | [] => ret
  | [target] => assign_key "undefined" target ret
  | [target; rel] => assign_key rel target ret
  | target :: rel :: _ :: components' => assign components' (assign_key rel target ret)
  end.

(** [parseLinks (linkHeader)]; [None] is a header that is [null] or
    [undefined]. *)
Definition parseLinks (linkHeader : option string) : result links :=
  match linkHeader with
  | None => Ok ∅
  | Some h =>
      if String.eqb h "" then Ok ∅
      else match split (S (String.length h)) "" h with
           | Ok components => Ok (assign (tail components) ∅)
           | Throw e => Throw e
           | Blocked => Blocked
           | OutOfFuel => OutOfFuel
           end
  end.

(** [links.type.substr(Prefixes.ns_ldp.length)] of the [POST] branch *)
Definition ldpType (l : links) : result string :=
  match l !! "type" with
  | Some t => Ok (Str.drop (String.length Prefixes.ns_ldp) t)
  | None => Throw (Error "Cannot read property 'substr' of undefined")
  end.

End Links.

(** ** Response objects ([class Headers], [class FakeResponse],
       [errorResponse] of [lib/shape-tree-fetch.js]) *)

Module Http.

(** [toLowerCase] on strings of 8-bit code units: [A-Z] and the
    capital letters of Latin-1 *)
Definition lower (c : ascii) : ascii :=
  let n := N_of_ascii c in
  if Js.between 65 90 n || (Js.between 192 222 n && negb (N.eqb n 215))
  then ascii_of_N (n + 32) else c.

Fixpoint toLowerCase (s : string) : string :=
  match s with
  | EmptyString => EmptyString
  | String c s' => String (lower c) (toLowerCase s')
  end.

(** What the code stores in a header: a string, or the number
    [text.length]. *)
Inductive value : Type :=
| Text (s : string)
| Number (n : N).

(** [v || null] keeps [v] when it is truthy. *)
Definition truthy (v : value) : bool :=
  match v with
  | Text s => negb (String.eqb s "")
  | Number n => negb (N.eqb n 0)
  end.

(** [class Headers extends Map] *)
Definition Headers : Type := gmap string value.

Definition get (name : string) (h : Headers) : option value :=
  match h !! toLowerCase name with
  | Some v => if truthy v then Some v else None
  | None => None
  end.

Definition set (name : string) (v : value) (h : Headers) : Headers :=
  <[toLowerCase name := v]> h.

Record FakeResponse : Type := mkFakeResponse {
  url : URL;
  headers : Headers;
  ok : bool;
  _status : option N;
  statusText : option string;
  bodyUsed : bool;
  _text : string
}.

(** [new FakeResponse (url, text, type)] *)
Definition new (url : URL) (text type : string) : FakeResponse :=
  mkFakeResponse url
    (if negb (String.eqb text "")
     then set "content-type" (Text type)
            (set "content-length" (Number (N.of_nat (String.length text))) ∅)
     else ∅)
    true (Some 200%N) (Some "OK") false text.

Section WithTables.
(** [require('statuses').STATUS_CODES] *)
Variable ResponseCodes : N -> option string.
(** The members of [JSON.stringify ({message, error, stack})], between
    the braces *)
Variable json_members : Dispatch.thrown -> string.

(** [set status (status)] *)
Definition set_status (status : option N) (r : FakeResponse) : FakeResponse :=
  mkFakeResponse (url r) (headers r) (ok r) status
    (match status with Some s => ResponseCodes s | None => None end)
    (bodyUsed r) (_text r).

Definition set_headers (h : Headers) (r : FakeResponse) : FakeResponse :=
  mkFakeResponse (url r) h (ok r) (_status r) (statusText r) (bodyUsed r) (_text r).

(** [errorResponse (e, url)] *)
Definition errorResponse (e : Dispatch.thrown) (url : URL) : FakeResponse :=
  let ret := new url ("{" +:+ json_members e +:+ "}") "text/plain" in
  let ret := set_headers (set "Content-type" (Text "application/json") (headers ret)) ret in
  set_status (Dispatch.exn_status e) ret.

End WithTables.

End Http.

(** ** Names for new members ([firstAvailable], [invent],
       [inventContainer], [getIndexFilePath], [getMetaDataFilePath] of
       [storage/fs-promises.js]; [firstAvailableFile] of
       [lib/shape-tree-fetch.js], which forms the same names) *)

Module FsPromise.
Import Storage.

Record Config : Type := mkConfig {
  docRoot : string;
  indexFile : string;
  metaDataSuffix : string
}.

Definition getIndexFilePath (cfg : Config) (url : URL) : string :=
  if Str.endsWith (pathname url) (indexFile cfg) then pathname url
  else pathname url +:+ indexFile cfg.

Definition getMetaDataFilePath (cfg : Config) (url : URL) : string :=
  if Str.endsWith (pathname url) (metaDataSuffix cfg) then pathname url
  else pathname url +:+ metaDataSuffix cfg.

(** The name that the loop tests in its round [unique]:
    [(slug || type) + (unique > 0 ? '-' + unique : '')
       + (type === 'Container' ? '/' : '')] *)
Definition candidate (slug : option string) (type : string) (unique : nat) : string :=
  (if ShapeTree.falsy slug then type else default "" slug)
  +:+ (if (0 <? unique)%nat then "-" +:+ pretty unique else "")
  +:+ (if String.eqb type "Container" then "/" else "").

(** [Fs.promises.lstat (Path.join (docRoot, path))]: whether the path
    names a directory, for a path that names something *)
Definition lstat (p : string) (st : Storage) : result bool :=
  if is_dir st p then Ok true
  else if is_file st p then Ok false
  else Throw (ENOENT "lstat" p).

Record Stat : Type := mkStat {
  isContainer : bool;
  isMetaData : bool;
  metaDataLocation : URL;
  size : N
}.

Section WithPlatform.
Context `{Platform}.
(** [lstat (path).size] *)
Variable size_of : string -> Storage -> N.

(** [rstat (url)].  For an identifier that ends with the metadata
    suffix it looks at the resource whose identifier is the text
    without the suffix; the metadata file itself need not exist. *)
Definition rstat (cfg : Config) (url : URL) (st : Storage) : result Stat :=
  if Str.endsWith (pathname url) (metaDataSuffix cfg) then
    match URL_parse (String.substring 0 (String.length (href url)
                                         - String.length (metaDataSuffix cfg)) (href url)) with
    | Ok origUrl =>
        match lstat (pathname origUrl) st with
        | Ok _ =>
            let size := match lstat (pathname url) st with
                        | Ok _ => size_of (pathname url) st
                        | _ => 0%N
                        end in
            Ok (mkStat false true url size)
        | Throw e => Throw e
        | Blocked => Blocked
        | OutOfFuel => OutOfFuel
        end
    | Throw e => Throw e
    | Blocked => Blocked
    | OutOfFuel => OutOfFuel
    end
  else
    match lstat (pathname url) st with
    | Ok isDirectory =>
        match URL_new (getMetaDataFilePath cfg url) url with
        | Ok location => Ok (mkStat isDirectory false location (size_of (pathname url) st))
        | Throw e => Throw e
        | Blocked => Blocked
        | OutOfFuel => OutOfFuel
        end
    | Throw e => Throw e
    | Blocked => Blocked
    | OutOfFuel => OutOfFuel
    end.

(** The [while] loop of [firstAvailable]: the first name, counting
    from [unique], that [exists] does not find; [fuel] bounds the
    number of rounds. *)
Fixpoint search (fuel : nat) (parentUrl : URL) (slug : option string) (type : string)
         (unique : nat) (st : Storage) : result (string * URL) :=
  match fuel with
  | O => OutOfFuel
  | S fuel' =>
      let name := candidate slug type unique in
      match URL_new name parentUrl with
      | Ok u =>
          if exists_ st u then search fuel' parentUrl slug type (S unique) st
          else Ok (name, u)
      | Throw e => Throw e
      | Blocked => Blocked
      | OutOfFuel => OutOfFuel
      end
  end.

(** [firstAvailable (parentUrl, slug, docRoot, type, f)] *)
Definition firstAvailable {A} (fuel : nat) (parentUrl : URL) (slug : option string)
           (type : string) (f : URL -> Storage -> result A * Storage) (st : Storage)
  : result (string * A) * Storage :=
  match search fuel parentUrl slug type 0 st with
  | Ok (name, u) =>
      match f u st with
      | (Ok a, st') => (Ok (name, a), st')
      | (Throw e, st') => (Throw e, st')
      | (Blocked, st') => (Blocked, st')
      | (OutOfFuel, st') => (OutOfFuel, st')
      end
  | Throw e => (Throw e, st)
  | Blocked => (Blocked, st)
  | OutOfFuel => (OutOfFuel, st)
  end.

(** [invent (parentUrl, requestedName, body, mediaType)] *)
Definition invent (fuel : nat) (parentUrl : URL) (requestedName : option string)
           (body : list N) (st : Storage) : result (string * unit) * Storage :=
  firstAvailable fuel parentUrl requestedName "Resource" (fun url => write url body) st.

(** [inventContainer (parentUrl, requestedName, title, prefixes)] *)
Definition inventContainer (fuel : nat) (parentUrl : URL) (requestedName : option string)
           (title : string) (st : Storage) : result (string * Store) * Storage :=
  firstAvailable fuel parentUrl requestedName "Container"
    (fun url st =>
       match ensureContainer url title st with
       | (Ok (_, g), st') => (Ok g, st')
       | (Throw e, st') => (Throw e, st')
       | (Blocked, st') => (Blocked, st')
       | (OutOfFuel, st') => (OutOfFuel, st')
       end) st.

End WithPlatform.

End FsPromise.

(** The name search of the dispatcher *)
Module Fetcher.

Section WithStorage.
Context `{Platform}.
(** How [storage.rstat] settles, for the storage that the dispatcher
    was made with *)
Variable Stat : Type.
Variable rstat : URL -> result Stat.

(** [incrementAndTest ()] in the round [unique]: the name [tested] that
    it sets, and what it resolves to *)
Definition incrementAndTest (parentUrl : URL) (base optSlash : string) (unique : nat)
  : string * result bool :=
  let nth := if (0 <? unique)%nat then "-" +:+ pretty unique else "" in
  let tested := base +:+ nth +:+ optSlash in
  (tested,
   match URL_new tested parentUrl with
   | Ok testUrl =>
       match rstat testUrl with
       | Ok _ => Ok true
       | Throw _ => Ok false
       | Blocked => Blocked
       | OutOfFuel => OutOfFuel
       end
   | Throw e => Throw e
   | Blocked => Blocked
   | OutOfFuel => OutOfFuel
   end).

(** [while (await incrementAndTest ()) ++unique; return tested]; [fuel]
    bounds the number of rounds. *)
Fixpoint loop (fuel : nat) (parentUrl : URL) (base optSlash : string) (unique : nat)
  : result string :=
  match fuel with
  | O => OutOfFuel
  | S fuel' =>
      match incrementAndTest parentUrl base optSlash unique with
      | (_, Ok true) => loop fuel' parentUrl base optSlash (S unique)
      | (tested, Ok false) => Ok tested
      | (_, Throw e) => Throw e
      | (_, Blocked) => Blocked
      | (_, OutOfFuel) => OutOfFuel
      end
  end.

(** [firstAvailableFile (parentUrl, slug, type)] *)
Definition firstAvailableFile (fuel : nat) (parentUrl : URL) (slug : option string)
           (type : string) : result string :=
  let base := if ShapeTree.falsy slug then type else default "" slug in
  let optSlash := if String.eqb type "Container" then "/" else "" in
  loop fuel parentUrl base optSlash 0.

End WithStorage.

End Fetcher.

(** ** The ecosystem ([class SimpleApps] of [ecosystems/simple-apps.js]) *)

Module Ecosystem.
Import Storage Container.

(** [prefixes[key] = value] on an object that keeps the order of its
    keys *)
Fixpoint set_prefix (key value : string) (p : list (string * string))
  : list (string * string) :=
  match p with
  | [] => [(key, value)]
  | (k, v) :: p' =>
      if String.eqb k key then (key, value) :: p' else (k, v) :: set_prefix key value p'
  end.

Definition set_prefixes (p : list (string * string)) (c : Container) : Container :=
  mkContainer (url c) p (_mutex c) (graph c) (subdirs c) (newDir c) (managed c)
              (shapeTreeUrl c) (shapeTreeInstancePath c) (shapeTreeInstanceRoot c).

(** The statement that [instanceUrl] is an instance of [shapeTreeUrl].
    The ecosystem writes the namespaces as [Prefixes.tree] and
    [Prefixes.ldp]; they are taken to be the [ns_tree] and [ns_ldp] of
    [lib/shape-tree.js]. *)
Definition installed (instanceUrl shapeTreeUrl : URL) : quad :=
  triple (NamedNode (href instanceUrl)) (NamedNode (Prefixes.ns_tree +:+ "shapeTreeRoot"))
         (NamedNode (href shapeTreeUrl)).

Definition indexInstalledShapeTree (parent : Container) (instanceUrl shapeTreeUrl : URL)
  : Container :=
  set_prefixes (set_prefix "tree" Prefixes.ns_tree (prefixes parent))
               (set_graph (addQuad (installed instanceUrl shapeTreeUrl) (graph parent)) parent).

Definition unindexInstalledShapeTree (parent : Container) (instanceUrl shapeTreeUrl : URL)
  : Container :=
  set_graph (removeQuad (installed instanceUrl shapeTreeUrl) (graph parent)) parent.

(** One tree of [ContainerSpec]; [children] may be absent, [container]
    is filled in by [createContainers]. *)
#[local] Unset Elimination Schemes.
Inductive ContainerSpec : Type :=
| mkSpec (path title : string) (children : option (list ContainerSpec))
         (container : option Container).
#[local] Set Elimination Schemes.

Definition spec_path (s : ContainerSpec) : string :=
  match s with mkSpec p _ _ _ => p end.

Definition spec_children (s : ContainerSpec) : option (list ContainerSpec) :=
  match s with mkSpec _ _ c _ => c end.

Definition spec_container (s : ContainerSpec) : option Container :=
  match s with mkSpec _ _ _ c => c end.

(** The fields that [createSystemHierarchy] sets *)
Record SimpleApps : Type := mkSimpleApps {
  baseUrl : option URL;
  appsUrl : option URL;
  cacheUrl : option URL
}.

Record Config : Type := mkConfig {
  apps : string;
  cache : string;
  shared : string
}.

Section WithPlatform.
Context `{Platform}.

Definition reuseShapeTree (parent : Container) (shapeTreeUrl : URL) : result (option URL) :=
  match zeroOrOne (graph parent) None (Some (NamedNode (Prefixes.ns_tree +:+ "shapeTreeRoot")))
                  (Some (NamedNode (href shapeTreeUrl))) with
  | Ok (Some q) =>
      match URL_parse (value (subject q)) with
      | Ok u => Ok (Some u)
      | Throw e => Throw e
      | Blocked => Blocked
      | OutOfFuel => OutOfFuel
      end
  | Ok None => Ok None
  | Throw e => Throw e
  | Blocked => Blocked
  | OutOfFuel => OutOfFuel
  end.

(** [createContainers (spec, parentUrl)].  The callbacks of
    [Promise.all (spec.children.map (...))] are taken in the schedule
    in which each one finishes before the next one starts ([each]); a
    member is recorded under the name that its path has relative to
    [parentUrl], its directory is made relative to the container. *)
Fixpoint createContainers (spec : ContainerSpec) (parentUrl : URL) (st : Storage)
  : result ContainerSpec * Storage :=
  match spec with
  | mkSpec path title children _ =>
      match URL_new path parentUrl with
      | Ok u =>
          match open (VUrl u) (Title title) st with
          | (Ok container, st1) =>
              match children with
              | None => (Ok (mkSpec path title None (Some container)), st1)
              | Some cs =>
                  let each :=
                    fix each (cs : list ContainerSpec) (container : Container) (st : Storage)
                      : result (list ContainerSpec) * Container * Storage :=
                      match cs with
                      | [] => (Ok [], container, st)
                      | child :: cs' =>
                          match createContainers child (url container) st with
                          | (Ok child', st') =>
                              match URL_new (spec_path child) parentUrl with
                              | Ok member =>
                                  match each cs' (addMember (href member) container) st' with
                                  | (Ok l, container', st'') =>
                                      (Ok (child' :: l), container', st'')
                                  | other => other
                                  end
                              | Throw e => (Throw e, container, st')
                              | Blocked => (Blocked, container, st')
                              | OutOfFuel => (OutOfFuel, container, st')
                              end
                          | (Throw e, st') => (Throw e, container, st')
                          | (Blocked, st') => (Blocked, container, st')
                          | (OutOfFuel, st') => (OutOfFuel, container, st')
                          end
                      end in
                  match each cs container st1 with
                  | (Ok cs', container', st2) =>
                      match write container' st2 with
                      | (Ok _, container'', st3) =>
                          (Ok (mkSpec path title (Some cs') (Some container'')), st3)
                      | (Throw e, _, st3) => (Throw e, st3)
                      | (Blocked, _, st3) => (Blocked, st3)
                      | (OutOfFuel, _, st3) => (OutOfFuel, st3)
                      end
                  | (Throw e, _, st2) => (Throw e, st2)
                  | (Blocked, _, st2) => (Blocked, st2)
                  | (OutOfFuel, _, st2) => (OutOfFuel, st2)
                  end
              end
          | (Throw e, st1) => (Throw e, st1)
          | (Blocked, st1) => (Blocked, st1)
          | (OutOfFuel, st1) => (OutOfFuel, st1)
          end
      | Throw e => (Throw e, st)
      | Blocked => (Blocked, st)
      | OutOfFuel => (OutOfFuel, st)
      end
  end.

Definition containerHierarchy (config : Config) : ContainerSpec :=
  mkSpec "/" "DocRoot Container"
    (Some [ mkSpec (apps config +:+ "/") "Applications Container" None None;
            mkSpec (cache config +:+ "/") "Cache Container" None None;
            mkSpec (shared config +:+ "/") "Shared Data Container" None None ])
    None.

(** [createSystemHierarchy (baseUrl, config)]: the fields of the
    ecosystem, the filled-in hierarchy, the storage. *)
Definition createSystemHierarchy (base : URL) (config : Config) (this : SimpleApps)
           (st : Storage) : SimpleApps * result ContainerSpec * Storage :=
  let this1 := mkSimpleApps (Some base) (appsUrl this) (cacheUrl this) in
  match URL_new (apps config +:+ "/") base with
  | Ok a =>
      let this2 := mkSimpleApps (Some base) (Some a) (cacheUrl this) in
      match URL_new (cache config +:+ "/") base with
      | Ok c =>
          let this3 := mkSimpleApps (Some base) (Some a) (Some c) in
          let '(r, st') := createContainers (containerHierarchy config) base st in
          (this3, r, st')
      | Throw e => (this2, Throw e, st)
      | Blocked => (this2, Blocked, st)
      | OutOfFuel => (this2, OutOfFuel, st)
      end
  | Throw e => (this1, Throw e, st)
  | Blocked => (this1, Blocked, st)
  | OutOfFuel => (this1, OutOfFuel, st)
  end.

End WithPlatform.

End Ecosystem.

(** ** Planting ([RemoteResource.fetch] of [lib/shape-tree.js],
       [plantShapeTreeInstance] of [lib/shape-tree-fetch.js]) *)

Module Plant.
Import Storage Container.

(** [contentType.split(/; */)[0]]: the text before the first [';'] *)
Definition mediaType (contentType : string) : string :=
  fst (Node.take_until (Node.is_char ";") contentType).

Section WithFetch.
Context `{Platform}.
(** The fetch that the library was made with: the [content-type]
    header of the response, [None] for [null], and its text *)
Variable fetch : URL -> result (option string * string).
(** [rdfInterface.parseJsonLd] and [rdfInterface.parseTurtle] *)
Variable parseJsonLd : string -> URL -> result Store.
Variable parseTurtle : string -> URL -> result Store.

(** [fetch ()] of a [RemoteResource]: the graph that it sets *)
Definition RemoteResource_fetch (url : URL) : result Store :=
  match fetch url with
  | Ok (Some contentType, text) =>
      let mediaType := mediaType contentType in
      if String.eqb mediaType "application/ld+json" then parseJsonLd text url
      else if String.eqb mediaType "text/turtle" then parseTurtle text url
      else Throw (Error ("unknown media type " +:+ mediaType +:+ " when parsing " +:+ href url))
  | Ok (None, _) => Throw (Error "Cannot read property 'split' of null")
  | Throw e => Throw e
  | Blocked => Blocked
  | OutOfFuel => OutOfFuel
  end.

(** [plantShapeTreeInstance (shapeTreeUrl, postedContainer, location)]:
    the location, the posted container afterwards, the storage *)
Definition plantShapeTreeInstance (fuel : nat) (shapeTreeUrl : URL)
           (postedContainer : Container) (location : URL) (st : Storage)
  : result URL * Container * Storage :=
  match Ecosystem.reuseShapeTree postedContainer shapeTreeUrl with
  | Ok (Some reusedLocation) => (Ok reusedLocation, postedContainer, st)
  | Ok None =>
      match RemoteResource_fetch shapeTreeUrl with
      | Ok g =>
          let shapeTree := ShapeTree.mkRemoteShapeTree shapeTreeUrl "." g in
          match ShapeTree.getRdfRoot shapeTree with
          | Ok root =>
              match ShapeTree.instantiateStatic fuel shapeTree root location "."
                      postedContainer st with
              | (Ok _, c1, st1) =>
                  match write (Ecosystem.indexInstalledShapeTree c1 location shapeTreeUrl) st1 with
                  | (Ok _, c2, st2) => (Ok location, c2, st2)
                  | (Throw e, c2, st2) => (Throw e, c2, st2)
                  | (Blocked, c2, st2) => (Blocked, c2, st2)
                  | (OutOfFuel, c2, st2) => (OutOfFuel, c2, st2)
                  end
              | (Throw e, c1, st1) => (Throw e, c1, st1)
              | (Blocked, c1, st1) => (Blocked, c1, st1)
              | (OutOfFuel, c1, st1) => (OutOfFuel, c1, st1)
              end
          | Throw e => (Throw e, postedContainer, st)
          | Blocked => (Blocked, postedContainer, st)
          | OutOfFuel => (OutOfFuel, postedContainer, st)
          end
      | Throw e => (Throw e, postedContainer, st)
      | Blocked => (Blocked, postedContainer, st)
      | OutOfFuel => (OutOfFuel, postedContainer, st)
      end
  | Throw e => (Throw e, postedContainer, st)
  | Blocked => (Blocked, postedContainer, st)
  | OutOfFuel => (OutOfFuel, postedContainer, st)
  end.

End WithFetch.

End Plant.

(** ** Notions that the further properties are stated with *)

Module Notions.

(** *** Link headers as they are written *)

(** One link: [<target>; rel="rel"] *)
Definition link (l : string * string) : string :=
  "<" +:+ fst l +:+ ">; rel=" +:+ String Links.dquote (snd l +:+ String Links.dquote "").

(** The links of a header, separated by [", "] *)
Definition header (ls : list (string * string)) : string :=
  ShapeTree.join ", " (map link ls).

Fixpoint free_of (bad : ascii -> bool) (s : string) : bool :=
  match s with
  | EmptyString => true
  | String c s' => negb (bad c) && free_of bad s'
  end.

(** A target has no ['>'] and a relation no double quote; neither has a
    line break, and the relation is not [__proto__]. *)
Definition target_ok (t : string) : bool :=
  free_of (fun c => Ascii.eqb c ">" || Links.line_terminator c) t.

Definition rel_ok (r : string) : bool :=
  free_of (fun c => Ascii.eqb c Links.dquote || Links.line_terminator c) r
  && negb (String.eqb r "__proto__").

(** The table of a list of links: a later link replaces an earlier one
    of the same relation. *)
Definition table (ls : list (string * string)) : Links.links :=
  fold_left (fun m l => <[snd l := fst l]> m) ls ∅.

(** What [split] makes of a written header: an empty text before each
    link and after the last one *)
Fixpoint components (ls : list (string * string)) : list string :=
  match ls with
  | [] => [""]
  | l :: ls' => "" :: fst l :: snd l :: components ls'
  end.

(** The middle of the pattern, between the groups, and its end, after
    the second group *)
Definition pattern_middle : list Links.re :=
  [ Links.Chr ">"; Links.Star " "; Links.Chr ";"; Links.Star " ";
    Links.Chr "r"; Links.Chr "e"; Links.Chr "l"; Links.Star " "; Links.Chr "="; Links.Star " ";
    Links.Chr Links.dquote ].

Definition pattern_end : list Links.re :=
  [ Links.Chr Links.dquote; Links.Star " "; Links.Opt ","; Links.Star " " ].

End Notions.

Module Bounds.
Import Storage.

(** How many directories and files a storage has *)
Definition entries (st : Storage) : nat :=
  size (dom (containers st)) + size (dom (resources st)).

(** The identifiers that the first [n] rounds of a name search form *)
Definition tested `{Platform} (parentUrl : URL) (slug : option string) (type : string) (n : nat)
  : list (result URL) :=
  map (fun i => URL_new (FsPromise.candidate slug type i) parentUrl) (seq 0 n).

End Bounds.

Module Grown.
Import Storage.

(** Every directory of [st] is a directory of [st']. *)
Definition grows (st st' : Storage) : Prop :=
  forall k, is_Some (containers st !! k) -> is_Some (containers st' !! k).

(** The identifier of the container that [instantiateStatic] makes for
    the child [t] of a step: the child's label below [rootUrl]; no
    container for a child without a label. *)
Definition child_dir `{Platform} (g : Store) (rootUrl : URL) (t : quad) : option URL :=
  match zeroOrOne g (Some (object t)) ShapeTree.rdfs_label None with
  | Ok (Some labelT) =>
      match URL_new (Path_join (value (object labelT)) "/") rootUrl with
      | Ok nestedUrl => Some nestedUrl
      | _ => None
      end
  | _ => None
  end.

End Grown.

Module Hierarchy.
Import Storage.

(** An identifier that a container can be opened with in [st]: it has
    the form of a container identifier, and no plain file has its name. *)
Definition openable (st : Storage) (u : URL) : Prop :=
  Spec.container_identifier (VUrl u) = true
  /\ is_file st (as_file (pathname u)) = false.

End Hierarchy.

Module Turtle.

(** The constructors splice the title, the instance path and two
    identifiers into Turtle text and have it parsed.  A text between
    double quotes is read as it is written when it has no double quote,
    no backslash and no line break; an identifier between angle
    brackets when it has none of the characters that Turtle keeps out
    of an IRI. *)
Definition verbatim (s : string) : bool :=
  Notions.free_of (fun c => Ascii.eqb c Links.dquote || Ascii.eqb c "\"
                            || Ascii.eqb c "010" || Ascii.eqb c "013") s.

Definition iri (s : string) : bool :=
  Notions.free_of (fun c => (N_of_ascii c <=? 32)%N
                            || existsb (Ascii.eqb c)
                                 ["<"; ">"; Links.dquote; "{"; "}"; "|"; "^"; "`"; "\"]%char) s.

End Turtle.

Module Persisted.

(** The statements of a managed container that is new: the two that the
    storage invents, and the three of [containerText] *)
Definition statements (u : URL) (title : string) (shapeTreeUrl : URL) (path : string)
           (root : URL) : Store :=
  [ triple (NamedNode (href u)) (NamedNode (Prefixes.ns_rdf +:+ "type"))
           (NamedNode (Prefixes.ns_ldp +:+ "BasicContainer"));
    triple (NamedNode (href u)) (NamedNode (Prefixes.ns_dc +:+ "title")) (Literal title);
    triple (NamedNode (href u)) (NamedNode (Prefixes.ns_tree +:+ "shapeTreeRoot"))
           (NamedNode (href shapeTreeUrl));
    triple (NamedNode (href u)) (NamedNode (Prefixes.ns_tree +:+ "shapeTreeInstancePath"))
           (Literal path);
    triple (NamedNode (href u)) (NamedNode (Prefixes.ns_tree +:+ "shapeTreeInstanceRoot"))
           (NamedNode (href root)) ].

End Persisted.

(** ** Data of the further examples *)

Module Demo.
Import Storage Container.

(** Two callers wait for a lock that nobody holds. *)
Definition queue : Mutex.clients :=
  Mutex.mkClients
    (Mutex.mkMutex (Spec.chain 2) 2 2 ∅)
    [(0, Mutex.ThenValue (Spec.chain 0)); (1, Mutex.ThenValue (Spec.chain 1))]
    [] [].

(** The links of a request that plants a shape tree in a container *)
Definition sent : list (string * string) :=
  [ (Prefixes.ns_ldp +:+ "Container", "type");
    ("http://shapes.example/tree#root", "shapeTree") ].

(** The storage of the examples, with a file [/Data/note] *)
Definition notes : Storage :=
  mkStorage (containers Example.st0) {[ "/Data/note" := Js.of_string "first" ]}.

(** A shape tree with two static containers, [repos] and [users] *)
Definition static_graph : Store :=
  [ triple Example.root_node (NamedNode (Prefixes.ns_tree +:+ "contents")) Example.repos_node;
    triple Example.root_node (NamedNode (Prefixes.ns_tree +:+ "contents")) Example.users_node;
    triple Example.repos_node (NamedNode (Prefixes.ns_rdfs +:+ "label")) (Literal "repos");
    triple Example.users_node (NamedNode (Prefixes.ns_rdfs +:+ "label")) (Literal "users") ].

Definition static_tree : ShapeTree.RemoteShapeTree :=
  ShapeTree.mkRemoteShapeTree Example.shapes "." static_graph.

(** A network that serves that shape tree as Turtle *)
Definition fetch (u : URL) : result (option string * string) :=
  Ok (Some "text/turtle; charset=utf-8", "the text of the shape tree").

Definition parseTurtle (text : string) (base : URL) : result Store := Ok static_graph.

Definition parseJsonLd (text : string) (base : URL) : result Store :=
  Throw (Error "not JSON-LD").

(** A storage that has the document root only, and the names of the
    system hierarchy *)
Definition bare : Storage := mkStorage {[ "/" := [] ]} ∅.

Definition names : Ecosystem.Config := Ecosystem.mkConfig "Apps" "Cache" "Data".

Definition nowhere : Ecosystem.SimpleApps := Ecosystem.mkSimpleApps None None None.

(** The configuration of a file-system storage, and the sizes that
    [lstat] reports: the length of a file, nothing for a directory *)
Definition files : FsPromise.Config := FsPromise.mkConfig "/srv" "index.ttl" ".meta".

Definition size_of (p : string) (st : Storage) : N :=
  match resources st !! p with
  | Some body => N.of_nat (length body)
  | None => 0%N
  end.

End Demo.

(** ** [instantiateStatic] with its callbacks interleaved

    [instantiateStatic] awaits [Promise.all] of one callback per child
    of the step.  Every callback is started before any of them resumes;
    from then on the calls that they made take turns, one storage
    operation at a time, in an order that the promise jobs and the
    storage decide.  [Promise.all] rejects with the rejection that comes
    first in time, while the other callbacks go on.  [parent.write ()]
    is not awaited: it takes its ticket of the parent's lock at once and
    writes when the ticket is granted.

    A state holds the storage, the container that the caller passed as
    [parent], the calls of [instantiateStatic] that were made (each with
    the container that it constructed, which is the [parent] of the
    calls nested in it), and the calls that nobody awaits.  A schedule
    is a list of choices: which call resumes next, or which un-awaited
    call completes. *)

Module Async.
Import Storage Container.

(** Where a call of [instantiateStatic] stands *)
Inductive phase : Type :=
| Constructed                    (* the constructor has returned; [loadOrCreate] of
                                    [Container] is at its [await] *)
| Created                        (* that [loadOrCreate] has resolved; the one of
                                    [ManagedContainer] is at its [await] *)
| Opened                         (* [ready] has resolved *)
| Awaiting                       (* at [await Promise.all (...)] *)
| Caught (e : error)             (* [Promise.all] has rejected with [e] *)
| Removing (e : error) (t : nat) (willUnlock : Mutex.promise)
                                 (* in the [catch], at the [await] of [ret.remove ()] *)
| Removed (e : error) (r : result unit)
                                 (* [ret.remove ()] has settled *)
| Resolved                       (* the call has returned [ret] *)
| Rejected (e : error)           (* the call has thrown [e] *)
| Never.                         (* the call does not settle *)

(** What a callback of [map] has become: it returned [undefined], it
    threw before [instantiateStatic] had returned a promise ([late]: in
    the constructor inside [instantiateStatic], whose rejection reaches
    [Promise.all] one promise job after that of a throw in the callback
    itself), or it awaits the call number [i]. *)
Inductive kid : Type :=
| Absent
| Failed (late : bool) (e : error)
| Started (i : nat)
| Hung.

Record activation : Type := mkActivation {
  stepNode : term;
  rootUrl : URL;
  pathWithinShapeTree : string;
  parent : option nat;           (* the call whose container is [parent]; [None]: the
                                    caller's container *)
  at_ : phase;
  ret : Container;
  kids : list kid
}.

(** A call that nobody awaits: the [loadOrCreate] of a container whose
    constructor threw after it had started it, and [parent.write ()]. *)
Inductive detached : Type :=
| Load (c : Container) (title : string)
| Write (owner : option nat) (t : nat) (willUnlock : Mutex.promise).

Record state : Type := mkState {
  storage : Storage;
  caller : Container;
  top : kid;                     (* the call that the caller made *)
  calls : list activation;
  pending : list detached
}.

Inductive choice : Type :=
| Resume (i : nat)               (* the call number [i] resumes from its [await] *)
| Settle (j : nat).              (* the un-awaited call number [j] completes *)

Definition with_phase (p : phase) (a : activation) : activation :=
  mkActivation (stepNode a) (rootUrl a) (pathWithinShapeTree a) (parent a) p (ret a) (kids a).

Definition with_ret (c : Container) (a : activation) : activation :=
  mkActivation (stepNode a) (rootUrl a) (pathWithinShapeTree a) (parent a) (at_ a) c (kids a).

Definition with_kids (ks : list kid) (a : activation) : activation :=
  mkActivation (stepNode a) (rootUrl a) (pathWithinShapeTree a) (parent a) (at_ a) (ret a) ks.

Definition set_storage (st : Storage) (s : state) : state :=
  mkState st (caller s) (top s) (calls s) (pending s).

Definition set_call (i : nat) (a : activation) (s : state) : state :=
  mkState (storage s) (caller s) (top s) (<[i := a]> (calls s)) (pending s).

Definition set_pending (l : list detached) (s : state) : state :=
  mkState (storage s) (caller s) (top s) (calls s) l.

(** The container that a call has as [parent] *)
Definition target (p : option nat) (s : state) : option Container :=
  match p with
  | None => Some (caller s)
  | Some j => ret <$> calls s !! j
  end.

Definition on_target (p : option nat) (f : Container -> Container) (s : state) : state :=
  match p with
  | None => mkState (storage s) (f (caller s)) (top s) (calls s) (pending s)
  | Some j =>
      match calls s !! j with
      | Some b => set_call j (with_ret (f (ret b)) b) s
      | None => s
      end
  end.

(** The rejection of a call reaches the [Promise.all] of the call that
    awaits it: the first one to come makes it reject. *)
Definition notify (p : option nat) (e : error) (s : state) : state :=
  match p with
  | None => s
  | Some j =>
      match calls s !! j with
      | Some b =>
          match at_ b with
          | Awaiting => set_call j (with_phase (Caught e) b) s
          | _ => s
          end
      | None => s
      end
  end.

(** The call number [i] rejects with [e]. *)
Definition reject (i : nat) (a : activation) (e : error) (s : state) : state :=
  notify (parent a) e (set_call i (with_phase (Rejected e) a) s).

Definition title (pathWithinShapeTree : string) : string :=
  "index for nested resource " +:+ pathWithinShapeTree.

(** The rejection that [Promise.all] gets first from callbacks that had
    thrown when it was called *)
Definition is_failed (late : bool) (k : kid) : bool :=
  match k with
  | Failed l _ => Bool.eqb l late
  | _ => false
  end.

Definition first_rejection (ks : list kid) : option error :=
  match List.find (is_failed false) ks with
  | Some (Failed _ e) => Some e
  | _ =>
      match List.find (is_failed true) ks with
      | Some (Failed _ e) => Some e
      | _ => None
      end
  end.

(** What the callbacks have resolved with, once all of them have *)
Definition result_of (l : list activation) (k : kid) : option (option URL) :=
  match k with
  | Absent => Some None
  | Started j =>
      match l !! j with
      | Some b =>
          match at_ b with
          | Resolved => Some (Some (url (ret b)))
          | _ => None
          end
      | None => None
      end
  | _ => None
  end.

Definition results (l : list activation) (ks : list kid) : option (list (option URL)) :=
  mapM (result_of l) ks.

Section WithShapeTree.
Context `{Platform}.
(** The shape tree [this]: every step has its identifier and its graph. *)
Variable shapeTree : ShapeTree.RemoteShapeTree.

(** A call of [instantiateStatic] up to its first [await]: the
    constructor of [ManagedContainer]. *)
Inductive begun : Type :=
| Begins (a : activation)
| Throws (e : error) (orphans : list detached)
| Hangs.

Definition begin (stepNode : term) (rootUrl : URL) (pathWithinShapeTree : string)
           (parent : option nat) : begun :=
  match Container.new (VUrl rootUrl) (Title (title pathWithinShapeTree)) with
  | Ok c0 =>
      let c := set_managed c0 in
      match URL_new (Path_relative pathWithinShapeTree "") (ShapeTree.url shapeTree) with
      | Ok root =>
          Begins (mkActivation stepNode rootUrl pathWithinShapeTree parent Constructed
                    (set_shapeTreeInstanceRoot (Some root)
                       (set_shapeTreeInstancePath (Some pathWithinShapeTree) c))
                    [])
      | Throw e => Throws e [Load c (title pathWithinShapeTree)]
      | _ => Hangs
      end
  | Throw e => Throws e []
  | _ => Hangs
  end.

(** The callbacks of [map], each up to its first [await]: what they have
    become, the calls that they made (numbered from [next]) and the
    calls that nobody awaits. *)
Fixpoint callbacks (i : nat) (a : activation) (next : nat) (ts : list quad)
  : list kid * list activation * list detached :=
  match ts with
  | [] => ([], [], [])
  | t :: ts' =>
      let nested := object t in
      let more (k : kid) (started : list activation) (orphans : list detached) :=
        let '(ks, l, ds) := callbacks i a (next + length started) ts' in
        (k :: ks, started ++ l, orphans ++ ds) in
      match zeroOrOne (ShapeTree.graph shapeTree) (Some nested) ShapeTree.rdfs_label None with
      | Ok None => more Absent [] []
      | Ok (Some labelT) =>
          let toAdd := value (object labelT) in
          match URL_new (Path_join toAdd "/") (rootUrl a) with
          | Ok nestedUrl =>
              match begin nested nestedUrl (Path_join (pathWithinShapeTree a) toAdd)
                          (Some i) with
              | Begins b => more (Started next) [b] []
              | Throws e orphans => more (Failed true e) [] orphans
              | Hangs => more Hung [] []
              end
          | Throw e => more (Failed false e) [] []
          | _ => more Hung [] []
          end
      | Throw e => more (Failed false e) [] []
      | _ => more Hung [] []
      end
  end.

(** The call number [i] resumes from its [await]. *)
Definition resume (i : nat) (s : state) : state :=
  match calls s !! i with
  | None => s
  | Some a =>
      match at_ a with
      | Constructed =>
          match loadOrCreate (title (pathWithinShapeTree a)) (ret a) (storage s) with
          | (Ok c, st) => set_call i (with_phase Created (with_ret c a)) (set_storage st s)
          | (Throw e, st) => reject i a e (set_storage st s)
          | _ => s
          end
      | Created =>
          match managed_loadOrCreate (ShapeTree.url shapeTree) (pathWithinShapeTree a)
                  (ret a) (storage s) with
          | (Ok c, st) => set_call i (with_phase Opened (with_ret c a)) (set_storage st s)
          | (Throw e, st) => reject i a e (set_storage st s)
          | _ => s
          end
      | Opened =>
          let s1 := on_target (parent a) (addMember (href (url (ret a)))) s in
          let '(ks, started, orphans) :=
            callbacks i a (length (calls s))
              (getQuads (ShapeTree.graph shapeTree) (Some (stepNode a))
                        (ShapeTree.tree "contents") None) in
          let p := match first_rejection ks with
                   | Some e => Caught e
                   | None => Awaiting
                   end in
          mkState (storage s1) (caller s1) (top s1)
                  (<[i := with_phase p (with_kids ks a)]> (calls s1) ++ started)
                  (pending s1 ++ orphans)
      | Awaiting =>
          match results (calls s) (kids a), target (parent a) s with
          | Some subs, Some container =>
              let '(m, (t, willUnlock)) := Mutex.lock (_mutex container) in
              let s1 := on_target (parent a) (set_mutex m) s in
              let s2 := set_pending (pending s1 ++ [Write (parent a) t willUnlock]) s1 in
              match calls s2 !! i with
              | Some a' =>
                  set_call i (with_phase Resolved (with_ret (addSubdirs subs (ret a')) a')) s2
              | None => s2
              end
          | _, _ => s
          end
      | Caught e =>
          let '(m, (t, willUnlock)) := Mutex.lock (_mutex (ret a)) in
          set_call i (with_phase (Removing e t willUnlock) (with_ret (set_mutex m (ret a)) a)) s
      | Removing e t willUnlock =>
          if Mutex.fulfilled (Mutex.released (_mutex (ret a))) willUnlock then
            let '(r, st) := removeContainer (url (ret a)) (storage s) in
            set_call i
              (with_phase (Removed e r)
                 (with_ret (set_mutex (Mutex.unlockNext t (_mutex (ret a))) (ret a)) a))
              (set_storage st s)
          else s
      | Removed e r =>
          match r with
          | Ok _ =>
              let s1 := on_target (parent a) (removeMember (href (url (ret a)))) s in
              reject i a (ShapeTree.wrap (rootUrl a) e) s1
          | Throw e' => reject i a e' s
          | _ => set_call i (with_phase Never a) s
          end
      | Resolved | Rejected _ | Never => s
      end
  end.

(** The un-awaited call number [j] completes. *)
Definition settle (j : nat) (s : state) : state :=
  match pending s !! j with
  | None => s
  | Some (Load c t) =>
      set_pending (delete j (pending s)) (set_storage (snd (loadOrCreate t c (storage s))) s)
  | Some (Write owner t willUnlock) =>
      match target owner s with
      | Some container =>
          if Mutex.fulfilled (Mutex.released (_mutex container)) willUnlock then
            let st := snd (writeContainer (graph container) (url container) (storage s)) in
            set_pending (delete j (pending s))
              (on_target owner (fun c => set_mutex (Mutex.unlockNext t (_mutex c)) c)
                 (set_storage st s))
          else s
      | None => s
      end
  end.

Definition step (s : state) (c : choice) : state :=
  match c with
  | Resume i => resume i s
  | Settle j => settle j s
  end.

Definition run (schedule : list choice) (s : state) : state := fold_left step schedule s.

(** [instantiateStatic (stepNode, rootUrl, pathWithinShapeTree, parent)]
    is called. *)
Definition start (stepNode : term) (rootUrl : URL) (pathWithinShapeTree : string)
           (parent : Container) (st : Storage) : state :=
  match begin stepNode rootUrl pathWithinShapeTree None with
  | Begins a => mkState st parent (Started 0) [a] []
  | Throws e orphans => mkState st parent (Failed true e) [] orphans
  | Hangs => mkState st parent Hung [] []
  end.

End WithShapeTree.

(** How the caller's [await] of the call has settled, if it has *)
Definition outcome (s : state) : option (result Container) :=
  match top s with
  | Failed _ e => Some (Throw e)
  | Started i =>
      match calls s !! i with
      | Some a =>
          match at_ a with
          | Resolved => Some (Ok (ret a))
          | Rejected e => Some (Throw e)
          | _ => None
          end
      | None => None
      end
  | _ => None
  end.

(** The rejection that the [Promise.all] of the caller's call has got,
    while its [catch] has not started *)
Definition caught (s : state) : option error :=
  match calls s !! 0 with
  | Some a =>
      match at_ a with
      | Caught e => Some e
      | _ => None
      end
  | None => None
  end.

Definition settled (p : phase) : bool :=
  match p with
  | Resolved | Rejected _ => true
  | _ => false
  end.

(** Nothing else is under way: every call but the caller's has settled,
    and the calls that nobody awaits are writes of the new container,
    which wait in its lock. *)
Definition quiet (s : state) : bool :=
  forallb (fun a => settled (at_ a)) (tail (calls s))
  && forallb (fun d => match d with
                       | Write (Some 0) _ _ => true
                       | _ => false
                       end) (pending s).

End Async.

(** ** What holds while the callbacks take turns *)

Module Rollback.
Import Storage Container Async.

(** The tickets of the new container's lock that wait in the calls
    that nobody awaits *)
Definition waits (l : list detached) (t : nat) (p : Mutex.promise) : Prop :=
  Write (Some 0) t p ∈ l.

(** The writes of the new container wait in the order of their
    tickets. *)
Definition in_order (l : list detached) : Prop :=
  forall i1 i2 t1 t2 p1 p2,
    i1 < i2 -> l !! i1 = Some (Write (Some 0) t1 p1) -> l !! i2 = Some (Write (Some 0) t2 p2) ->
    t1 < t2.

(** The lock of the new container: every ticket has released, or waits
    in a write that nobody awaits, or is the ticket [own] of
    [ret.remove ()], which was taken after those of the writes. *)
Definition lock_ok (m : Mutex.Mutex) (l : list detached) (own : option nat) : Prop :=
  Mutex._locking m = Spec.chain (Mutex.issued m)
  /\ (forall j, j < Mutex.issued m ->
        j ∈ Mutex.released m \/ (exists p, waits l j p) \/ own = Some j)
  /\ (forall t p, waits l t p ->
        p = Mutex.ThenValue (Spec.chain t) /\ t < Mutex.issued m
        /\ forall o, own = Some o -> t < o)
  /\ (forall o, own = Some o -> o < Mutex.issued m)
  /\ in_order l.

Definition early (p : phase) : bool :=
  match p with
  | Constructed | Created | Opened => true
  | _ => false
  end.

(** The phases in which the new container has to be there: from
    [ready] to the removal *)
Definition held (p : phase) : bool :=
  match p with
  | Opened | Awaiting | Caught _ | Removing _ _ _ => true
  | _ => false
  end.

(** The phases in which the caller's container lists the new one *)
Definition listing (p : phase) : bool :=
  match p with
  | Awaiting | Caught _ | Removing _ _ _ | Removed _ _ => true
  | _ => false
  end.

(** The phases before the [catch] *)
Definition before_catch (p : phase) : bool :=
  match p with
  | Constructed | Created | Opened | Awaiting | Caught _ => true
  | _ => false
  end.

(** Two records of one call: the call is the same and its container
    has the same identifier. *)
Definition similar (a a' : activation) : Prop :=
  stepNode a' = stepNode a
  /\ rootUrl a' = rootUrl a
  /\ pathWithinShapeTree a' = pathWithinShapeTree a
  /\ parent a' = parent a
  /\ url (ret a') = url (ret a).

Section Call.
(** The call of the caller: the graph of the shape tree, the
    identifier, the caller's container and the storage at the call *)
Variable g : Store.
Variable rootUrl0 : URL.
Variable parent0 : Container.
Variable st0 : Storage.

(** What the storage has outside the subtree of [rootUrl0] is as it
    was at the call. *)
Definition outside_kept (st : Storage) : Prop :=
  forall k, Str.startsWith k (pathname rootUrl0) = false ->
    containers st !! k = containers st0 !! k /\ resources st !! k = resources st0 !! k.

(** The storage has nothing at [rootUrl0] nor below it. *)
Definition inside_empty (st : Storage) : Prop :=
  forall k, Str.startsWith k (pathname rootUrl0) = true ->
    containers st !! k = None /\ resources st !! k = None.

(** The statement that [rootUrl0] is a member of the caller's
    container *)
Definition member : quad := membership parent0 (href rootUrl0).

Section WithPlatform.
Context `{Platform}.

(** Where a call is: the caller's call at [rootUrl0], every other call
    strictly below it; and the identifiers nested in a call lie
    strictly below its own, to any depth. *)
Definition placed (i : nat) (a : activation) : Prop :=
  url (ret a) = rootUrl a
  /\ (forall n, Spec.well_nested n g (stepNode a) (rootUrl a) = true)
  /\ match i with
     | O => rootUrl a = rootUrl0 /\ parent a = None
     | S _ => Spec.below rootUrl0 (rootUrl a) = true /\ parent a <> None
     end.

(** A call that nobody awaits works below [rootUrl0], but for the write
    of the caller's container, which is made when the caller's call
    returns. *)
Definition detached_ok (root : phase) (d : detached) : Prop :=
  match d with
  | Load c _ => Spec.below rootUrl0 (url c) = true
  | Write None _ _ => root = Resolved
  | Write (Some _) _ _ => True
  end.

(** What holds at any time of any schedule *)
Record invariant (s : state) : Prop := mkInvariant {
  inv_top : top s = Started 0;
  inv_url : url (caller s) = url parent0;
  inv_calls : forall i a, calls s !! i = Some a -> placed i a;
  inv_root : exists a0,
    calls s !! 0 = Some a0
    /\ Forall (detached_ok (at_ a0)) (pending s)
    /\ (at_ a0 <> Resolved -> outside_kept (storage s))
    /\ (early (at_ a0) = true ->
          length (calls s) = 1 /\ pending s = [] /\ graph (caller s) = graph parent0)
    /\ (at_ a0 = Created ->
          newDir (ret a0) = Some true
          \/ (newDir (ret a0) = Some false
              /\ is_Some (containers (storage s) !! pathname rootUrl0)))
    /\ (held (at_ a0) = true -> is_Some (containers (storage s) !! pathname rootUrl0))
    /\ (listing (at_ a0) = true -> graph (caller s) = addQuad member (graph parent0))
    /\ (before_catch (at_ a0) = true -> lock_ok (_mutex (ret a0)) (pending s) None)
}.

(** What holds from the rejection of [Promise.all] with [e] on, when
    nothing else is under way *)
Record rolling (e : error) (s : state) : Prop := mkRolling {
  roll_quiet : quiet s = true;
  roll_top : top s = Started 0;
  roll_url : url (caller s) = url parent0;
  roll_outside : outside_kept (storage s);
  roll_root : exists a0,
    calls s !! 0 = Some a0
    /\ url (ret a0) = rootUrl0 /\ rootUrl a0 = rootUrl0 /\ parent a0 = None
    /\ match at_ a0 with
       | Caught e' =>
           e' = e
           /\ is_Some (containers (storage s) !! pathname rootUrl0)
           /\ graph (caller s) = addQuad member (graph parent0)
           /\ lock_ok (_mutex (ret a0)) (pending s) None
       | Removing e' t p =>
           e' = e
           /\ is_Some (containers (storage s) !! pathname rootUrl0)
           /\ graph (caller s) = addQuad member (graph parent0)
           /\ p = Mutex.ThenValue (Spec.chain t)
           /\ (t ∉ Mutex.released (_mutex (ret a0)))
           /\ lock_ok (_mutex (ret a0)) (pending s) (Some t)
       | Removed e' r =>
           e' = e /\ r = Ok tt
           /\ inside_empty (storage s)
           /\ graph (caller s) = addQuad member (graph parent0)
           /\ lock_ok (_mutex (ret a0)) (pending s) None
       | Rejected x =>
           x = ShapeTree.wrap rootUrl0 e
           /\ inside_empty (storage s)
           /\ graph (caller s) = removeQuad member (addQuad member (graph parent0))
           /\ lock_ok (_mutex (ret a0)) (pending s) None
       | _ => False
       end
}.

(** How far the rollback is from the rejection of the call: the writes
    that wait, then the three steps of the [catch] *)
Definition distance (s : state) : nat :=
  length (pending s)
  + match calls s !! 0 with
    | Some a0 =>
        match at_ a0 with
        | Caught _ => 3
        | Removing _ _ _ => 2
        | Removed _ _ => 1
        | _ => 0
        end
    | None => 0
    end.

End WithPlatform.
End Call.

(** A schedule in which the caller's call and the writes that wait take
    [n] turns each *)
Definition rounds (n : nat) : list choice := concat (replicate n [Settle 0; Resume 0]).

End Rollback.

(** * Properties *)

(** ** Strings and graphs *)

#[local] Arguments Ascii.eqb : simpl never.
#[local] Arguments String.eqb : simpl never.

Lemma startsWith_refl s : Str.startsWith s s = true.
Proof.
  induction s as [|a s IH]; simpl; [done|].
  by rewrite Ascii.eqb_refl.
Qed.

Lemma startsWith_trans s p q :
  Str.startsWith s p = true -> Str.startsWith p q = true -> Str.startsWith s q = true.
Proof.
  revert s p. induction q as [|c q IH]; intros s p Hsp Hpq; [by destruct s|].
  destruct p as [|b p]; [done|]. simpl in Hpq.
  destruct (Ascii.eqb c b) eqn:Hcb; [|done]. apply Ascii.eqb_eq in Hcb as ->.
  destruct s as [|a s]; [done|]. simpl in Hsp |- *.
  destruct (Ascii.eqb b a); [|done]. eauto.
Qed.

Lemma startsWith_length s p :
  Str.startsWith s p = true -> String.length p <= String.length s.
Proof.
  revert s. induction p as [|b p IH]; intros [|a s] Hs; simpl in *; try done; try lia.
  destruct (Ascii.eqb b a); [|done]. apply IH in Hs. lia.
Qed.

Lemma startsWith_antisym s p :
  Str.startsWith s p = true -> Str.startsWith p s = true -> s = p.
Proof.
  revert s. induction p as [|b p IH]; intros [|a s] H1 H2; simpl in *; try done.
  destruct (Ascii.eqb b a) eqn:Hba; [|done]. apply Ascii.eqb_eq in Hba as ->.
  rewrite Ascii.eqb_refl in H2. f_equal. by apply IH.
Qed.

(** One trailing separator, in the words of the constructor's two tests *)
Lemma one_trailing_slash s :
  (Spec.trailing_slashes s =? 1)%nat
  = Str.endsWith s "/" && negb (Str.endsWith s "//").
Proof.
  unfold Spec.trailing_slashes, Str.endsWith.
  change (String.rev "/") with "/". change (String.rev "//") with "//".
  destruct (String.rev s) as [|a [|b r]]; simpl; [done| |].
  - rewrite (Ascii.eqb_sym "/" a). destruct (Ascii.eqb a "/"); reflexivity.
  - rewrite (Ascii.eqb_sym "/" a), (Ascii.eqb_sym "/" b).
    destruct (Ascii.eqb a "/"); [|reflexivity].
    destruct (Ascii.eqb b "/"); [|reflexivity]. by destruct r.
Qed.

Lemma removeQuad_absent q (g : Store) : q ∉ g -> removeQuad q g = g.
Proof.
  unfold removeQuad. induction g as [|x g IH]; intros Hq; [done|]. simpl.
  apply not_elem_of_cons in Hq as [Hx Hg].
  rewrite bool_decide_eq_false_2 by congruence. simpl. by rewrite IH.
Qed.

Lemma removeQuad_app q (g1 g2 : Store) :
  removeQuad q (g1 ++ g2) = removeQuad q g1 ++ removeQuad q g2.
Proof. unfold removeQuad. apply List.filter_app. Qed.

Lemma elem_of_removeQuad q x (g : Store) : x ∈ removeQuad q g <-> x ∈ g ∧ x ≠ q.
Proof.
  unfold removeQuad. rewrite !list_elem_of_In, filter_In, negb_true_iff.
  by rewrite bool_decide_eq_false.
Qed.

Lemma elem_of_addQuad q x (g : Store) : x ∈ addQuad q g <-> x ∈ g ∨ x = q.
Proof.
  unfold addQuad, has. case_bool_decide as Hq.
  - split; [by left|]. intros [?| ->]; done.
  - rewrite elem_of_app, list_elem_of_singleton. done.
Qed.

(** Adding then removing a quad removes it, whether it was there or not. *)
Lemma removeQuad_addQuad q (g : Store) : removeQuad q (addQuad q g) = removeQuad q g.
Proof.
  unfold addQuad, has. case_bool_decide; [done|].
  rewrite removeQuad_app. unfold removeQuad at 2. simpl.
  rewrite bool_decide_eq_true_2 by done. simpl. by rewrite app_nil_r.
Qed.

(** ** Containers *)

(** C9.  A container can be constructed exactly from a [URL] whose path
    ends with one ['/'], not with none and not with two or more.  With
    any other identifier the constructor throws an [Error] about the
    identifier, and opening the container throws that error and leaves
    the storage as it was. *)
Theorem container_identifier_format (u : js_value) (title : Container.title_arg)
        (st : Storage.Storage) :
  if Spec.container_identifier u
  then exists c, Container.new u title = Ok c /\ VUrl (Container.url c) = u
  else exists msg, Container.new u title = Throw (Error msg)
                   /\ Container.open u title st = (Throw (Error msg), st).
Proof.
  unfold Container.open, Container.new, Spec.container_identifier.
  destruct u as [url|s|]; [|by eexists..].
  rewrite one_trailing_slash.
  destruct (Str.endsWith (pathname url) "/"); simpl; [|by eexists].
  destruct (Str.endsWith (pathname url) "//"); simpl; by eexists.
Qed.

(** C3, as amended.  For a member whose containment triple is not yet in
    the statement-set, [addMember] then [removeMember] gives the
    statement-set back. *)
Theorem addMember_removeMember_fresh (c : Container.Container) (m : string) :
  Container.membership c m ∉ Container.graph c ->
  Container.graph (Container.removeMember m (Container.addMember m c)) = Container.graph c.
Proof.
  intros Hfresh. unfold Container.removeMember, Container.addMember. simpl.
  change (Container.membership (Container.set_graph _ c) m) with (Container.membership c m).
  rewrite removeQuad_addQuad. by apply removeQuad_absent.
Qed.

Lemma addMember_removeMember_fresh_witness :
  Container.graph (Container.removeMember "http://localhost/Data/b/"
                     (Container.addMember "http://localhost/Data/b/" Example.data))
  = Container.graph Example.data.
Proof.
  apply (addMember_removeMember_fresh Example.data "http://localhost/Data/b/").
  vm_compute. intros Hin. apply list_elem_of_In in Hin. simpl in Hin.
  destruct Hin as [Heq|[]]. discriminate Heq.
Defined.

(** In general the pair removes the triple: a member that was already
    listed is no longer. *)
Lemma addMember_removeMember (c : Container.Container) (m : string) :
  Container.graph (Container.removeMember m (Container.addMember m c))
  = removeQuad (Container.membership c m) (Container.graph c).
Proof.
  unfold Container.removeMember, Container.addMember. simpl.
  change (Container.membership (Container.set_graph _ c) m) with (Container.membership c m).
  apply removeQuad_addQuad.
Qed.

Lemma removeQuad_same q (g : Store) : removeQuad q g = g <-> q ∉ g.
Proof.
  split; [|apply removeQuad_absent].
  intros Hg Hin. rewrite <- Hg in Hin. apply elem_of_removeQuad in Hin as [_ ?]. done.
Qed.

(** The statement-set comes back exactly when the member was not listed. *)
Lemma addMember_removeMember_iff (c : Container.Container) (m : string) :
  Container.graph (Container.removeMember m (Container.addMember m c)) = Container.graph c
  <-> Container.membership c m ∉ Container.graph c.
Proof. rewrite addMember_removeMember. apply removeQuad_same. Qed.

(** C3 as stated fails for a member that the container already lists. *)
Lemma addMember_removeMember_listed :
  Container.graph (Container.removeMember "http://localhost/Data/a/"
                     (Container.addMember "http://localhost/Data/a/" Example.data))
  <> Container.graph Example.data.
Proof. vm_compute. discriminate. Qed.

(** ** The cache name is not injective *)

(** C10.  Two different URLs have the same cache name; once the first
    has been fetched and cached, fetching the second returns the cached
    headers and body of the first, although the network would answer
    something else, and the network is not asked. *)
Theorem cacheName_collision :
  exists u1 u2 : URL,
    u1 <> u2
    /\ Cache.cacheName u1 = Cache.cacheName u2
    /\ exists r1 w1 r2 w2 other,
        Cache.cachingFetch Example.network Example.cacheRoot u1 Example.w0 = (Ok r1, w1)
        /\ Cache.fetched w1 = 1
        /\ Cache.cachingFetch Example.network Example.cacheRoot u2 w1 = (Ok r2, w2)
        /\ Cache.fetched w2 = Cache.fetched w1
        /\ Cache.headers r2 = Cache.headers r1
        /\ Cache._text r2 = Cache._text r1
        /\ Example.network u2 = Ok other
        /\ Cache.net_text other <> Cache._text r2.
Proof.
  exists Example.u1, Example.u2.
  split; [discriminate|]. split; [reflexivity|].
  destruct (Cache.cachingFetch Example.network Example.cacheRoot Example.u1 Example.w0)
    as [r1 w1] eqn:E1.
  vm_compute in E1. injection E1 as <- <-.
  do 5 eexists. split; [reflexivity|]. split; [reflexivity|].
  split; [vm_compute; reflexivity|].
  split; [reflexivity|]. split; [reflexivity|]. split; [reflexivity|].
  split; [reflexivity|]. vm_compute. discriminate.
Qed.

(** ** A new managed container does not record its schema root *)

(** In a directory that the constructor creates, the field
    [shapeTreeUrl] is never assigned. *)
Lemma managed_open_new_shapeTreeUrl `{Platform} u t stu path st c st' :
  Container.managed_open (VUrl u) (Container.Title t) (VUrl stu) path st = (Ok c, st') ->
  Container.newDir c = Some true ->
  Container.shapeTreeUrl c = None.
Proof.
  unfold Container.managed_open.
  destruct (Container.new (VUrl u) (Container.Title t)) as [c0| | |] eqn:Hnew; try by inversion 1.
  assert (Container.shapeTreeUrl c0 = None) as Hc0.
  { unfold Container.new in Hnew. repeat case_match; by simplify_eq. }
  destruct (Container.loadOrCreate t (Container.set_managed c0) st) as [r st1] eqn:Hload.
  destruct (URL_new _ stu) as [root| | |]; try by inversion 1.
  destruct r as [c1| | |]; try by inversion 1.
  assert (Container.shapeTreeUrl c1 = None) as Hc1.
  { unfold Container.loadOrCreate in Hload. repeat case_match; by simplify_eq. }
  unfold Container.managed_loadOrCreate. intros Hopen Hnd.
  destruct (Container.acquire _) as [[m tk]|]; [|by inversion Hopen].
  simpl in Hopen. destruct (Container.newDir c1) as [[]|] eqn:Hnd1.
  - repeat case_match; by simplify_eq.
  - unfold Container.parseShapeTreeInstance in Hopen.
    repeat case_match; simplify_eq; simpl in Hnd; congruence.
  - unfold Container.parseShapeTreeInstance in Hopen.
    repeat case_match; simplify_eq; simpl in Hnd; congruence.
Qed.

(** C7 at a new container: [/Data/proj/] is planted with the schema
    [http://shapes.example/tree#root] at the instance path ["."].  The
    container is ready, its instance path and instance root are set, its
    statements name the schema root, and its field [shapeTreeUrl] is not
    set. *)
Theorem managed_container_new_unbound :
  exists c st',
    Container.managed_open (H := Node.platform) (VUrl (Example.at_ "/Data/proj/"))
      (Container.Title "proj") (VUrl Example.shapes) "." Example.st0 = (Ok c, st')
    /\ Container.newDir c = Some true
    /\ Container.shapeTreeInstancePath c = Some "."
    /\ Container.shapeTreeInstanceRoot c = Some (mkURL "http://shapes.example" "/tree" "" "")
    /\ triple (NamedNode "http://localhost/Data/proj/")
              (NamedNode (Prefixes.ns_tree +:+ "shapeTreeRoot"))
              (NamedNode "http://shapes.example/tree#root") ∈ Container.graph c
    /\ Container.shapeTreeUrl c = None.
Proof.
  destruct (Container.managed_open (H := Node.platform) (VUrl (Example.at_ "/Data/proj/"))
              (Container.Title "proj") (VUrl Example.shapes) "." Example.st0)
    as [r st'] eqn:E.
  vm_compute in E. injection E as <- <-.
  do 2 eexists. split; [reflexivity|]. repeat split.
  vm_compute. apply list_elem_of_In. simpl. tauto.
Qed.

(** ** The existence checks of the dispatcher *)

(** A promise is an object: [throwIfNotFound] never throws for it. *)
Lemma throwIfNotFound_promise p url m :
  Dispatch.throwIfNotFound (Dispatch.Promise p) url m = None.
Proof. reflexivity. Qed.

(** [POST] to something that the storage does not have is answered 404. *)
Lemma post_missing `{Platform} NoShapeTrees managed_status nextFetch post_rest put_managed url st :
  Dispatch.rstatOrNull url st = None ->
  Dispatch.status
    (fst (Dispatch.shapeTreeFetch NoShapeTrees managed_status nextFetch post_rest put_managed
            url Dispatch.POST st)) = 404%N
  /\ snd (Dispatch.shapeTreeFetch NoShapeTrees managed_status nextFetch post_rest put_managed
            url Dispatch.POST st) = st.
Proof. intros Hstat. unfold Dispatch.shapeTreeFetch. rewrite Hstat. done. Qed.

(** [PUT] below a parent that the storage does not have, shape trees
    enforced: the existence check lets the request through, reading the
    parent fails, and the answer is 500. *)
Lemma put_missing `{Platform} managed_status nextFetch post_rest put_managed url parentUrl st :
  URL_new (if Str.endsWith (pathname url) "/" then ".." else ".") url = Ok parentUrl ->
  Storage.containers st !! pathname parentUrl = None ->
  Dispatch.shapeTreeFetch false managed_status nextFetch post_rest put_managed
    url Dispatch.PUT st
  = (Dispatch.mkResponse 500 (message (Storage.ENOENT "open" (pathname parentUrl))), st).
Proof.
  intros Hparent Hmissing. unfold Dispatch.shapeTreeFetch. rewrite Hparent.
  rewrite throwIfNotFound_promise.
  unfold Container.loadContainer, Storage.readContainer. by rewrite Hmissing.
Qed.

(** C8 at a [PUT] whose parent is missing: [PUT /missing/thing] while the
    storage has no [/missing/].  With shape trees enforced the answer is
    500, from the failure to read the parent; without, the parent is
    created and the request goes to the wrapped fetch.  In neither mode
    is it the 404 of the existence check. *)
Theorem put_missing_parent managed_status nextFetch post_rest put_managed :
  Dispatch.rstatOrNull (Example.at_ "/missing/") Example.st0 = None
  /\ Dispatch.status
       (fst (Dispatch.shapeTreeFetch (H := Node.platform) false managed_status nextFetch
               post_rest put_managed (Example.at_ "/missing/thing") Dispatch.PUT Example.st0))
     = 500%N
  /\ exists st',
      Dispatch.shapeTreeFetch (H := Node.platform) true managed_status nextFetch
        post_rest put_managed (Example.at_ "/missing/thing") Dispatch.PUT Example.st0
      = nextFetch (Example.at_ "/missing/thing") Dispatch.PUT st'
      /\ Storage.is_dir st' "/missing/" = true.
Proof.
  split; [reflexivity|]. split; [reflexivity|].
  eexists. split; [reflexivity|]. vm_compute. reflexivity.
Qed.

(** ** Schema trees *)

Lemma elem_of_getQuads (g : Store) s p o q :
  q ∈ getQuads g s p o
  <-> q ∈ g /\ Rdf.matches s (subject q) = true /\ Rdf.matches p (predicate q) = true
      /\ Rdf.matches o (object q) = true.
Proof.
  unfold getQuads. rewrite !list_elem_of_In, filter_In, !andb_true_iff. tauto.
Qed.

Lemma matches_Some t u : Rdf.matches (Some t) u = true <-> t = u.
Proof. simpl. apply bool_decide_eq_true. Qed.

(** The first element that passes a test, seen through a map *)
Lemma find_map_first {A B} (f : A -> B) (p : B -> bool) (l : list A) (c : B) :
  (exists q, List.find (fun x => p (f x)) l = Some q /\ f q = c)
  <-> exists before after,
        map f l = before ++ c :: after /\ p c = true
        /\ Forall (fun x => p x = false) before.
Proof.
  induction l as [|x l IH]; simpl.
  - split; [by intros (q & ? & _)|]. intros (b & a & Hl & _). by destruct b.
  - destruct (p (f x)) eqn:Hx.
    + split.
      * intros (q & [= <-] & <-). exists [], (map f l). by repeat split.
      * intros (b & a & Hl & Hc & Hb). exists x. split; [done|].
        destruct b as [|y b]; simpl in Hl; [congruence|].
        injection Hl as Hy' _. apply Forall_cons in Hb as [Hy _]. simpl in Hy.
        rewrite <- Hy', Hx in Hy. discriminate Hy.
    + rewrite IH. split.
      * intros (b & a & Hl & Hc & Hb). exists (f x :: b), a.
        rewrite Hl. repeat split; [done|]. by constructor.
      * intros (b & a & Hl & Hc & Hb). destruct b as [|y b]; simpl in Hl.
        { injection Hl as Hc' _. congruence. }
        injection Hl as _ Hl. apply Forall_cons in Hb as [_ Hb]. by exists b, a.
Qed.

Lemma getRdfRoot_step_first g n name c :
  name <> "." ->
  ShapeTree.getRdfRoot_step g (Ok n) name = Ok c <-> Spec.first_eligible g n name c.
Proof.
  intros Hname. unfold ShapeTree.getRdfRoot_step, Spec.first_eligible, Spec.children.
  apply String.eqb_neq in Hname. rewrite Hname.
  rewrite <- (find_map_first object (Spec.eligible g name)).
  change (fun x => Spec.eligible g name (object x)) with (ShapeTree.selects g name).
  destruct (List.find _ _) as [q|].
  - split; [intros [= <-]; by exists q|]. by intros (q' & [= <-] & <-).
  - split; [done|]. by intros (q' & ? & _).
Qed.

Lemma getRdfRoot_fold_failed g segments (r : result term) :
  Spec.is_ok r = false -> fold_left (ShapeTree.getRdfRoot_step g) segments r = r.
Proof.
  induction segments as [|s segments IH]; intros Hr; [done|].
  simpl. destruct r; try done; by apply IH.
Qed.

Lemma getRdfRoot_walks g segments n m :
  fold_left (ShapeTree.getRdfRoot_step g) segments (Ok n) = Ok m
  <-> Spec.walks g n segments m.
Proof.
  split.
  - revert n. induction segments as [|name segments IH]; intros n; cbn [fold_left].
    + intros [= <-]. constructor.
    + destruct (decide (name = ".")) as [->|Hname].
      * intros Hm. apply Spec.walks_dot. by apply IH.
      * destruct (ShapeTree.getRdfRoot_step g (Ok n) name) as [c| | |] eqn:Hstep.
        -- intros Hm. apply (Spec.walks_child g n name c); [done| |by apply IH].
           by apply getRdfRoot_step_first.
        -- by rewrite getRdfRoot_fold_failed.
        -- by rewrite getRdfRoot_fold_failed.
        -- by rewrite getRdfRoot_fold_failed.
  - induction 1 as [n|n segments m _ IH|n name c segments m Hname Hc _ IH];
      cbn [fold_left].
    + done.
    + done.
    + apply getRdfRoot_step_first in Hc; [|done]. by rewrite Hc.
Qed.

(** C5, as amended.  [getRdfRoot] walks the segments of the cursor path
    from the root node of the schema; a ["."] stays where it is; any
    other segment goes to the first declared child of the current node,
    in the order of the store, that has the segment among its labels or
    that declares exactly one URI template, whether the segment matches
    that template or not.  It returns a node exactly when that walk
    exists. *)
Theorem getRdfRoot_walk (t : ShapeTree.RemoteShapeTree) (m : term) :
  ShapeTree.getRdfRoot t = Ok m
  <-> Spec.walks (ShapeTree.graph t) (NamedNode (href (ShapeTree.url t)))
                 (Str.split "/" (ShapeTree.path t)) m.
Proof. apply getRdfRoot_walks. Qed.

(** C5 as stated fails where the only child has a URI template that the
    segment does not match: the code selects it, the claimed selection
    has no child for the segment. *)
Lemma getRdfRoot_ignores_template :
  ShapeTree.getRdfRoot (Example.templated_tree "alice") = Ok Example.label_node
  /\ Spec.template_accepts (H := Node.platform) Example.templated_graph "alice"
       Example.label_node = false
  /\ Spec.claimed_getRdfRoot (H := Node.platform) (Example.templated_tree "alice") = None.
Proof. vm_compute. done. Qed.

(** *** [matchingStep] *)

Lemma join_listed (cs : list term) : ShapeTree.join ", " (map value cs) = Spec.listed cs.
Proof.
  unfold Spec.listed. induction cs as [|c [|c' cs] IH]; [done..|].
  cbn [map ShapeTree.join String.concat] in *. by rewrite IH.
Qed.

Lemma falsy_named (slug : option string) :
  ShapeTree.falsy slug = match Spec.named slug with None => true | Some _ => false end.
Proof. by destruct slug as [[|a s]|]. Qed.

Lemma qualifies_answer `{Platform} g slug name c :
  Spec.named slug = Some name -> ShapeTree.qualifies g slug c = Spec.answer g name c.
Proof.
  intros Hname. unfold ShapeTree.qualifies, Spec.answer, Spec.template_of.
  rewrite falsy_named, Hname. destruct slug as [[|a s]|]; by simplify_eq/=.
Qed.

(** The filter of [matchingStep]: the first child without an answer
    decides; with an answer for every child the filter keeps the
    children that qualify. *)
Lemma filterM_qualifies `{Platform} g slug (cs : list term) :
  match Spec.unanswered g slug cs with
  | Some (Throw e) => ShapeTree.filterM (ShapeTree.qualifies g slug) cs = Throw e
  | Some Blocked => ShapeTree.filterM (ShapeTree.qualifies g slug) cs = Blocked
  | Some OutOfFuel => ShapeTree.filterM (ShapeTree.qualifies g slug) cs = OutOfFuel
  | Some (Ok _) => False
  | None =>
      ShapeTree.filterM (ShapeTree.qualifies g slug) cs
      = Ok (List.filter (Spec.qualifying g slug) cs)
  end.
Proof.
  unfold Spec.unanswered, Spec.qualifying.
  destruct (Spec.named slug) as [name|] eqn:Hname.
  - induction cs as [|c cs IH]; [done|].
    cbn [Spec.first_unanswered ShapeTree.filterM List.filter].
    rewrite (qualifies_answer g slug name c Hname).
    destruct (Spec.answer g name c) as [b| | |]; [|done..].
    destruct (Spec.first_unanswered g name cs) as [[?| | |]|];
      [done|by rewrite IH..|rewrite IH; by destruct b].
  - induction cs as [|c cs IH]; [done|].
    cbn [ShapeTree.filterM List.filter]. unfold ShapeTree.qualifies at 1.
    by rewrite falsy_named, Hname, IH.
Qed.

Lemma obj_declared g c p r :
  ShapeTree.obj g c p = Ok r -> forall o, r = Some o <-> Spec.declared g c p o.
Proof.
  unfold ShapeTree.obj, zeroOrOne, Spec.declared, ShapeTree.tree.
  destruct (getQuads g _ _ _) as [|q [|q' l]] eqn:Hq; [| |done].
  - intros [= <-] o. split; [done|]. intros [gr Hin].
    assert (Quad c (NamedNode (Prefixes.ns_tree +:+ p)) o gr ∈ getQuads g (Some c)
              (Some (NamedNode (Prefixes.ns_tree +:+ p))) None) as Hin'.
    { apply elem_of_getQuads. rewrite !matches_Some. done. }
    rewrite Hq in Hin'. by apply elem_of_nil in Hin'.
  - intros [= <-] o. simpl.
    assert (q ∈ getQuads g (Some c) (Some (NamedNode (Prefixes.ns_tree +:+ p))) None) as Hin.
    { rewrite Hq. by left. }
    apply elem_of_getQuads in Hin as (Hin & Hs%matches_Some & Hp%matches_Some & _).
    split.
    + intros [= <-]. exists (qgraph q). destruct q; simpl in *. by subst.
    + intros [gr Hin'].
      assert (Quad c (NamedNode (Prefixes.ns_tree +:+ p)) o gr ∈ getQuads g (Some c)
                (Some (NamedNode (Prefixes.ns_tree +:+ p))) None) as Hin''.
      { apply elem_of_getQuads. rewrite !matches_Some. done. }
      rewrite Hq in Hin''. apply list_elem_of_singleton in Hin'' as <-. done.
Qed.

(** A lookup returns unless the property has several values. *)
Lemma obj_several g c p :
  if Spec.several g c p
  then exists e, zeroOrOne g (Some c) (ShapeTree.tree p) None = Throw e
                 /\ ShapeTree.obj g c p = Throw e
  else exists r, ShapeTree.obj g c p = Ok r.
Proof.
  unfold Spec.several, ShapeTree.obj, zeroOrOne.
  destruct (getQuads g _ _ _) as [|q [|q' l]]; cbn [length Nat.ltb Nat.leb]; eauto.
Qed.

Lemma build_step_carries `{Platform} g c :
  match List.find (Spec.several g c) Spec.step_properties with
  | Some p =>
      exists e, zeroOrOne g (Some c) (ShapeTree.tree p) None = Throw e
                /\ ShapeTree.build_step g c = Throw e
  | None => exists s, ShapeTree.build_step g c = Ok s /\ Spec.carries g c s
  end.
Proof.
  unfold Spec.step_properties, ShapeTree.build_step. cbn [List.find].
  pose proof (obj_several g c "expectedType") as Ht.
  destruct (Spec.several g c "expectedType").
  { destruct Ht as (e & Hz & ->). eauto. }
  destruct Ht as [t Et]. rewrite Et.
  pose proof (obj_several g c "name") as Hn.
  destruct (Spec.several g c "name").
  { destruct Hn as (e & Hz & ->). eauto. }
  destruct Hn as [n En]. rewrite En.
  pose proof (obj_several g c "uriTemplate") as Hu.
  destruct (Spec.several g c "uriTemplate").
  { destruct Hu as (e & Hz & ->). eauto. }
  destruct Hu as [u Eu]. rewrite Eu.
  pose proof (obj_several g c "shape") as Hs.
  destruct (Spec.several g c "shape").
  { destruct Hs as (e & Hz & ->). eauto. }
  destruct Hs as [s Es]. rewrite Es.
  eexists. split; [done|]. unfold Spec.carries. simpl.
  repeat split; try done; by apply obj_declared.
Qed.



(** The two errors, on examples: no child's template matches ["alice"];
    two children have a template that matches ["alice.ttl"]. *)
Lemma matchingStep_no_match :
  ShapeTree.matchingStep (H := Node.platform) Example.templated_graph Example.root_node
    (Some "alice")
  = Throw (UriTemplateMatchError (Some "alice")
             "No match in http://shapes.example/tree#root http://shapes.example/tree#label").
Proof. reflexivity. Qed.

Lemma matchingStep_ambiguous :
  ShapeTree.matchingStep (H := Node.platform) Example.ambiguous_graph Example.root_node
    (Some "alice.ttl")
  = Throw (UriTemplateMatchError (Some "alice.ttl")
             ("Ambiguous match against http://shapes.example/tree#label, "
              +:+ "http://shapes.example/tree#note")).
Proof. reflexivity. Qed.

(** ** The lock *)

Lemma fulfilled_chain (rel : gset nat) (n : nat) :
  Mutex.fulfilled rel (Spec.chain n) = true <-> forall j, j < n -> j ∈ rel.
Proof.
  induction n as [|n IH]; simpl.
  - split; [intros _ j Hj; lia|done].
  - rewrite andb_true_iff, IH, bool_decide_eq_true. split.
    + intros [Hlt Hn] j Hj. destruct (decide (j = n)) as [->|]; [done|].
      apply Hlt. lia.
    + intros Hall. split; [intros j Hj|]; apply Hall; lia.
Qed.

Ltac split_invariant :=
  unfold Spec.lock_invariant; cbn [Mutex.mutex Mutex.waiting Mutex.running Mutex.entered];
  refine (conj _ (conj _ (conj _ (conj _ (conj _ (conj _ (conj _ _))))))).

Lemma lock_invariant_start : Spec.lock_invariant Mutex.start.
Proof.
  unfold Mutex.start. split_invariant; simpl.
  - done.
  - done.
  - lia.
  - intros t p Hin. by apply elem_of_nil in Hin.
  - intros t Hin. by apply elem_of_empty in Hin.
  - intros t Ht. lia.
  - intros t Hin. by apply elem_of_nil in Hin.
  - constructor.
Qed.

Lemma elem_of_filter_ne (l : list nat) (t x : nat) :
  x ∈ List.filter (fun r => negb (Nat.eqb r t)) l <-> x ∈ l /\ x <> t.
Proof.
  rewrite !list_elem_of_In, filter_In, negb_true_iff, Nat.eqb_neq. done.
Qed.

Lemma lock_invariant_step s s' :
  Spec.lock_invariant s -> Mutex.step s s' -> Spec.lock_invariant s'.
Proof.
  intros (Hchain & Hent & Hk & Hwait & Hrel & Hdone & Hrun & Hnodup) Hstep.
  destruct Hstep as [s|s t p Hin Hful|s t Hin]; split_invariant.
  - (* lock *)
    simpl. by rewrite Hchain.
  - done.
  - simpl. lia.
  - simpl. intros t p [Hin|Hin%list_elem_of_singleton]%elem_of_app.
    + apply Hwait in Hin as [-> ?]. split; [done|lia].
    + injection Hin as -> ->. rewrite Hchain. split; [done|lia].
  - simpl. done.
  - simpl. done.
  - simpl. done.
  - done.
  - (* the await of ticket [t] resumes: [t] is the next ticket *)
    done.
  - destruct (Hwait t p Hin) as [-> [Hkt Htn]].
    simpl in Hful. rewrite fulfilled_chain in Hful.
    assert (t = length (Mutex.entered s)) as Ht.
    { destruct (decide (t = length (Mutex.entered s))) as [|Hne]; [done|].
      assert (length (Mutex.entered s) ∈ Mutex.released (Mutex.mutex s)) as Hin'
        by (apply Hful; lia).
      apply Hrel in Hin'. lia. }
    cbn [length]. rewrite seq_S, rev_app_distr. cbn [rev app Nat.add].
    rewrite <- Hent. by f_equal.
  - destruct (Hwait t p Hin) as [_ [Hkt Htn]]. simpl. lia.
  - destruct (Hwait t p Hin) as [-> [Hkt Htn]].
    simpl in Hful. rewrite fulfilled_chain in Hful.
    assert (t = length (Mutex.entered s)) as Ht.
    { destruct (decide (t = length (Mutex.entered s))) as [|Hne]; [done|].
      assert (length (Mutex.entered s) ∈ Mutex.released (Mutex.mutex s)) as Hin'
        by (apply Hful; lia).
      apply Hrel in Hin'. lia. }
    intros t' p' [Hin'%list_elem_of_In Hne]%list_elem_of_In%filter_In.
    apply negb_true_iff, Nat.eqb_neq in Hne. simpl in Hne.
    apply Hwait in Hin' as [-> ?]. simpl. split; [done|lia].
  - intros t' Hin'. apply Hrel in Hin' as [Hlt Hout]. simpl. split; [lia|].
    intros [->|Hin']%elem_of_cons; [|done].
    destruct (Hwait t p Hin) as [_ [Hkt Htn]]. lia.
  - destruct (Hwait t p Hin) as [-> [Hkt Htn]].
    simpl in Hful. rewrite fulfilled_chain in Hful.
    intros t' Ht'. simpl in Ht'. destruct (decide (t' < length (Mutex.entered s))) as [Hlt|Hge].
    + destruct (Hdone t' Hlt) as [?|?]; [by left|right; by right].
    + destruct (decide (t' < t)) as [Hlt|Hge']; [left; by apply Hful|].
      right. assert (t' = t) as -> by lia. by left.
  - destruct (Hwait t p Hin) as [-> [Hkt Htn]].
    simpl in Hful. rewrite fulfilled_chain in Hful.
    assert (t = length (Mutex.entered s)) as Ht.
    { destruct (decide (t = length (Mutex.entered s))) as [|Hne]; [done|].
      assert (length (Mutex.entered s) ∈ Mutex.released (Mutex.mutex s)) as Hin'
        by (apply Hful; lia).
      apply Hrel in Hin'. lia. }
    intros t' [->|Hin']%elem_of_cons; simpl.
    + split; [lia|done].
    + apply Hrun in Hin' as [? ?]. split; [lia|done].
  - constructor; [|done]. intros Hin'%Hrun.
    destruct (Hwait t p Hin) as [_ [Hkt Htn]]. lia.
  - (* [unlock] of a running ticket *)
    done.
  - done.
  - done.
  - done.
  - simpl. intros t' [->%elem_of_singleton|Hin']%elem_of_union.
    + split; [by apply Hrun|]. rewrite elem_of_filter_ne. by intros [_ ?].
    + apply Hrel in Hin' as [? Hout]. split; [done|].
      rewrite elem_of_filter_ne. by intros [? _].
  - simpl. intros t' Ht'. destruct (decide (t' = t)) as [->|Hne]; [left; apply elem_of_union; left; by apply elem_of_singleton|].
    destruct (Hdone t' Ht') as [?|?]; [left; apply elem_of_union; by right|right].
    by apply elem_of_filter_ne.
  - simpl. intros t' [Hin' _]%elem_of_filter_ne. apply Hrun in Hin' as [? Hlow].
    split; [done|]. intros j Hj. apply elem_of_union. right. by apply Hlow.
  - apply NoDup_ListNoDup, List.NoDup_filter, NoDup_ListNoDup, Hnodup.
Qed.

Lemma lock_invariant_reachable s : Mutex.reachable s -> Spec.lock_invariant s.
Proof.
  unfold Mutex.reachable. intros Hreach.
  apply (rtc_ind_r (R := Mutex.step) (fun s => Spec.lock_invariant s) Mutex.start);
    [| |exact Hreach].
  - apply lock_invariant_start.
  - intros s1 s2 _ Hstep IH. by apply lock_invariant_step with s1.
Qed.

Lemma lock_invariant_exclusive s : Spec.lock_invariant s -> length (Mutex.running s) <= 1.
Proof.
  intros (_ & _ & _ & _ & Hrel & _ & Hrun & Hnodup).
  destruct (Mutex.running s) as [|a [|b l]] eqn:Hr; simpl; [lia..|].
  exfalso. apply NoDup_cons in Hnodup as [Hab _].
  assert (a <> b) as Hne by (intros ->; apply Hab; by left).
  assert (a ∈ a :: b :: l) as Ha by (by left).
  assert (b ∈ a :: b :: l) as Hb by (right; by left).
  destruct (Hrun a Ha) as [_ Hlowa]. destruct (Hrun b Hb) as [_ Hlowb].
  destruct (decide (a < b)) as [Hlt|Hge].
  - apply Hlowb, Hrel in Hlt as [_ Hout]. by apply Hout.
  - assert (b < a) as Hlt by lia. apply Hlowa, Hrel in Hlt as [_ Hout]. by apply Hout.
Qed.

(** What [write] does to the lock: it takes the next ticket and, whether
    the storage accepts the graph or not, calls its [unlockNext]. *)
Lemma write_releases c st :
  match Container.write c st with
  | (Blocked, _, _) | (OutOfFuel, _, _) => True
  | (_, c', _) =>
      Container._mutex c'
      = Mutex.unlockNext (Mutex.issued (Container._mutex c))
                         (fst (Mutex.lock (Container._mutex c)))
  end.
Proof.
  unfold Container.write, Container.acquire. simpl.
  destruct (Mutex.fulfilled _ _); simpl; [|done].
  unfold Storage.writeContainer. by destruct (_ !! _).
Qed.

Lemma unfulfilled_chain (rel : gset nat) (n : nat) :
  Mutex.fulfilled rel (Spec.chain n) = false -> exists j, j < n /\ j ∉ rel.
Proof.
  induction n as [|n IH]; simpl; [done|].
  rewrite andb_false_iff, bool_decide_eq_false. intros [Hlow|Hn].
  - destruct (IH Hlow) as (j & Hj & Hout). exists j. split; [lia|done].
  - exists n. split; [lia|done].
Qed.

(** [write] gets past its [await] exactly when every ticket that was
    issued before its own has released. *)
Lemma write_waits c st :
  Mutex._locking (Container._mutex c) = Spec.chain (Mutex.issued (Container._mutex c)) ->
  match Container.write c st with
  | (Blocked, _, st') =>
      st' = st
      /\ exists j, j < Mutex.issued (Container._mutex c)
                   /\ j ∉ Mutex.released (Container._mutex c)
  | _ => forall j, j < Mutex.issued (Container._mutex c) ->
                   j ∈ Mutex.released (Container._mutex c)
  end.
Proof.
  intros Hchain. unfold Container.write, Container.acquire. cbn.
  rewrite Hchain.
  destruct (Mutex.fulfilled _ _) eqn:Hful.
  - pose proof (proj1 (fulfilled_chain _ _) Hful) as Hall.
    unfold Storage.writeContainer. by destruct (_ !! _).
  - split; [done|]. by apply unfulfilled_chain.
Qed.

(** C2.  At any time of any interleaving of callers of one lock: at most
    one caller is inside its critical section; the critical sections
    started in the order of the calls of [lock]; the promise that a caller
    awaits is fulfilled exactly when every earlier ticket has released.
    [write] releases its ticket when the storage accepts the graph
    and when the storage throws.  And a [write] on a container with that
    lock waits for its grant: it gets to the storage only when every
    ticket issued before its own has released, and while one has not it
    stays suspended and the storage is as it was. *)
Theorem lock_is_fifo (s : Mutex.clients) (c : Container.Container) (st : Storage.Storage) :
  Mutex.reachable s ->
  length (Mutex.running s) <= 1
  /\ Mutex.entered s = rev (seq 0 (length (Mutex.entered s)))
  /\ Forall (fun w => Mutex.fulfilled (Mutex.released (Mutex.mutex s)) (snd w) = true
                      <-> forall j, j < fst w -> j ∈ Mutex.released (Mutex.mutex s))
            (Mutex.waiting s)
  /\ match Container.write c st with
     | (Ok _, c', _) | (Throw _, c', _) =>
         Mutex.issued (Container._mutex c) ∈ Mutex.released (Container._mutex c')
         /\ Mutex._locks (Container._mutex c') = Mutex._locks (Container._mutex c)
     | _ => True
     end
  /\ (Container._mutex c = Mutex.mutex s ->
      match Container.write c st with
      | (Blocked, _, st') =>
          st' = st
          /\ exists j, j < Mutex.issued (Mutex.mutex s) /\ j ∉ Mutex.released (Mutex.mutex s)
      | _ => forall j, j < Mutex.issued (Mutex.mutex s) -> j ∈ Mutex.released (Mutex.mutex s)
      end).
Proof.
  intros Hinv%lock_invariant_reachable.
  split; [by apply lock_invariant_exclusive|].
  destruct Hinv as (Hchain & Hent & _ & Hwait & _).
  split; [done|]. split; [|split].
  - apply Forall_forall. intros [t p] Hin. simpl.
    destruct (Hwait t p Hin) as [-> _]. apply fulfilled_chain.
  - pose proof (write_releases c st) as Hw.
    destruct (Container.write c st) as [[r c'] st'].
    destruct r; try done; rewrite Hw; simpl;
      (split; [apply elem_of_union; left; by apply elem_of_singleton|lia]).
  - intros Hc. rewrite <- Hc. apply write_waits. by rewrite Hc.
Qed.

Lemma three_waiting_reachable : Mutex.reachable Example.three_waiting.
Proof.
  unfold Mutex.reachable.
  eapply rtc_l; [apply Mutex.step_lock|].
  eapply rtc_l; [apply Mutex.step_lock|].
  eapply rtc_l; [apply Mutex.step_lock|].
  eapply rtc_l.
  { apply (Mutex.step_resume _ 0 (Mutex.ThenValue Mutex.Resolved)); [by left|reflexivity]. }
  apply rtc_refl.
Defined.

Lemma lock_is_fifo_witness :
  (length (Mutex.running Example.three_waiting) <= 1
   /\ Mutex.entered Example.three_waiting
      = rev (seq 0 (length (Mutex.entered Example.three_waiting)))
   /\ Forall (fun w => Mutex.fulfilled (Mutex.released (Mutex.mutex Example.three_waiting))
                                       (snd w) = true
                       <-> forall j, j < fst w
                                     -> j ∈ Mutex.released (Mutex.mutex Example.three_waiting))
             (Mutex.waiting Example.three_waiting)
   /\ Mutex.issued (Container._mutex Example.lost)
        ∈ Mutex.released (Container._mutex (snd (fst (Container.write Example.lost Example.st0))))
   /\ fst (fst (Container.write Example.lost Example.st0))
      = Throw (Storage.ENOENT "open" "/Lost/"))
  /\ fst (fst (Container.write Example.busy Example.st0)) = Blocked
  /\ snd (Container.write Example.busy Example.st0) = Example.st0
  /\ exists j, j < Mutex.issued (Mutex.mutex Example.three_waiting)
               /\ j ∉ Mutex.released (Mutex.mutex Example.three_waiting).
Proof.
  split.
  - pose proof (lock_is_fifo Example.three_waiting Example.lost Example.st0
                  three_waiting_reachable) as (H1 & H2 & H3 & H4 & _).
    split; [exact H1|]. split; [exact H2|]. split; [exact H3|].
    split; [exact (proj1 H4)|reflexivity].
  - pose proof (lock_is_fifo Example.three_waiting Example.busy Example.st0
                  three_waiting_reachable) as (_ & _ & _ & _ & H5).
    specialize (H5 eq_refl).
    split; [reflexivity|]. split; [reflexivity|]. exact (proj2 H5).
Defined.


(** ** The caching fetch *)

(** *** [escape] and [decodeURIComponent] *)

Lemma hex_value_digit d : (d < 16)%N -> Js.hex_value (Js.hex_digit d) = Some d.
Proof.
  intros Hd. unfold Js.hex_digit, Js.hex_value, Js.between.
  destruct (N.ltb_spec d 10).
  - rewrite (proj2 (N.leb_le 48 (48 + d))), (proj2 (N.leb_le (48 + d) 57)) by lia.
    simpl. f_equal. lia.
  - rewrite (proj2 (N.leb_gt (55 + d) 57)) by lia. rewrite andb_false_r.
    rewrite (proj2 (N.leb_le 65 (55 + d))), (proj2 (N.leb_le (55 + d) 70)) by lia.
    simpl. f_equal. lia.
Qed.

Lemma byte_at_hex c rest :
  (c < 256)%N ->
  Js.byte_at (Js.hex_digit (c / 16) :: Js.hex_digit (c mod 16) :: rest) = Some (c, rest).
Proof.
  intros Hc. unfold Js.byte_at.
  rewrite !hex_value_digit.
  - do 2 f_equal. symmetry. apply N.div_mod. lia.
  - apply N.mod_lt. lia.
  - apply N.Div0.div_lt_upper_bound. lia.
Qed.

Lemma byte_at_length s b rest : Js.byte_at s = Some (b, rest) -> length s = S (S (length rest)).
Proof.
  unfold Js.byte_at. destruct s as [|h [|l r]]; try done.
  destruct (Js.hex_value h), (Js.hex_value l); try done. by intros [= _ <-].
Qed.

Lemma continuation_length n s cs rest :
  Js.continuation n s = Some (cs, rest) -> length rest <= length s.
Proof.
  revert s cs rest. induction n as [|n IH]; intros s cs rest; simpl.
  - intros [= _ <-]. lia.
  - destruct s as [|c r]; [done|]. destruct (N.eqb c 37); [|done].
    destruct (Js.byte_at r) as [[b r']|] eqn:Hb; [|done].
    destruct (Js.between 128 191 b); [|done].
    destruct (Js.continuation n r') as [[bs r'']|] eqn:Hc; [|done].
    intros [= _ <-]. apply IH in Hc. apply byte_at_length in Hb. simpl. lia.
Qed.

Lemma decode_S fuel c rest :
  Js.decode (S fuel) (c :: rest)
  = if N.eqb c 37 then
      match Js.byte_at rest with
      | Some (b, rest') =>
          if (b <? 128)%N then Js.prepend [b] (Js.decode fuel rest')
          else
            match Js.octets b with
            | Some n =>
                match Js.continuation (Nat.pred n) rest' with
                | Some (cs, rest'') =>
                    match Js.utf8_value b cs with
                    | Some v => Js.prepend (Js.utf16 v) (Js.decode fuel rest'')
                    | None => Throw Js.URIError
                    end
                | None => Throw Js.URIError
                end
            | None => Throw Js.URIError
            end
      | None => Throw Js.URIError
      end
    else Js.prepend [c] (Js.decode fuel rest).
Proof. reflexivity. Qed.

(** The fuel of [decode] does not matter once it covers the string. *)
Lemma decode_fuel f1 f2 s :
  length s <= f1 -> length s <= f2 -> Js.decode f1 s = Js.decode f2 s.
Proof.
  revert f2 s. induction f1 as [|f1 IH]; intros f2 s H1 H2.
  - destruct s; [by destruct f2|simpl in H1; lia].
  - destruct s as [|c rest]; [by destruct f2|].
    destruct f2 as [|f2]; [simpl in H2; lia|]. simpl in H1, H2. rewrite !decode_S.
    destruct (N.eqb c 37).
    + destruct (Js.byte_at rest) as [[b rest']|] eqn:Hb; [|done].
      apply byte_at_length in Hb.
      destruct (b <? 128)%N.
      * f_equal. apply IH; lia.
      * destruct (Js.octets b) as [n|]; [|done].
        destruct (Js.continuation (Nat.pred n) rest') as [[cs rest'']|] eqn:Hc; [|done].
        apply continuation_length in Hc.
        destruct (Js.utf8_value b cs); [|done]. f_equal. apply IH; lia.
    + f_equal. apply IH; lia.
Qed.

Lemma decodeURIComponent_plain c s :
  c <> 37%N -> Js.decodeURIComponent (c :: s) = Js.prepend [c] (Js.decodeURIComponent s).
Proof.
  intros Hc. unfold Js.decodeURIComponent. cbn [length]. rewrite decode_S.
  apply N.eqb_neq in Hc. by rewrite Hc.
Qed.

Lemma decodeURIComponent_escaped c s :
  (c < 128)%N ->
  Js.decodeURIComponent (37%N :: Js.hex_digit (c / 16) :: Js.hex_digit (c mod 16) :: s)
  = Js.prepend [c] (Js.decodeURIComponent s).
Proof.
  intros Hc. unfold Js.decodeURIComponent. cbn [length]. rewrite decode_S.
  rewrite N.eqb_refl, byte_at_hex by lia.
  rewrite (proj2 (N.ltb_lt c 128) Hc). f_equal. apply decode_fuel; lia.
Qed.

Lemma unescaped_not_percent c : Js.unescaped c = true -> c <> 37%N.
Proof. intros Hc ->. discriminate Hc. Qed.

Lemma prepend_app l1 l2 r : Js.prepend l1 (Js.prepend l2 r) = Js.prepend (l1 ++ l2) r.
Proof. destruct r; simpl; try done. by rewrite app_assoc. Qed.

(** [decodeURIComponent] undoes [escape] on ASCII text, in front of any
    text. *)
Lemma decodeURIComponent_escape_app s r :
  Spec.ascii_only s = true ->
  Js.decodeURIComponent (Js.escape s ++ r) = Js.prepend s (Js.decodeURIComponent r).
Proof.
  induction s as [|c s IH]; intros Hs.
  - simpl. by destruct (Js.decodeURIComponent r).
  - simpl in Hs. apply andb_true_iff in Hs as [Hc%N.ltb_lt Hs].
    change (Js.escape (c :: s)) with (Js.escape_unit c ++ Js.escape s).
    rewrite <- app_assoc. unfold Js.escape_unit.
    destruct (Js.unescaped c) eqn:Hu.
    + simpl. rewrite decodeURIComponent_plain by by apply unescaped_not_percent.
      rewrite (IH Hs). by rewrite prepend_app.
    + rewrite (proj2 (N.ltb_lt c 256)) by lia. simpl.
      rewrite decodeURIComponent_escaped by done.
      rewrite (IH Hs). by rewrite prepend_app.
Qed.

Lemma decodeURIComponent_escape s :
  Spec.ascii_only s = true -> Js.decodeURIComponent (Js.escape s) = Ok s.
Proof.
  intros Hs. rewrite <- (app_nil_r (Js.escape s)).
  rewrite decodeURIComponent_escape_app by done. simpl. by rewrite app_nil_r.
Qed.

Lemma hex_digit_safe d : (d < 16)%N -> Spec.safe (Js.hex_digit d) = true.
Proof.
  intros Hd. unfold Spec.safe, Js.unescaped, Js.alnum, Js.hex_digit, Js.between.
  destruct (N.ltb_spec d 10).
  - rewrite (proj2 (N.leb_le 48 (48 + d))), (proj2 (N.leb_le (48 + d) 57)) by lia. done.
  - rewrite (proj2 (N.leb_le 65 (55 + d))), (proj2 (N.leb_le (55 + d) 90)) by lia.
    simpl. by rewrite orb_true_r.
Qed.

Lemma escape_safe s : Spec.ascii_only s = true -> forallb Spec.safe (Js.escape s) = true.
Proof.
  induction s as [|c s IH]; [done|]. simpl. intros [Hc%N.ltb_lt Hs]%andb_true_iff.
  change (Js.escape (c :: s)) with (Js.escape_unit c ++ Js.escape s).
  rewrite forallb_app, (IH Hs), andb_true_r. unfold Js.escape_unit.
  destruct (Js.unescaped c) eqn:Hu.
  - simpl. unfold Spec.safe. by rewrite Hu.
  - rewrite (proj2 (N.ltb_lt c 256)) by lia. simpl.
    rewrite !hex_digit_safe; [done|apply N.mod_lt; lia|apply N.Div0.div_lt_upper_bound; lia].
Qed.

Lemma escape_nonempty s : s <> [] -> Js.escape s <> [].
Proof.
  destruct s as [|c s]; [done|]. intros _.
  change (Js.escape (c :: s)) with (Js.escape_unit c ++ Js.escape s).
  unfold Js.escape_unit. by repeat case_match.
Qed.

Lemma safe_facts c :
  Spec.safe c = true ->
  c <> 10%N /\ c <> 58%N /\ Cache.line_terminator c = false.
Proof.
  intros Hc. assert (c <> 10 /\ c <> 13 /\ c <> 58 /\ c <> 8232 /\ c <> 8233)%N as Hne.
  { repeat split; intros ->; discriminate Hc. }
  destruct Hne as (H10 & H13 & H58 & H1 & H2). repeat split; try done.
  unfold Cache.line_terminator. apply bool_decide_eq_false.
  rewrite !elem_of_cons, elem_of_nil. tauto.
Qed.

(** *** Lines *)

Lemma split_one_line x : Spec.one_line x = true -> Js.split 10 x = [x].
Proof.
  induction x as [|c x IH]; [done|]. simpl.
  intros [Hc%negb_true_iff Hx]%andb_true_iff. by rewrite Hc, (IH Hx).
Qed.

Lemma split_app x r :
  Spec.one_line x = true -> Js.split 10 (x ++ 10%N :: r) = x :: Js.split 10 r.
Proof.
  induction x as [|c x IH]; [done|]. simpl.
  intros [Hc%negb_true_iff Hx]%andb_true_iff. by rewrite Hc, (IH Hx).
Qed.

Lemma join_cons x y l : Js.join Cache.nl (x :: y :: l) = x ++ 10%N :: Js.join Cache.nl (y :: l).
Proof. reflexivity. Qed.

Lemma split_join lines :
  lines <> [] -> forallb Spec.one_line lines = true ->
  Js.split 10 (Js.join Cache.nl lines) = lines.
Proof.
  induction lines as [|x [|y l] IH]; [done| |]; intros _.
  - simpl. rewrite andb_true_r. apply split_one_line.
  - intros [Hx Hl]%andb_true_iff. rewrite join_cons, split_app by done.
    f_equal. by apply IH.
Qed.

Lemma no_blank_one_line x : Spec.one_line x = true -> Spec.no_blank x = true.
Proof.
  induction x as [|c x IH]; [done|]. simpl.
  intros [-> Hx]%andb_true_iff. by apply IH.
Qed.

Lemma no_blank_app x d y :
  x <> [] -> Spec.one_line x = true -> d <> 10%N -> Spec.no_blank (d :: y) = true ->
  Spec.no_blank (x ++ 10%N :: d :: y) = true.
Proof.
  intros Hx Hl Hd Hy. induction x as [|c x IH]; [done|].
  simpl in Hl. apply andb_true_iff in Hl as [Hc Hl].
  destruct x as [|c' x].
  - apply N.eqb_neq in Hd. simpl. simpl in Hy. rewrite Hd in Hy |- *.
    rewrite Hc. exact Hy.
  - change ((c :: c' :: x) ++ 10%N :: d :: y) with (c :: (c' :: x) ++ 10%N :: d :: y).
    cbn [Spec.no_blank]. rewrite Hc. cbn [orb andb]. by apply IH.
Qed.

Lemma join_head x l : x <> [] -> exists d r, Js.join Cache.nl (x :: l) = d :: r /\ head x = Some d.
Proof.
  destruct x as [|d x]; [done|]. intros _. destruct l; simpl; eauto.
Qed.

Lemma no_blank_join lines :
  forallb (fun x => negb (forallb (fun _ => false) x) && Spec.one_line x) lines = true ->
  Spec.no_blank (Js.join Cache.nl lines) = true.
Proof.
  induction lines as [|x [|y l] IH]; [done| |].
  - simpl. rewrite andb_true_r. intros [_ Hx]%andb_true_iff. by apply no_blank_one_line.
  - intros [[Hne Hx]%andb_true_iff Hl]%andb_true_iff. rewrite join_cons.
    assert (y <> []) as Hy.
    { simpl in Hl. destruct y; [done|discriminate]. }
    destruct (join_head y l Hy) as (d & r & Hj & Hd). rewrite Hj.
    apply no_blank_app.
    + by destruct x.
    + done.
    + simpl in Hl. apply andb_true_iff in Hl as [[_ Hyl]%andb_true_iff _].
      destruct y as [|d' y]; [done|]. injection Hd as ->. simpl in Hyl.
      apply andb_true_iff in Hyl as [Hd%negb_true_iff%N.eqb_neq _]. done.
    + rewrite <- Hj. by apply IH.
Qed.

Lemma indexOf_blank j text :
  Spec.no_blank j = true ->
  Js.indexOf (Cache.nl ++ Cache.nl) (j ++ Cache.nl ++ Cache.nl ++ text) = Some (length j).
Proof.
  change (Cache.nl ++ Cache.nl) with [10%N; 10%N].
  change (Cache.nl ++ Cache.nl ++ text) with (10%N :: 10%N :: text).
  induction j as [|c j IH]; [intros _; simpl; by destruct text|].
  cbn [Spec.no_blank]. intros [Hc Hj]%andb_true_iff.
  change ((c :: j) ++ 10%N :: 10%N :: text) with (c :: j ++ 10%N :: 10%N :: text).
  cbn [Js.indexOf]. rewrite (IH Hj). cbn [option_map length].
  assert (Js.startsWith (c :: j ++ 10%N :: 10%N :: text) [10%N; 10%N] = false) as ->; [|done].
  cbn [Js.startsWith]. rewrite (N.eqb_sym 10 c).
  destruct (N.eqb c 10); [|done]. cbn [negb orb] in Hc.
  destruct j as [|d j]; [done|]. cbn [app Js.startsWith andb].
  rewrite (N.eqb_sym 10 d). apply negb_true_iff in Hc. by rewrite Hc.
Qed.

(** *** The header map *)

Lemma map_set_fresh k v m : k ∉ map fst m -> Js.map_set k v m = m ++ [(k, v)].
Proof.
  induction m as [|[k' v'] m IH]; [done|]. simpl.
  intros [Hk Hm]%not_elem_of_cons.
  rewrite bool_decide_eq_false_2 by congruence. by rewrite IH.
Qed.

Lemma map_set_keys k v m :
  map fst (Js.map_set k v m) = if bool_decide (k ∈ map fst m) then map fst m else map fst m ++ [k].
Proof.
  induction m as [|[k' v'] m IH]; [done|]. simpl.
  destruct (decide (k' = k)) as [->|Hne].
  - rewrite bool_decide_eq_true_2 by done. simpl.
    rewrite bool_decide_eq_true_2 by (by left). done.
  - rewrite bool_decide_eq_false_2 by done. simpl. rewrite IH.
    destruct (decide (k ∈ map fst m)) as [Hin|Hout].
    + rewrite !bool_decide_eq_true_2; [done|by right|done].
    + rewrite !bool_decide_eq_false_2; [done| |done].
      intros [?|?]%elem_of_cons; congruence.
Qed.

Lemma map_set_Forall (P : list N * list N -> Prop) k v m :
  P (k, v) -> Forall P m -> Forall P (Js.map_set k v m).
Proof.
  intros Hkv. induction 1 as [|[k' v'] m Hx Hm IH]; simpl.
  - by repeat constructor.
  - case_bool_decide; constructor; done.
Qed.

Lemma map_set_nonempty k v m : Js.map_set k v m <> [].
Proof. destruct m as [|[k' v'] m]; simpl; [done|]. by case_bool_decide. Qed.

Lemma fold_map_set_acc (l : list (list N * list N)) acc :
  NoDup (map fst acc) ->
  NoDup (map fst (fold_left (fun m pair => Js.map_set (fst pair) (snd pair) m) l acc)).
Proof.
  revert acc. induction l as [|[k v] l IH]; intros acc Hacc; [done|].
  simpl. apply IH. rewrite map_set_keys. case_bool_decide; [done|].
  apply NoDup_app. repeat split; [done| |apply NoDup_singleton].
  intros x Hx ->%list_elem_of_singleton. done.
Qed.

Lemma fold_map_set_Forall (P : list N * list N -> Prop) l acc :
  Forall P l -> Forall P acc ->
  Forall P (fold_left (fun m pair => Js.map_set (fst pair) (snd pair) m) l acc).
Proof.
  revert acc. induction l as [|[k v] l IH]; intros acc Hl Hacc; [done|].
  apply Forall_cons in Hl as [Hkv Hl]. simpl. apply IH; [done|].
  by apply map_set_Forall.
Qed.

Lemma fold_map_set_nonempty l acc :
  acc <> [] -> fold_left (fun m pair => Js.map_set (fst pair) (snd pair) m) l acc <> [].
Proof.
  revert acc. induction l as [|[k v] l IH]; intros acc Hacc; [done|].
  simpl. apply IH, map_set_nonempty.
Qed.

Lemma to_map_nonempty l : l <> [] -> Cache.to_map l <> [].
Proof.
  destruct l as [|[k v] l]; [done|]. intros _. unfold Cache.to_map. simpl.
  by apply fold_map_set_nonempty.
Qed.

(** A map is rebuilt from its entries. *)
Lemma fold_map_set_id m acc :
  NoDup (map fst (acc ++ m)) ->
  fold_left (fun m pair => Js.map_set (fst pair) (snd pair) m) m acc = acc ++ m.
Proof.
  revert acc. induction m as [|[k v] m IH]; intros acc Hnd; [by rewrite app_nil_r|].
  simpl. rewrite map_set_fresh.
  - rewrite IH; [by rewrite <- app_assoc|]. by rewrite <- app_assoc.
  - rewrite map_app in Hnd. apply NoDup_app in Hnd as (_ & Hdisj & _).
    intros Hin. apply (Hdisj k Hin). by left.
Qed.

Lemma to_map_id m : NoDup (map fst m) -> Cache.to_map m = m.
Proof. intros Hm. unfold Cache.to_map. by rewrite fold_map_set_id. Qed.

(** *** Header lines *)

Lemma forallb_impl {A} (p q : A -> bool) l :
  (forall x, p x = true -> q x = true) -> forallb p l = true -> forallb q l = true.
Proof.
  intros Hpq. rewrite !forallb_forall. auto.
Qed.

Lemma until_colon_app x r :
  forallb (fun c => negb (N.eqb c 58)) x = true ->
  Cache.until_colon (x ++ 58%N :: r) = (x, 58%N :: r).
Proof.
  induction x as [|c x IH]; [done|]. simpl.
  intros [Hc%negb_true_iff Hx]%andb_true_iff. by rewrite Hc, (IH Hx).
Qed.

Lemma header_line_eq k v :
  Cache.header_line (k, v) = Js.escape k ++ 58%N :: 32%N :: Js.escape v.
Proof. reflexivity. Qed.

Lemma cacheable_inv k v :
  Spec.cacheable (k, v) = true ->
  k <> [] /\ Spec.ascii_only k = true /\ Spec.ascii_only v = true.
Proof.
  unfold Spec.cacheable. simpl. rewrite !andb_true_iff, negb_true_iff.
  intros [[Hk ?] ?]. repeat split; try done. by intros ->.
Qed.

Lemma header_line_one_line k v :
  Spec.cacheable (k, v) = true ->
  negb (forallb (fun _ => false) (Cache.header_line (k, v)))
  && Spec.one_line (Cache.header_line (k, v)) = true.
Proof.
  intros (Hk & Hak & Hav)%cacheable_inv. rewrite header_line_eq. apply andb_true_iff. split.
  - pose proof (escape_nonempty k Hk). by destruct (Js.escape k).
  - unfold Spec.one_line. rewrite forallb_app. simpl. apply andb_true_iff. split.
    + eapply forallb_impl; [|by apply escape_safe].
      intros c (H10 & _)%safe_facts. by apply negb_true_iff, N.eqb_neq.
    + eapply forallb_impl; [|by apply escape_safe].
      intros c (H10 & _)%safe_facts. by apply negb_true_iff, N.eqb_neq.
Qed.

Lemma match_line_header k v :
  Spec.cacheable (k, v) = true ->
  Cache.match_line (Cache.header_line (k, v)) = Some (Js.escape k, Js.escape v).
Proof.
  intros (Hk & Hak & Hav)%cacheable_inv. rewrite header_line_eq.
  unfold Cache.match_line. rewrite until_colon_app.
  - pose proof (escape_nonempty k Hk). destruct (Js.escape k) as [|c e] eqn:He; [done|].
    simpl. rewrite (forallb_impl Spec.safe); [done| |by apply escape_safe].
    intros c' (_ & _ & Ht)%safe_facts. by rewrite Ht.
  - eapply forallb_impl; [|by apply escape_safe].
    intros c (_ & H58 & _)%safe_facts. by apply negb_true_iff, N.eqb_neq.
Qed.

Lemma read_line_header m k v :
  Spec.cacheable (k, v) = true ->
  Cache.read_line (Ok m) (Cache.header_line (k, v)) = Ok (Js.map_set k v m).
Proof.
  intros Hkv. unfold Cache.read_line. rewrite (match_line_header k v Hkv).
  apply cacheable_inv in Hkv as (Hk & Hak & Hav).
  rewrite header_line_eq, decodeURIComponent_escape_app by done.
  rewrite !decodeURIComponent_plain by done.
  rewrite !decodeURIComponent_escape by done. done.
Qed.

Lemma read_lines_headers m acc :
  forallb Spec.cacheable m = true ->
  fold_left Cache.read_line (map Cache.header_line m) (Ok acc)
  = Ok (fold_left (fun m pair => Js.map_set (fst pair) (snd pair) m) m acc).
Proof.
  revert acc. induction m as [|[k v] m IH]; intros acc; [done|].
  cbn [map fold_left forallb fst snd].
  intros [Hkv Hm]%andb_true_iff. rewrite read_line_header by done. by apply IH.
Qed.

(** What was written is what is read: a cached image gives back its
    headers and its text. *)
Lemma parse_image_of m text :
  m <> [] -> NoDup (map fst m) -> forallb Spec.cacheable m = true ->
  Cache.parse_image (Cache.image_of m text) = Ok (m, text).
Proof.
  intros Hne Hnd Hm. unfold Cache.parse_image, Cache.image_of.
  assert (forallb (fun x => negb (forallb (fun _ => false) x) && Spec.one_line x)
                  (map Cache.header_line m) = true) as Hlines.
  { rewrite forallb_forall. intros line (kv & <- & Hin)%in_map_iff.
    rewrite forallb_forall in Hm. destruct kv as [k v]. by apply header_line_one_line, Hm. }
  rewrite indexOf_blank by by apply no_blank_join.
  unfold Js.substr_to, Js.substr_from.
  rewrite Nat2Z.id, firstn_app, Nat.sub_diag, firstn_all. simpl firstn. rewrite app_nil_r.
  rewrite split_join.
  - rewrite read_lines_headers by done. rewrite fold_map_set_id by done. simpl.
    destruct (Z.ltb_spec (Z.of_nat (length (Js.join Cache.nl (map Cache.header_line m))) + 2) 0);
      [lia|].
    replace (Z.to_nat (Z.of_nat (length (Js.join Cache.nl (map Cache.header_line m))) + 2))
      with (length (Js.join Cache.nl (map Cache.header_line m)) + 2) by lia.
    rewrite skipn_app, skipn_all2 by lia.
    replace (length (Js.join Cache.nl (map Cache.header_line m)) + 2
             - length (Js.join Cache.nl (map Cache.header_line m))) with 2 by lia.
    done.
  - by destruct m.
  - eapply forallb_impl; [|exact Hlines]. by intros x [_ ?]%andb_true_iff.
Qed.

Lemma append_slash_inj a b : a +:+ "/" = b +:+ "/" -> a = b.
Proof.
  revert b. induction a as [|x a IH]; intros [|y b] Hab; simpl in Hab.
  - done.
  - injection Hab as _ Hab. by destruct b.
  - injection Hab as _ Hab. by destruct a.
  - injection Hab as -> Hab. f_equal. by apply IH.
Qed.

(** C4, as amended.  The URL is of another origin than the cache, the
    cache has no entry for it and can store one, the network answers
    with a response that is [ok], and of its headers some are kept, all
    of these with a name and in ASCII.  Then the first of two successive
    calls asks the network once and the second does not; the second
    returns the body and the headers of the first; these are the headers
    of the response whose names do not match [date] or [time]. *)
Theorem cachingFetch_twice (Fetch : URL -> result Cache.NetResponse)
        (cacheRoot url : URL) (w : Cache.World) (resp : Cache.NetResponse) :
  origin cacheRoot <> origin url ->
  Storage.exists_ (Cache.storage w) (Cache.resolve_name (Cache.cacheName url) cacheRoot) = false ->
  Storage.is_dir (Cache.storage w)
    (Str.dirname (pathname (Cache.resolve_name (Cache.cacheName url) cacheRoot))) = true ->
  Fetch url = Ok resp ->
  Cache.ok resp = true ->
  List.filter Cache.kept (Cache.net_headers resp) <> [] ->
  forallb Spec.cacheable (List.filter Cache.kept (Cache.net_headers resp)) = true ->
  exists r1 w1 r2 w2,
    Cache.cachingFetch Fetch cacheRoot url w = (Ok r1, w1)
    /\ Cache.cachingFetch Fetch cacheRoot url w1 = (Ok r2, w2)
    /\ Cache.fetched w1 = S (Cache.fetched w)
    /\ Cache.fetched w2 = Cache.fetched w1
    /\ Cache._text r1 = Cache.net_text resp
    /\ Cache._text r2 = Cache._text r1
    /\ Cache.headers r2 = Cache.headers r1
    /\ Cache.headers r1 = Cache.to_map (List.filter Cache.kept (Cache.net_headers resp))
    /\ forallb Cache.kept (Cache.headers r1) = true.
Proof.
  intros Horigin Hcold Hdir Hfetch Hok Hsome Hcacheable.
  set (cacheUrl := Cache.resolve_name (Cache.cacheName url) cacheRoot) in *.
  set (m := Cache.to_map (List.filter Cache.kept (Cache.net_headers resp))).
  assert (String.eqb (origin cacheRoot +:+ "/") (origin url +:+ "/") = false) as Hno.
  { apply String.eqb_neq. by intros ?%append_slash_inj. }
  assert (m <> []) as Hm by by apply to_map_nonempty.
  assert (NoDup (map fst m)) as Hnd by (apply fold_map_set_acc; constructor).
  assert (Forall (fun kv => Spec.cacheable kv = true /\ Cache.kept kv = true) m) as Hall.
  { apply fold_map_set_Forall; [|done]. apply Forall_forall. intros kv Hin.
    split.
    - rewrite forallb_forall in Hcacheable. by apply Hcacheable, list_elem_of_In.
    - by apply list_elem_of_In, filter_In in Hin as [_ ?]. }
  assert (forallb Spec.cacheable m = true) as Hmc.
  { apply forallb_forall. intros kv Hin%list_elem_of_In.
    by apply (proj1 (Forall_forall _ _) Hall) in Hin as [? _]. }
  assert (forallb Cache.kept m = true) as Hmk.
  { apply forallb_forall. intros kv Hin%list_elem_of_In.
    by apply (proj1 (Forall_forall _ _) Hall) in Hin as [_ ?]. }
  assert (Storage.is_dir (Cache.storage w) (pathname cacheUrl) = false) as Hnodir.
  { unfold Storage.exists_ in Hcold. by apply orb_false_iff in Hcold as [? _]. }
  set (st' := Storage.mkStorage (Storage.containers (Cache.storage w))
                (<[pathname cacheUrl := Cache.image_of m (Cache.net_text resp)]>
                   (Storage.resources (Cache.storage w)))).
  exists (Cache.mkResponse url m (Cache.net_text resp)),
         (Cache.mkWorld st' (S (Cache.fetched w))),
         (Cache.mkResponse url m (Cache.net_text resp)),
         (Cache.mkWorld st' (S (Cache.fetched w))).
  split; [|split].
  - unfold Cache.cachingFetch. fold cacheUrl. rewrite Hno, Hcold. simpl.
    unfold Cache.getOrThrow. rewrite Hfetch, Hok.
    unfold Storage.write. fold cacheUrl. rewrite Hdir, Hnodir. done.
  - unfold Cache.cachingFetch. fold cacheUrl. rewrite Hno. simpl Cache.storage.
    assert (Storage.exists_ st' cacheUrl = true) as ->.
    { unfold Storage.exists_, Storage.is_file. simpl.
      rewrite lookup_insert_eq. rewrite bool_decide_eq_true_2 by eauto.
      apply orb_true_r. }
    simpl. unfold Storage.read. simpl. rewrite lookup_insert_eq.
    by rewrite parse_image_of.
  - done.
Qed.

Lemma cachingFetch_twice_witness :
  exists r1 w1 r2 w2,
    Cache.cachingFetch Example.network Example.cacheRoot Example.u1 Example.w0 = (Ok r1, w1)
    /\ Cache.cachingFetch Example.network Example.cacheRoot Example.u1 w1 = (Ok r2, w2)
    /\ Cache.fetched w1 = S (Cache.fetched Example.w0)
    /\ Cache.fetched w2 = Cache.fetched w1
    /\ Cache._text r1 = Cache.net_text (Example.response_of "<#one> <#p> <#o>.")
    /\ Cache._text r2 = Cache._text r1
    /\ Cache.headers r2 = Cache.headers r1
    /\ Cache.headers r1
       = Cache.to_map (List.filter Cache.kept
                         (Cache.net_headers (Example.response_of "<#one> <#p> <#o>.")))
    /\ forallb Cache.kept (Cache.headers r1) = true.
Proof.
  apply (cachingFetch_twice Example.network Example.cacheRoot Example.u1 Example.w0
           (Example.response_of "<#one> <#p> <#o>.")).
  - discriminate.
  - reflexivity.
  - reflexivity.
  - reflexivity.
  - reflexivity.
  - vm_compute. discriminate.
  - reflexivity.
Defined.

(** C4 as stated fails on a cache that already has the entry: two
    successive calls ask the network not once but never. *)
Lemma cachingFetch_warm_cache :
  origin Example.cacheRoot <> origin Example.u1
  /\ exists r1 w1 r2 w2,
      Cache.cachingFetch Example.network Example.cacheRoot Example.u1 Example.w_warm = (Ok r1, w1)
      /\ Cache.cachingFetch Example.network Example.cacheRoot Example.u1 w1 = (Ok r2, w2)
      /\ Cache.fetched w2 = Cache.fetched Example.w_warm
      /\ Cache.fetched w2 <> S (Cache.fetched Example.w_warm).
Proof.
  split; [discriminate|].
  destruct (Cache.cachingFetch Example.network Example.cacheRoot Example.u1 Example.w_warm)
    as [r1 w1] eqn:E1.
  vm_compute in E1. injection E1 as <- <-.
  do 4 eexists. split; [reflexivity|]. split; [vm_compute; reflexivity|].
  split; [reflexivity|]. vm_compute. discriminate.
Qed.

(** Outside the amended statement.  When no header is kept, the image
    starts with the empty line and the second call throws a [TypeError];
    when a kept header has a character outside ASCII, [escape] writes what
    [decodeURIComponent] refuses and the second call throws a
    [URIError]. *)
Lemma cachingFetch_no_header_kept :
  exists r1 w1 w2,
    Cache.cachingFetch Example.dated_only Example.cacheRoot Example.u1 Example.w0 = (Ok r1, w1)
    /\ Cache.headers r1 = []
    /\ Cache.cachingFetch Example.dated_only Example.cacheRoot Example.u1 w1
       = (Throw Cache.TypeError_null, w2).
Proof.
  destruct (Cache.cachingFetch Example.dated_only Example.cacheRoot Example.u1 Example.w0)
    as [r1 w1] eqn:E1.
  vm_compute in E1. injection E1 as <- <-.
  do 3 eexists. split; [reflexivity|]. split; [reflexivity|]. vm_compute. reflexivity.
Qed.

Lemma cachingFetch_not_ascii :
  exists r1 w1 w2,
    Cache.cachingFetch Example.latin1 Example.cacheRoot Example.u1 Example.w0 = (Ok r1, w1)
    /\ Cache.cachingFetch Example.latin1 Example.cacheRoot Example.u1 w1
       = (Throw Js.URIError, w2).
Proof.
  destruct (Cache.cachingFetch Example.latin1 Example.cacheRoot Example.u1 Example.w0)
    as [r1 w1] eqn:E1.
  vm_compute in E1. injection E1 as <- <-.
  do 3 eexists. split; [reflexivity|]. vm_compute. reflexivity.
Qed.

(** ** Static instantiation *)

(** *** The storage *)

Lemma lookup_filter_outside {A} dir (m : gmap string A) k :
  filter (Storage.outside dir) m !! k = if Str.startsWith k dir then None else m !! k.
Proof.
  destruct (Str.startsWith k dir) eqn:Hk.
  - apply map_lookup_filter_None. right. intros x _. unfold Storage.outside. simpl. congruence.
  - destruct (m !! k) as [x|] eqn:Hm.
    + by apply map_lookup_filter_Some.
    + apply map_lookup_filter_None. by left.
Qed.

Lemma writeContainer_frame g u st r st' :
  Storage.writeContainer g u st = (r, st') ->
  Storage.resources st' = Storage.resources st
  /\ (forall k, k <> pathname u -> Storage.containers st' !! k = Storage.containers st !! k)
  /\ (forall k, is_Some (Storage.containers st' !! k) <-> is_Some (Storage.containers st !! k))
  /\ (Spec.is_ok r = true -> is_Some (Storage.containers st' !! pathname u)).
Proof.
  unfold Storage.writeContainer.
  destruct (Storage.containers st !! pathname u) as [g0|] eqn:Hu; intros [= <- <-]; simpl.
  - repeat split; try done.
    + intros k Hk. by rewrite lookup_insert_ne.
    + destruct (decide (k = pathname u)) as [->|Hk]; [by rewrite Hu|].
      by rewrite lookup_insert_ne.
    + destruct (decide (k = pathname u)) as [->|Hk]; [by rewrite lookup_insert_eq|].
      by rewrite lookup_insert_ne.
    + by rewrite lookup_insert_eq.
  - repeat split; done.
Qed.

Lemma ensureContainer_frame u title st r st' :
  Storage.ensureContainer u title st = (r, st') ->
  Storage.resources st' = Storage.resources st
  /\ (forall k, k <> pathname u -> Storage.containers st' !! k = Storage.containers st !! k)
  /\ (forall g, r = Ok (false, g) -> is_Some (Storage.containers st' !! pathname u)).
Proof.
  unfold Storage.ensureContainer.
  destruct (Storage.containers st !! pathname u) as [g0|] eqn:Hu.
  { intros [= <- <-]. repeat split; try done; by rewrite Hu. }
  destruct (Storage.is_file st _).
  { intros [= <- <-]. repeat split; done. }
  destruct (Storage.is_dir st _); intros [= <- <-]; simpl.
  - repeat split; try done. intros k Hk. by rewrite lookup_insert_ne.
  - repeat split; done.
Qed.

Lemma removeContainer_inv u st r st' :
  Storage.removeContainer u st = (r, st') ->
  match r with
  | Ok _ =>
      is_Some (Storage.containers st !! pathname u)
      /\ Storage.containers st' = filter (Storage.outside (pathname u)) (Storage.containers st)
      /\ Storage.resources st' = filter (Storage.outside (pathname u)) (Storage.resources st)
  | _ => Storage.containers st !! pathname u = None /\ st' = st
  end.
Proof.
  unfold Storage.removeContainer.
  destruct (Storage.containers st !! pathname u) as [g0|] eqn:Hu; intros [= <- <-]; simpl; eauto.
Qed.

(** *** The lock of a container, one caller at a time *)

Lemma fulfilled_mono (rel rel' : gset nat) p :
  rel ⊆ rel' -> Mutex.fulfilled rel p = true -> Mutex.fulfilled rel' p = true.
Proof.
  intros Hsub. induction p as [|t|p IH|p IHp q IHq]; simpl; [done| |done|].
  - rewrite !bool_decide_eq_true. apply Hsub.
  - rewrite !andb_true_iff. intros [? ?]. auto.
Qed.

(** On a free lock the caller enters at once, and the lock is free again
    when it has called [unlock]. *)
Lemma acquire_idle c :
  Spec.idle (Container._mutex c) = true ->
  exists m t, Container.acquire c = Some (m, t) /\ Spec.idle (Mutex.unlockNext t m) = true.
Proof.
  unfold Spec.idle, Container.acquire, Mutex.lock. simpl. intros Hidle. rewrite Hidle.
  do 2 eexists. split; [done|]. simpl. apply andb_true_iff. split.
  - apply (fulfilled_mono (Mutex.released (Container._mutex c))); [|done].
    apply union_subseteq_r.
  - apply bool_decide_eq_true, elem_of_union. left. by apply elem_of_singleton.
Qed.

(** *** The operations of a container *)

Lemma write_frame c st r c' st' :
  Container.write c st = (r, c', st') ->
  Container.url c' = Container.url c
  /\ Container.graph c' = Container.graph c
  /\ Storage.resources st' = Storage.resources st
  /\ (forall k, k <> pathname (Container.url c) ->
                Storage.containers st' !! k = Storage.containers st !! k)
  /\ (forall k, is_Some (Storage.containers st' !! k) <-> is_Some (Storage.containers st !! k))
  /\ (Spec.idle (Container._mutex c) = true -> Spec.idle (Container._mutex c') = true).
Proof.
  unfold Container.write.
  destruct (Spec.idle (Container._mutex c)) eqn:Hidle.
  - destruct (acquire_idle c Hidle) as (m & t & -> & Hfree).
    destruct (Storage.writeContainer _ _ st) as [r0 st0] eqn:Hw.
    apply writeContainer_frame in Hw as (Hres & Hne & Hex & _).
    destruct r0; intros [= <- <- <-]; done.
  - destruct (Container.acquire c) as [[m t]|].
    + destruct (Storage.writeContainer _ _ st) as [r0 st0] eqn:Hw.
      apply writeContainer_frame in Hw as (Hres & Hne & Hex & _).
      destruct r0; intros [= <- <- <-]; done.
    + intros [= <- <- <-]. done.
Qed.

Lemma remove_inv c st r c' st' :
  Container.remove c st = (r, c', st') ->
  match r with
  | Ok _ =>
      is_Some (Storage.containers st !! pathname (Container.url c))
      /\ Storage.containers st'
         = filter (Storage.outside (pathname (Container.url c))) (Storage.containers st)
      /\ Storage.resources st'
         = filter (Storage.outside (pathname (Container.url c))) (Storage.resources st)
  | Throw _ => Storage.containers st !! pathname (Container.url c) = None /\ st' = st
  | _ => st' = st
  end.
Proof.
  unfold Container.remove. destruct (Container.acquire c) as [[m t]|].
  - destruct (Storage.removeContainer _ st) as [r0 st0] eqn:Hr.
    apply removeContainer_inv in Hr.
    destruct r0; intros [= <- <- <-]; try done; by destruct Hr.
  - intros [= <- <- <-]. done.
Qed.

Lemma loadOrCreate_inv title c st r st' :
  Container.loadOrCreate title c st = (r, st') ->
  Storage.resources st' = Storage.resources st
  /\ (forall k, k <> pathname (Container.url c) ->
                Storage.containers st' !! k = Storage.containers st !! k)
  /\ (forall c1, r = Ok c1 ->
        Container.url c1 = Container.url c
        /\ (Spec.idle (Container._mutex c) = true -> Spec.idle (Container._mutex c1) = true)
        /\ (Container.newDir c1 = Some true
            \/ (Container.newDir c1 = Some false
                /\ is_Some (Storage.containers st' !! pathname (Container.url c))))).
Proof.
  unfold Container.loadOrCreate.
  assert (forall m t, Container.acquire c = Some (m, t) ->
            Spec.idle (Container._mutex c) = true -> Spec.idle (Mutex.unlockNext t m) = true)
    as Hfree.
  { intros m t Hacq Hidle. destruct (acquire_idle c Hidle) as (m' & t' & Hacq' & ?).
    congruence. }
  destruct (Container.acquire c) as [[m t]|].
  - destruct (Storage.ensureContainer _ _ st) as [r0 st0] eqn:He.
    apply ensureContainer_frame in He as (Hres & Hne & Hold).
    destruct r0 as [[nd g]| | |]; intros [= <- <-];
      (split; [done|]); (split; [done|]); [|done..].
    intros c1 [= <-]. simpl. split; [done|]. split; [by apply Hfree|].
    destruct nd; [by left|right]. split; [done|]. by apply (Hold g).
  - intros [= <- <-]. done.
Qed.

Lemma managed_open_inv `{Platform} u title stu path st r st' :
  Container.managed_open (VUrl u) (Container.Title title) stu path st = (r, st') ->
  Storage.resources st' = Storage.resources st
  /\ (forall k, k <> pathname u -> Storage.containers st' !! k = Storage.containers st !! k)
  /\ (forall ret, r = Ok ret ->
        Container.url ret = u /\ is_Some (Storage.containers st' !! pathname u)
        /\ Spec.idle (Container._mutex ret) = true).
Proof.
  unfold Container.managed_open.
  destruct (Container.new (VUrl u) (Container.Title title)) as [c0| | |] eqn:Hnew;
    try (intros [= <- <-]; done).
  assert (Container.url c0 = u /\ Container._mutex c0 = Mutex.new) as [Hu Hm0].
  { unfold Container.new in Hnew. repeat case_match; by simplify_eq. }
  destruct (Container.loadOrCreate title (Container.set_managed c0) st) as [r1 st1] eqn:Hload.
  apply loadOrCreate_inv in Hload as (Hres & Hne & Hok). simpl in Hne, Hok.
  rewrite Hu in Hne, Hok. rewrite Hm0 in Hok.
  destruct stu as [stu| |]; try (intros [= <- <-]; done).
  destruct (URL_new _ stu) as [root| | |]; try (intros [= <- <-]; done).
  destruct r1 as [c1| | |]; try (intros [= <- <-]; done).
  destruct (Hok c1 eq_refl) as (Hu1 & Hidle1 & Hdir). specialize (Hidle1 eq_refl).
  unfold Container.managed_loadOrCreate.
  set (c1' := Container.set_shapeTreeInstanceRoot _ _).
  assert (Spec.idle (Container._mutex c1') = true) as Hidle1' by done.
  destruct (acquire_idle c1' Hidle1') as (m & t & -> & Hfree).
  simpl Container.newDir.
  destruct (Container.newDir c1) as [[]|] eqn:Hnd.
  - destruct (Container.containerText _ _ _) as [s| | |]; try (intros [= <- <-]; done).
    destruct (Storage.writeContainer _ _ st1) as [r2 st2] eqn:Hw.
    apply writeContainer_frame in Hw as (Hres2 & Hne2 & Hex2 & Hok2).
    simpl in Hne2, Hok2. rewrite Hu1 in Hne2, Hok2.
    assert (forall k, k <> pathname u ->
              Storage.containers st2 !! k = Storage.containers st !! k) as Hne'.
    { intros k Hk. rewrite Hne2 by done. by apply Hne. }
    destruct r2; intros [= <- <-]; (split; [congruence|]); (split; [done|]); [|done..].
    intros ret [= <-]. simpl. split; [done|]. split; [by apply Hok2|done].
  - destruct Hdir as [|[_ Hdir]]; [done|].
    destruct (Container.parseShapeTreeInstance _) as [c2| | |] eqn:Hparse;
      intros [= <- <-]; (split; [done|]); (split; [done|]); [|done..].
    intros ret [= <-]. unfold Container.parseShapeTreeInstance in Hparse.
    repeat case_match; by simplify_eq.
  - by destruct Hdir as [|[? _]].
Qed.

(** *** Frames *)

Lemma below_inv base u :
  Spec.below base u = true ->
  Str.startsWith (pathname u) (pathname base) = true
  /\ Str.startsWith (pathname base) (pathname u) = false.
Proof.
  unfold Spec.below. intros [Hpre Hne%negb_true_iff%String.eqb_neq]%andb_true_iff.
  split; [done|]. destruct (Str.startsWith (pathname base) (pathname u)) eqn:Hrev; [|done].
  exfalso. apply Hne. by apply startsWith_antisym.
Qed.

Lemma outside_below base u k :
  Spec.below base u = true ->
  Str.startsWith k (pathname base) = false -> Str.startsWith k (pathname u) = false.
Proof.
  intros [Hpre _]%below_inv Hk.
  destruct (Str.startsWith k (pathname u)) eqn:Hku; [|done].
  by rewrite (startsWith_trans _ _ _ Hku Hpre) in Hk.
Qed.

Lemma nested_frame_refl root st : Spec.nested_frame root st st.
Proof. intros k _. done. Qed.

Lemma nested_frame_trans root st1 st2 st3 :
  Spec.nested_frame root st1 st2 -> Spec.nested_frame root st2 st3 ->
  Spec.nested_frame root st1 st3.
Proof.
  intros H12 H23 k Hk. destruct (H12 k Hk) as (Hr1 & He1 & Hc1).
  destruct (H23 k Hk) as (Hr2 & He2 & Hc2).
  split; [congruence|]. split; [by rewrite He2|].
  intros Hout. rewrite Hc2 by done. by apply Hc1.
Qed.

Lemma frame_nested u rootUrl parent parent' st st' :
  Spec.below rootUrl u = true ->
  pathname (Container.url parent) = pathname rootUrl ->
  Spec.frame u parent parent' st st' ->
  Spec.nested_frame (pathname rootUrl) st st'.
Proof.
  intros Hbelow Hparent (_ & _ & Hframe) k Hk.
  assert (Str.startsWith k (pathname u) = false) as Hout.
  { destruct Hk as [Hk| ->]; [by apply (outside_below rootUrl)|].
    by apply below_inv in Hbelow as [_ ?]. }
  destruct (Hframe k Hout) as (Hres & Hex & Hsame).
  split; [done|]. split; [done|]. intros Hk'. apply Hsame.
  rewrite Hparent. intros ->. by rewrite startsWith_refl in Hk'.
Qed.

Section Nested.
Context `{Platform}.
Variable rec : ShapeTree.RemoteShapeTree -> term -> URL -> string -> Container.Container
               -> Storage.Storage
               -> result Container.Container * Container.Container * Storage.Storage.
Variable g : Store.
Variable fuel : nat.
Hypothesis rec_frame :
  forall step node u path parent st r parent' st',
    ShapeTree.graph step = g ->
    Spec.well_nested fuel g node u = true ->
    rec step node u path parent st = (r, parent', st') ->
    Spec.frame u parent parent' st st'.

Lemma instantiate_nested_frame ts :
  forall shapeTree rootUrl path ret st r ret' st',
    ShapeTree.graph shapeTree = g ->
    pathname (Container.url ret) = pathname rootUrl ->
    forallb (Spec.child_ok (Spec.well_nested fuel g) g rootUrl) ts = true ->
    ShapeTree.instantiate_nested rec shapeTree rootUrl path ts ret st = (r, ret', st') ->
    Container.url ret' = Container.url ret
    /\ (Spec.idle (Container._mutex ret) = true -> Spec.idle (Container._mutex ret') = true)
    /\ Spec.nested_frame (pathname rootUrl) st st'.
Proof.
  induction ts as [|t ts IH]; intros shapeTree rootUrl path ret st r ret' st' Hg Hret Hts.
  { intros [= <- <- <-]. split; [done|]. split; [done|apply nested_frame_refl]. }
  cbn [forallb] in Hts. apply andb_true_iff in Hts as [Ht Hts].
  cbn [ShapeTree.instantiate_nested]. unfold Spec.child_ok in Ht. rewrite Hg.
  destruct (zeroOrOne g _ _ _) as [[labelT|]| | |].
  - destruct (URL_new _ rootUrl) as [nestedUrl| | |];
      try (intros [= <- <- <-]; split; [done|]; split; [done|apply nested_frame_refl]).
    apply andb_true_iff in Ht as [Hbelow Hdeep].
    destruct (rec _ _ nestedUrl _ ret st) as [[r1 ret1] st1] eqn:Hrec.
    apply rec_frame in Hrec; [|done..].
    pose proof (frame_nested _ _ _ _ _ _ Hbelow Hret Hrec) as Hn1.
    destruct Hrec as (Hurl1 & Hidle1 & _).
    destruct r1 as [child| | |];
      try (intros [= <- <- <-]; split; [done|]; split; done).
    destruct (ShapeTree.instantiate_nested rec shapeTree rootUrl path ts ret1 st1)
      as [[r2 ret2] st2] eqn:Hrest.
    apply IH in Hrest as (Hurl2 & Hidle2 & Hn2); [|done|congruence|done].
    destruct r2; intros [= <- <- <-];
      (split; [congruence|]); (split; [auto|by apply nested_frame_trans with st1]).
  - destruct (ShapeTree.instantiate_nested rec shapeTree rootUrl path ts ret st)
      as [[r2 ret2] st2] eqn:Hrest.
    apply IH in Hrest as (Hurl2 & Hidle2 & Hn2); [|done..].
    destruct r2; intros [= <- <- <-]; done.
  - intros [= <- <- <-]. split; [done|]. split; [done|apply nested_frame_refl].
  - intros [= <- <- <-]. split; [done|]. split; [done|apply nested_frame_refl].
  - intros [= <- <- <-]. split; [done|]. split; [done|apply nested_frame_refl].
Qed.

End Nested.

Lemma instantiateStatic_S `{Platform} fuel shapeTree stepNode rootUrl path parent st :
  ShapeTree.instantiateStatic (S fuel) shapeTree stepNode rootUrl path parent st
  = match Container.managed_open (VUrl rootUrl)
            (Container.Title ("index for nested resource " +:+ path))
            (VUrl (ShapeTree.url shapeTree)) path st with
    | (Ok ret, st1) =>
        let parent1 := Container.addMember (href (Container.url ret)) parent in
        match ShapeTree.instantiate_nested (ShapeTree.instantiateStatic fuel) shapeTree
                rootUrl path
                (getQuads (ShapeTree.graph shapeTree) (Some stepNode)
                          (ShapeTree.tree "contents") None)
                ret st1 with
        | (Ok subs, ret2, st2) =>
            let '(_, parent2, st3) := Container.write parent1 st2 in
            (Ok (Container.addSubdirs subs ret2), parent2, st3)
        | (Throw e, ret2, st2) =>
            match Container.remove ret2 st2 with
            | (Ok _, _, st3) =>
                (Throw (ShapeTree.wrap rootUrl e),
                 Container.removeMember (href (Container.url ret2)) parent1, st3)
            | (Throw e', _, st3) => (Throw e', parent1, st3)
            | (Blocked, _, st3) => (Blocked, parent1, st3)
            | (OutOfFuel, _, st3) => (OutOfFuel, parent1, st3)
            end
        | (Blocked, _, st2) => (Blocked, parent1, st2)
        | (OutOfFuel, _, st2) => (OutOfFuel, parent1, st2)
        end
    | (Throw e, st1) => (Throw e, parent, st1)
    | (Blocked, st1) => (Blocked, parent, st1)
    | (OutOfFuel, st1) => (OutOfFuel, parent, st1)
    end.
Proof. reflexivity. Qed.

Lemma outside_ne k dir : Str.startsWith k dir = false -> k <> dir.
Proof. intros Hk ->. by rewrite startsWith_refl in Hk. Qed.

Lemma frame_same u parent parent' st st' :
  Container.url parent' = Container.url parent ->
  Container._mutex parent' = Container._mutex parent ->
  (forall k, Str.startsWith k (pathname u) = false ->
     Storage.resources st' !! k = Storage.resources st !! k
     /\ Storage.containers st' !! k = Storage.containers st !! k) ->
  Spec.frame u parent parent' st st'.
Proof.
  intros Hurl Hmutex Hsame. split; [done|]. split; [by rewrite Hmutex|]. intros k Hk.
  destruct (Hsame k Hk) as [Hres Hcon]. rewrite Hres, Hcon. done.
Qed.

(** What the storage is after the container was opened and its children
    were instantiated, outside the subtree of the container *)
Lemma opened_nested_outside u st st1 st2 :
  Storage.resources st1 = Storage.resources st ->
  (forall k, k <> pathname u -> Storage.containers st1 !! k = Storage.containers st !! k) ->
  Spec.nested_frame (pathname u) st1 st2 ->
  forall k, Str.startsWith k (pathname u) = false ->
    Storage.resources st2 !! k = Storage.resources st !! k
    /\ Storage.containers st2 !! k = Storage.containers st !! k.
Proof.
  intros Hres Hne Hn k Hk. destruct (Hn k (or_introl Hk)) as (Hr & _ & Hc).
  rewrite Hr, Hc, Hres, Hne by (done || by apply outside_ne). done.
Qed.

Lemma instantiateStatic_frame `{Platform} fuel :
  forall shapeTree stepNode u path parent st r parent' st',
    Spec.well_nested fuel (ShapeTree.graph shapeTree) stepNode u = true ->
    ShapeTree.instantiateStatic fuel shapeTree stepNode u path parent st = (r, parent', st') ->
    Spec.frame u parent parent' st st'.
Proof.
  induction fuel as [|fuel IH]; intros shapeTree stepNode u path parent st r parent' st' Hwn.
  { intros [= <- <- <-]. by apply frame_same. }
  rewrite instantiateStatic_S.
  destruct (Container.managed_open _ _ _ _ st) as [r0 st1] eqn:Hopen.
  apply managed_open_inv in Hopen as (Hres1 & Hne1 & Hok1).
  assert (forall k, Str.startsWith k (pathname u) = false ->
            Storage.resources st1 !! k = Storage.resources st !! k
            /\ Storage.containers st1 !! k = Storage.containers st !! k) as Hopened.
  { intros k Hk. rewrite Hres1, Hne1 by by apply outside_ne. done. }
  destruct r0 as [ret| | |]; try (intros [= <- <- <-]; by apply frame_same).
  destruct (Hok1 ret eq_refl) as (Hurl & Hdir & Hidle). cbn zeta.
  destruct (ShapeTree.instantiate_nested _ _ _ _ _ ret st1) as [[r2 ret2] st2] eqn:Hn.
  apply (instantiate_nested_frame _ (ShapeTree.graph shapeTree) fuel) in Hn
    as (Hurl2 & _ & Hnf); [| |done|by rewrite Hurl|exact Hwn].
  2:{ intros step node u' path' parent0 st0 r' parent0' st0' Hg Hwn' Hrun.
      apply (IH step node u' path' parent0 st0 r' parent0' st0'); [by rewrite Hg|done]. }
  pose proof (opened_nested_outside u st st1 st2 Hres1 Hne1 Hnf) as Hout.
  destruct r2 as [subs|e| |].
  - destruct (Container.write _ st2) as [[rw parent2] st3] eqn:Hw.
    apply write_frame in Hw as (Hu & _ & Hres & Hne & Hex & Hfree). simpl in Hu, Hne, Hfree.
    intros [= <- <- <-]. split; [done|]. split; [done|]. intros k Hk.
    destruct (Hout k Hk) as [Hr Hc]. split; [by rewrite Hres|].
    split; [by rewrite Hex, Hc|]. intros Hkp. by rewrite Hne.
  - destruct (Container.remove ret2 st2) as [[rr ret3] st3] eqn:Hr.
    apply remove_inv in Hr. rewrite Hurl2, Hurl in Hr.
    destruct rr; intros [= <- <- <-].
    + destruct Hr as (_ & Hc & Hres). apply frame_same; [done|done|]. intros k Hk.
      rewrite Hc, Hres, !lookup_filter_outside, Hk. by apply Hout.
    + destruct Hr as [_ ->]. by apply frame_same.
    + subst st3. by apply frame_same.
    + subst st3. by apply frame_same.
  - intros [= <- <- <-]. by apply frame_same.
  - intros [= <- <- <-]. by apply frame_same.
Qed.



(** In that run, at the time the child [users] has failed and has been
    rolled back, its sibling [repos], created before it, is still there,
    in the storage and in the statements of the container they share. *)
Lemma failed_child_leaves_sibling :
  exists ret st1 e0 ret2 st2,
    Container.managed_open (H := Node.platform) (VUrl (Example.at_ "/Data/proj/"))
      (Container.Title "index for nested resource .") (VUrl Example.shapes) "." Example.st0
    = (Ok ret, st1)
    /\ ShapeTree.instantiate_nested (H := Node.platform)
         (ShapeTree.instantiateStatic (H := Node.platform) 2) Example.failing_tree
         (Example.at_ "/Data/proj/") "."
         (getQuads Example.failing_graph (Some Example.root_node)
                   (ShapeTree.tree "contents") None)
         ret st1
       = (Throw e0, ret2, st2)
    /\ is_Some (Storage.containers st2 !! "/Data/proj/repos/")
    /\ Storage.containers st2 !! "/Data/proj/users/" = None
    /\ Container.membership ret2 "http://localhost/Data/proj/repos/" ∈ Container.graph ret2
    /\ Container.membership ret2 "http://localhost/Data/proj/users/" ∉ Container.graph ret2.
Proof.
  do 5 eexists.
  split; [vm_compute; reflexivity|].
  split; [vm_compute; reflexivity|].
  split; [vm_compute; eauto|].
  split; [vm_compute; reflexivity|].
  split.
  - apply list_elem_of_In. vm_compute. tauto.
  - intros Hin%list_elem_of_In. vm_compute in Hin.
    repeat (destruct Hin as [Hin|Hin]; [discriminate Hin|]). exact Hin.
Qed.

(** * Further properties *)

(** ** Strings *)

Lemma append_cons c s t : String c s +:+ t = String c (s +:+ t).
Proof. reflexivity. Qed.

Lemma append_nil_r s : s +:+ "" = s.
Proof. induction s as [|c s IH]; [done|]. by rewrite append_cons, IH. Qed.

Lemma append_assoc a b c : (a +:+ b) +:+ c = a +:+ (b +:+ c).
Proof. induction a as [|x a IH]; [done|]. by rewrite !append_cons, IH. Qed.

Lemma append_length a b : String.length (a +:+ b) = String.length a + String.length b.
Proof. induction a as [|x a IH]; [done|]. rewrite append_cons. simpl. by rewrite IH. Qed.

Lemma startsWith_append s t : Str.startsWith (s +:+ t) s = true.
Proof.
  induction s as [|c s IH]; [by destruct t|].
  rewrite append_cons. simpl. by rewrite Ascii.eqb_refl.
Qed.

Lemma rev_app_append s a b : String.rev_app s (a +:+ b) = String.rev_app s a +:+ b.
Proof.
  revert a. induction s as [|c s IH]; intros a; [done|].
  simpl. by rewrite <- IH, append_cons.
Qed.

Lemma rev_append a b : String.rev (a +:+ b) = String.rev b +:+ String.rev a.
Proof.
  unfold String.rev. generalize "" at 1 3 as acc.
  induction a as [|c a IH]; intros acc.
  - change ("" +:+ b) with b. simpl. by rewrite <- rev_app_append.
  - rewrite append_cons. simpl. apply IH.
Qed.

Lemma endsWith_append s t : Str.endsWith (s +:+ t) t = true.
Proof. unfold Str.endsWith. rewrite rev_append. apply startsWith_append. Qed.

(** ** The lock: its queue and its counter *)

(** The callers that wait hold the tickets after the ones that entered,
    in the order of their calls of [lock]. *)
Lemma waiting_tickets s :
  Mutex.reachable s ->
  map fst (Mutex.waiting s)
  = seq (length (Mutex.entered s))
        (Mutex.issued (Mutex.mutex s) - length (Mutex.entered s)).
Proof.
  unfold Mutex.reachable. intros Hreach.
  apply (rtc_ind_r (R := Mutex.step)
           (fun s => map fst (Mutex.waiting s)
                     = seq (length (Mutex.entered s))
                           (Mutex.issued (Mutex.mutex s) - length (Mutex.entered s)))
           Mutex.start); [done| |exact Hreach].
  clear s Hreach. intros s s' Hreach Hstep IH.
  pose proof (lock_invariant_reachable s Hreach) as (_ & _ & Hk & Hwait & Hrel & _).
  destruct Hstep as [s|s t p Hin Hful|s t Hin]; cbn [Mutex.waiting Mutex.entered Mutex.mutex].
  - rewrite map_app, IH. simpl.
    replace (S (Mutex.issued (Mutex.mutex s)) - length (Mutex.entered s))
      with (S (Mutex.issued (Mutex.mutex s) - length (Mutex.entered s))) by lia.
    rewrite seq_S. do 2 f_equal. lia.
  - destruct (Hwait t p Hin) as [-> [Hkt Htn]].
    simpl in Hful. rewrite fulfilled_chain in Hful.
    assert (t = length (Mutex.entered s)) as ->.
    { destruct (decide (t = length (Mutex.entered s))) as [|Hne]; [done|].
      assert (length (Mutex.entered s) ∈ Mutex.released (Mutex.mutex s)) as Hin'
        by (apply Hful; lia).
      apply Hrel in Hin'. lia. }
    set (k := length (Mutex.entered s)) in *.
    assert (forall l : list (nat * Mutex.promise),
              map fst (List.filter (fun w => negb (Nat.eqb (fst w) k)) l)
              = List.filter (fun x => negb (Nat.eqb x k)) (map fst l)) as Hmap.
    { induction l as [|w l IHl]; [done|]. simpl. destruct (negb _); simpl; by rewrite IHl. }
    rewrite Hmap, IH. cbn [length].
    destruct (Mutex.issued (Mutex.mutex s) - k) as [|n] eqn:Hn; [lia|].
    cbn [seq List.filter]. rewrite Nat.eqb_refl. cbn [negb].
    assert (forall a m, k < a -> List.filter (fun x => negb (Nat.eqb x k)) (seq a m) = seq a m)
      as Hrest.
    { intros a m. revert a. induction m as [|m IHm]; intros a Ha; [done|].
      cbn [seq List.filter]. destruct (Nat.eqb_spec a k); [lia|]. cbn [negb].
      f_equal. apply IHm. lia. }
    rewrite Hrest by lia. f_equal; lia.
  - exact IH.
Qed.

Lemma length_filter_remove (l : list nat) (t : nat) :
  NoDup l -> t ∈ l ->
  S (length (List.filter (fun r => negb (Nat.eqb r t)) l)) = length l.
Proof.
  induction l as [|a l IH]; intros Hnd Hin; [by apply elem_of_nil in Hin|].
  apply NoDup_cons in Hnd as [Ha Hnd]. cbn [List.filter length].
  destruct (Nat.eqb_spec a t) as [->|Hne]; cbn [negb].
  - f_equal. clear IH Hin Hnd. induction l as [|b l IH]; [done|].
    cbn [List.filter length]. destruct (Nat.eqb_spec b t) as [->|_].
    + exfalso. apply Ha. by left.
    + cbn [negb length]. f_equal. apply IH. intros Hin. apply Ha. by right.
  - cbn [length]. f_equal. apply IH; [done|].
    apply elem_of_cons in Hin as [->|Hin]; [done|exact Hin].
Qed.

(** X1.  At any time of any interleaving, the counter [_locks] of a lock
    is the number of callers that wait for the lock or hold it: [lock]
    counts a caller in, and the [unlockNext] that it was given counts it
    out. *)
Theorem locks_counts_callers (s : Mutex.clients) :
  Mutex.reachable s ->
  Mutex._locks (Mutex.mutex s)
  = Z.of_nat (length (Mutex.waiting s) + length (Mutex.running s)).
Proof.
  unfold Mutex.reachable. intros Hreach.
  apply (rtc_ind_r (R := Mutex.step)
           (fun s => Mutex._locks (Mutex.mutex s)
                     = Z.of_nat (length (Mutex.waiting s) + length (Mutex.running s)))
           Mutex.start); [done| |exact Hreach].
  clear s Hreach. intros s s' Hreach Hstep IH.
  pose proof (lock_invariant_reachable s Hreach) as (_ & _ & _ & _ & _ & _ & _ & Hnodup).
  pose proof (waiting_tickets s Hreach) as Htickets.
  destruct Hstep as [s|s t p Hin Hful|s t Hin];
    cbn [Mutex.waiting Mutex.running Mutex.mutex Mutex.lock Mutex.unlockNext Mutex._locks fst].
  - rewrite IH, length_app. simpl. lia.
  - assert (NoDup (map fst (Mutex.waiting s))) as Hnd.
    { rewrite Htickets. apply NoDup_ListNoDup, List.seq_NoDup. }
    assert (forall l : list (nat * Mutex.promise),
              length (List.filter (fun w => negb (Nat.eqb (fst w) t)) l)
              = length (List.filter (fun r => negb (Nat.eqb r t)) (map fst l))) as Hlen.
    { induction l as [|w l IHl]; [done|]. simpl. destruct (negb _); simpl; by rewrite IHl. }
    assert (t ∈ map fst (Mutex.waiting s)) as Ht.
    { apply list_elem_of_fmap. by exists (t, p). }
    pose proof (length_filter_remove _ t Hnd Ht) as Hrem.
    rewrite length_map in Hrem. rewrite IH, Hlen. cbn [length]. lia.
  - pose proof (length_filter_remove _ t Hnodup Hin) as Hrem. rewrite IH. lia.
Qed.

Lemma locks_counts_callers_witness :
  Mutex._locks (Mutex.mutex Example.three_waiting) = 3%Z.
Proof. exact (locks_counts_callers Example.three_waiting three_waiting_reachable). Defined.

(** X2.  No wake-up is lost: whenever callers wait for a lock that no
    caller holds, the promise of the caller that has waited longest is
    fulfilled, so that caller can enter; it holds the ticket that follows
    the ones that entered. *)
Theorem lock_makes_progress (s : Mutex.clients) :
  Mutex.reachable s ->
  Mutex.waiting s <> [] ->
  Mutex.running s = [] ->
  exists t p rest,
    Mutex.waiting s = (t, p) :: rest
    /\ t = length (Mutex.entered s)
    /\ Mutex.fulfilled (Mutex.released (Mutex.mutex s)) p = true
    /\ Mutex.step s (Mutex.mkClients (Mutex.mutex s) rest [t] (t :: Mutex.entered s)).
Proof.
  intros Hreach Hne Hidle.
  pose proof (lock_invariant_reachable s Hreach) as (_ & _ & Hk & Hwait & Hrel & Hdone & _).
  pose proof (waiting_tickets s Hreach) as Htickets.
  destruct (Mutex.waiting s) as [|[t p] rest] eqn:Hw; [done|].
  exists t, p, rest. split; [done|].
  cbn [map fst] in Htickets.
  destruct (Mutex.issued (Mutex.mutex s) - length (Mutex.entered s)) as [|n] eqn:Hn;
    [done|].
  cbn [seq] in Htickets. injection Htickets as Ht Hrest.
  split; [done|].
  assert ((t, p) ∈ (t, p) :: rest) as Hin' by (by left).
  destruct (Hwait t p Hin') as [Hp _].
  assert ((t, p) ∈ Mutex.waiting s) as Hin by (by rewrite Hw).
  assert (Mutex.fulfilled (Mutex.released (Mutex.mutex s)) p = true) as Hful.
  { rewrite Hp. cbn [Mutex.fulfilled]. apply fulfilled_chain. intros j Hj.
    destruct (Hdone j) as [?|Hrun]; [lia|done|]. rewrite Hidle in Hrun.
    by apply elem_of_nil in Hrun. }
  split; [done|].
  pose proof (Mutex.step_resume s t p Hin Hful) as Hstep.
  rewrite Hidle, Hw in Hstep. cbn [List.filter fst] in Hstep.
  rewrite Nat.eqb_refl in Hstep. cbn [negb] in Hstep.
  assert (List.filter (fun w : nat * Mutex.promise => negb (Nat.eqb (fst w) t)) rest = rest)
    as Hkeep.
  { assert (Forall (fun x => t < x) (map fst rest)) as Hgt.
    { rewrite Hrest. apply Forall_forall. intros x Hx%list_elem_of_In%in_seq. lia. }
    clear -Hgt. induction rest as [|w rest IH]; [done|].
    cbn [map] in Hgt. apply Forall_cons in Hgt as [Hw Hgt].
    cbn [List.filter]. destruct (Nat.eqb_spec (fst w) t); [lia|]. cbn [negb].
    f_equal. by apply IH. }
  by rewrite Hkeep in Hstep.
Qed.

Lemma queue_reachable : Mutex.reachable Demo.queue.
Proof.
  unfold Mutex.reachable.
  eapply rtc_l; [apply Mutex.step_lock|].
  eapply rtc_l; [apply Mutex.step_lock|].
  apply rtc_refl.
Defined.

Lemma lock_makes_progress_witness :
  exists t p rest,
    Mutex.waiting Demo.queue = (t, p) :: rest
    /\ t = length (Mutex.entered Demo.queue)
    /\ Mutex.fulfilled (Mutex.released (Mutex.mutex Demo.queue)) p = true
    /\ Mutex.step Demo.queue
         (Mutex.mkClients (Mutex.mutex Demo.queue) rest [t] (t :: Mutex.entered Demo.queue)).
Proof.
  apply (lock_makes_progress Demo.queue queue_reachable); [discriminate|reflexivity].
Defined.

(** ** Walks through a shape tree, in two parts *)

Lemma split_nonempty sep s : Str.split sep s <> [].
Proof.
  destruct s as [|c s]; [done|]. cbn [Str.split].
  destruct (Ascii.eqb c sep); [done|]. by destruct (Str.split sep s).
Qed.

Lemma split_append sep p q :
  Str.split sep (p +:+ String sep q) = Str.split sep p ++ Str.split sep q.
Proof.
  induction p as [|c p IH].
  - change ("" +:+ String sep q) with (String sep q). cbn [Str.split app].
    by rewrite Ascii.eqb_refl.
  - rewrite append_cons. cbn [Str.split]. rewrite IH.
    destruct (Ascii.eqb c sep); [done|].
    pose proof (split_nonempty sep p) as Hne.
    by destruct (Str.split sep p).
Qed.

(** X18.  [getRdfRoot] composes along the path: the walk along
    [p/q] is the walk along [p] followed, from the node where that ends,
    by the steps of [q]; it fails where the walk along [p] fails. *)
Theorem getRdfRoot_in_two_parts (url : URL) (g : Store) (p q : string) :
  ShapeTree.getRdfRoot (ShapeTree.mkRemoteShapeTree url (p +:+ "/" +:+ q) g)
  = fold_left (ShapeTree.getRdfRoot_step g) (Str.split "/" q)
              (ShapeTree.getRdfRoot (ShapeTree.mkRemoteShapeTree url p g))
  /\ (forall m,
        ShapeTree.getRdfRoot (ShapeTree.mkRemoteShapeTree url (p +:+ "/" +:+ q) g) = Ok m
        <-> exists n,
              ShapeTree.getRdfRoot (ShapeTree.mkRemoteShapeTree url p g) = Ok n
              /\ Spec.walks g n (Str.split "/" q) m).
Proof.
  assert (ShapeTree.getRdfRoot (ShapeTree.mkRemoteShapeTree url (p +:+ "/" +:+ q) g)
          = fold_left (ShapeTree.getRdfRoot_step g) (Str.split "/" q)
                      (ShapeTree.getRdfRoot (ShapeTree.mkRemoteShapeTree url p g))) as Hsplit.
  { unfold ShapeTree.getRdfRoot. cbn [ShapeTree.path ShapeTree.graph ShapeTree.url].
    change ("/" +:+ q) with (String "/" q). by rewrite split_append, fold_left_app. }
  split; [done|]. intros m. rewrite Hsplit.
  destruct (ShapeTree.getRdfRoot (ShapeTree.mkRemoteShapeTree url p g)) as [n| | |] eqn:Hp.
  - rewrite getRdfRoot_walks. split; [by exists n|]. by intros (n' & [= <-] & ?).
  - rewrite getRdfRoot_fold_failed by done. split; [done|]. by intros (n' & [=] & _).
  - rewrite getRdfRoot_fold_failed by done. split; [done|]. by intros (n' & [=] & _).
  - rewrite getRdfRoot_fold_failed by done. split; [done|]. by intros (n' & [=] & _).
Qed.

(** ** Link headers *)

Lemma lazy_capture {A} (k : string -> string -> option A) c t s acc r :
  (forall x y z, k (String x y) z <> None -> x = c) ->
  Notions.free_of (fun d => Ascii.eqb d c || Links.line_terminator d) t = true ->
  k (String c s) (acc +:+ t) = Some r ->
  Links.lazy k (t +:+ String c s) acc = Some r.
Proof.
  intros Hk. revert acc. induction t as [|d t IH]; intros acc Hfree Hr.
  - rewrite append_nil_r in Hr. simpl. by rewrite Hr.
  - cbn [Notions.free_of] in Hfree.
    apply andb_true_iff in Hfree as [Hd Hfree].
    apply negb_true_iff, orb_false_iff in Hd as [Hdc Hlt].
    rewrite append_cons. cbn [Links.lazy].
    destruct (k (String d (t +:+ String c s)) acc) eqn:Hkd.
    + exfalso. assert (d = c) as -> by (eapply Hk; by rewrite Hkd).
      by rewrite Ascii.eqb_refl in Hdc.
    + rewrite Hlt. apply IH; [done|].
      by rewrite append_assoc, append_cons.
Qed.

Lemma pattern_parts :
  Links.pattern = Links.Chr "<" :: Links.Group :: Notions.pattern_middle ++ Links.Group :: Notions.pattern_end.
Proof. reflexivity. Qed.

Lemma exec_end_last caps :
  Links.exec Notions.pattern_end (String Links.dquote "") caps = Some (caps, "").
Proof. reflexivity. Qed.

Lemma exec_end_more caps x :
  Links.exec Notions.pattern_end (String Links.dquote (", " +:+ String "<" x)) caps
  = Some (caps, String "<" x).
Proof. reflexivity. Qed.

Lemma exec_end_first x y z :
  Links.exec Notions.pattern_end (String x y) z <> None -> x = Links.dquote.
Proof.
  unfold Notions.pattern_end. cbn [Links.exec]. destruct (Ascii.eqb_spec Links.dquote x); [done|].
  by intros [].
Qed.

Lemma exec_chr c p s caps :
  Links.exec (Links.Chr c :: p) (String c s) caps = Links.exec p s caps.
Proof. cbn [Links.exec]. by rewrite Ascii.eqb_refl. Qed.

Lemma exec_chr_ne c d p s caps :
  Ascii.eqb c d = false -> Links.exec (Links.Chr c :: p) (String d s) caps = None.
Proof. intros Hne. cbn [Links.exec]. by rewrite Hne. Qed.

Lemma exec_star_stop c d p s caps :
  Ascii.eqb c d = false ->
  Links.exec (Links.Star c :: p) (String d s) caps = Links.exec p (String d s) caps.
Proof. intros Hne. cbn [Links.exec Links.star]. by rewrite Hne. Qed.

Lemma exec_star_one c d p s caps :
  Ascii.eqb c d = false ->
  Links.exec (Links.Star c :: p) (String c (String d s)) caps
  = match Links.exec p (String d s) caps with
    | Some r => Some r
    | None => Links.exec p (String c (String d s)) caps
    end.
Proof. intros Hne. cbn [Links.exec Links.star]. by rewrite Ascii.eqb_refl, Hne. Qed.

Lemma exec_middle p caps s :
  Links.exec (Notions.pattern_middle ++ p) (">; rel=" +:+ String Links.dquote s) caps
  = Links.exec p s caps.
Proof.
  unfold Notions.pattern_middle. cbn [app].
  change (">; rel=" +:+ String Links.dquote s)
    with (String ">" (String ";" (String " " (String "r" (String "e" (String "l"
            (String "=" (String Links.dquote s)))))))).
  rewrite exec_chr, exec_star_stop, exec_chr, exec_star_one by reflexivity.
  rewrite (exec_chr_ne "r" " ") by reflexivity.
  rewrite !exec_chr, exec_star_stop, exec_chr, exec_star_stop, exec_chr by reflexivity.
  by destruct (Links.exec p s caps).
Qed.

Lemma exec_middle_first p x y z :
  Links.exec (Notions.pattern_middle ++ p) (String x y) z <> None -> x = ">"%char.
Proof.
  unfold Notions.pattern_middle. cbn [app Links.exec]. destruct (Ascii.eqb_spec ">" x); [done|].
  by intros [].
Qed.

(** One link at the start of a header: the pattern captures its
    target and its relation, and takes the separator with it. *)
Lemma exec_link l rest rest' :
  Notions.target_ok (fst l) = true ->
  Notions.rel_ok (snd l) = true ->
  (rest = "" /\ rest' = "") \/ (exists x, rest = ", " +:+ String "<" x /\ rest' = String "<" x) ->
  Links.exec Links.pattern (Notions.link l +:+ rest) [] = Some ([fst l; snd l], rest').
Proof.
  intros Ht [Hr _]%andb_true_iff Hrest. destruct l as [t r]. cbn [fst snd] in *.
  unfold Notions.link. cbn [fst snd]. rewrite pattern_parts.
  rewrite !append_assoc, (append_cons Links.dquote), append_assoc, (append_cons Links.dquote).
  change ("" +:+ rest) with rest.
  change ("<" +:+ ?x) with (String "<" x).
  rewrite exec_chr. cbn [Links.exec].
  change (">; rel=" +:+ ?x) with (String ">" ("; rel=" +:+ x)).
  apply lazy_capture.
  - intros x y z. apply exec_middle_first.
  - exact Ht.
  - change ("" +:+ t) with t. cbn [app].
    change (String ">" ("; rel=" +:+ ?x)) with (">; rel=" +:+ x).
    rewrite exec_middle. cbn [Links.exec].
    apply lazy_capture.
    + intros x y z. apply exec_end_first.
    + exact Hr.
    + change ("" +:+ r) with r. cbn [app].
      destruct Hrest as [[-> ->]|(x & -> & ->)];
        [apply exec_end_last|apply exec_end_more].
Qed.

Lemma link_head l : exists x, Notions.link l = String "<" x.
Proof. unfold Notions.link. by eexists. Qed.

Lemma header_head l ls : exists x, Notions.header (l :: ls) = String "<" x.
Proof.
  unfold Notions.header. destruct (link_head l) as [x Hx]. cbn [map ShapeTree.join].
  rewrite Hx. destruct (map Notions.link ls); [by eexists|].
  rewrite append_cons. by eexists.
Qed.

Lemma header_cons l l' ls :
  Notions.header (l :: l' :: ls) = Notions.link l +:+ ", " +:+ Notions.header (l' :: ls).
Proof. reflexivity. Qed.

Lemma split_header ls :
  Forall (fun l => Notions.target_ok (fst l) = true /\ Notions.rel_ok (snd l) = true) ls ->
  forall l fuel, String.length (Notions.header (l :: ls)) < fuel ->
    Notions.target_ok (fst l) = true -> Notions.rel_ok (snd l) = true ->
    Links.split fuel "" (Notions.header (l :: ls)) = Ok (Notions.components (l :: ls)).
Proof.
  induction 1 as [|l' ls [Ht' Hr'] Hls IH]; intros l fuel Hfuel Ht Hr.
  - change (Notions.header [l]) with (Notions.link l) in *.
    destruct fuel as [|[|fuel]]; [lia| |].
    { destruct (link_head l) as [x Hx]. rewrite Hx in Hfuel. simpl in Hfuel. lia. }
    destruct (link_head l) as [x Hx]. rewrite Hx. cbn [Links.split]. rewrite <- Hx.
    rewrite <- (append_nil_r (Notions.link l)).
    by rewrite (exec_link l "" "") by auto.
  - rewrite header_cons in *. destruct fuel as [|fuel]; [lia|].
    destruct (link_head l) as [x Hx]. destruct (header_head l' ls) as [y Hy].
    rewrite Hx, append_cons. cbn [Links.split]. rewrite <- append_cons, <- Hx.
    rewrite Hy, (exec_link l _ (String "<" y)) by eauto.
    rewrite <- Hy, IH; [done| |done|done].
    rewrite !append_length in Hfuel. simpl in Hfuel. lia.
Qed.

Lemma assign_components ls m :
  Forall (fun l => Notions.target_ok (fst l) = true /\ Notions.rel_ok (snd l) = true) ls ->
  Links.assign (tail (Notions.components ls)) m
  = fold_left (fun m l => <[snd l := fst l]> m) ls m.
Proof.
  intros Hls. revert m. induction Hls as [|l ls [_ Hr] _ IH]; intros m; [done|].
  cbn [Notions.components tail fold_left]. rewrite <- IH.
  apply andb_true_iff in Hr as [_ Hr]. apply negb_true_iff in Hr.
  destruct ls as [|l' ls]; cbn [Notions.components Links.assign tail];
    unfold Links.assign_key; by rewrite Hr.
Qed.

(** X3.  [parseLinks] reads a header as it is written: for links
    [<target>; rel="relation"] separated by [", "], whose targets have no
    ['>'], whose relations have no double quote and are not [__proto__],
    and which have no line break, the table maps every relation to the
    target of the last link of that relation, and holds nothing else. *)
Theorem parseLinks_written (ls : list (string * string)) :
  Forall (fun l => Notions.target_ok (fst l) = true /\ Notions.rel_ok (snd l) = true) ls ->
  Links.parseLinks (Some (Notions.header ls)) = Ok (Notions.table ls).
Proof.
  intros Hls. destruct ls as [|l ls]; [done|].
  unfold Links.parseLinks. destruct (header_head l ls) as [x Hx].
  rewrite Hx at 1. cbn [String.eqb]. 
  pose proof Hls as [[Ht Hr] Hls']%Forall_cons.
  rewrite split_header by (auto; lia).
  by rewrite assign_components.
Qed.

Lemma parseLinks_written_witness :
  Links.parseLinks (Some (Notions.header Demo.sent)) = Ok (Notions.table Demo.sent)
  /\ Notions.table Demo.sent !! "shapeTree" = Some "http://shapes.example/tree#root"
  /\ Links.ldpType (Notions.table Demo.sent) = Ok "Container".
Proof.
  split; [|split; reflexivity].
  apply (parseLinks_written Demo.sent).
  repeat (apply Forall_cons; split; [split; reflexivity|]). apply Forall_nil_2.
Defined.

Lemma star_length {A} (len : A -> nat) c (k : string -> option A) :
  (forall s r, k s = Some r -> len r <= String.length s) ->
  forall s r, Links.star c k s = Some r -> len r <= String.length s.
Proof.
  intros Hk. induction s as [|d s IH]; intros r; cbn [Links.star]; [apply Hk|].
  destruct (Ascii.eqb c d); [|apply Hk].
  destruct (Links.star c k s) as [r'|] eqn:Hs; [|apply Hk].
  intros [= <-]. specialize (IH r' eq_refl). simpl. lia.
Qed.

Lemma lazy_length {A} (len : A -> nat) (k : string -> string -> option A) :
  (forall s acc r, k s acc = Some r -> len r <= String.length s) ->
  forall s acc r, Links.lazy k s acc = Some r -> len r <= String.length s.
Proof.
  intros Hk. induction s as [|d s IH]; intros acc r; cbn [Links.lazy].
  - destruct (k "" acc) eqn:Hks; [|done]. intros [= <-]. by apply Hk in Hks.
  - destruct (k (String d s) acc) eqn:Hks.
    + intros [= <-]. by apply Hk in Hks.
    + destruct (Links.line_terminator d); [done|]. intros Hl%IH. simpl. lia.
Qed.

Lemma exec_length p :
  forall s caps r, Links.exec p s caps = Some r -> String.length (snd r) <= String.length s.
Proof.
  induction p as [|[c|c|c|] p IH]; intros s caps r; cbn [Links.exec].
  - by intros [= <-].
  - destruct s as [|d s]; [done|]. destruct (Ascii.eqb c d); [|done].
    intros Hr%IH. simpl. lia.
  - apply (star_length (fun r => String.length (snd r))). intros s' r'. apply IH.
  - destruct s as [|d s]; [apply IH|]. destruct (Ascii.eqb c d); [|apply IH].
    destruct (Links.exec p s caps) as [r'|] eqn:Hs; [|apply IH].
    intros [= <-]. apply IH in Hs. simpl. lia.
  - apply (lazy_length (fun r => String.length (snd r))). intros s' acc r'. apply IH.
Qed.

Lemma split_answers fuel :
  forall pre s, String.length s < fuel -> exists l, Links.split fuel pre s = Ok l.
Proof.
  induction fuel as [|fuel IH]; intros pre s Hfuel; [lia|].
  destruct s as [|c s]; cbn [Links.split]; [by eexists|].
  destruct (Links.exec Links.pattern (String c s) []) as [[caps rest]|] eqn:Hexec.
  - rewrite pattern_parts in Hexec. cbn [Links.exec] in Hexec.
    destruct (Ascii.eqb "<" c); [|done].
    apply (lazy_length (fun r => String.length (snd r))) in Hexec;
      [|intros s' acc r'; apply exec_length].
    destruct (IH "" rest) as [l ->]; [simpl in *; lia|]. by eexists.
  - apply IH. simpl in Hfuel. lia.
Qed.

Lemma split_plain fuel :
  forall pre s, String.length s < fuel ->
    Notions.free_of (fun c => Ascii.eqb c "<") s = true ->
    Links.split fuel pre s = Ok [pre +:+ s].
Proof.
  induction fuel as [|fuel IH]; intros pre s Hfuel Hfree; [lia|].
  destruct s as [|c s]; cbn [Links.split]; [by rewrite append_nil_r|].
  cbn [Notions.free_of] in Hfree. apply andb_true_iff in Hfree as [Hc Hfree].
  apply negb_true_iff in Hc. rewrite pattern_parts. cbn [Links.exec].
  rewrite Ascii.eqb_sym, Hc. rewrite IH; [|simpl in Hfuel; lia|done].
  by rewrite append_assoc.
Qed.

(** X4.  [parseLinks] answers every header with a table: it does not
    throw, whatever the text is.  A header that is [null], empty, or
    without a ['<'] gives the empty table. *)
Theorem parseLinks_answers (linkHeader : option string) :
  exists ret,
    Links.parseLinks linkHeader = Ok ret
    /\ (match linkHeader with
        | None => True
        | Some h => Notions.free_of (fun c => Ascii.eqb c "<") h = true
        end -> ret = ∅).
Proof.
  destruct linkHeader as [h|]; [|by exists ∅].
  unfold Links.parseLinks. destruct (String.eqb h ""); [by exists ∅|].
  destruct (split_answers (S (String.length h)) "" h) as [l Hl]; [lia|].
  rewrite Hl. eexists. split; [done|]. intros Hfree.
  rewrite split_plain in Hl by (done || lia). by injection Hl as <-.
Qed.

(** ** Response objects *)

(** X5.  Header names are case-insensitive: [get] finds what [set]
    stored under any spelling of the name that has the same lower-case
    form, and [set] under one name leaves the other names alone.  A
    stored value that is falsy (the empty string, the number 0) reads
    back as [null]. *)
Theorem headers_get_set (h : Http.Headers) (name name' : string) (v : Http.value) :
  Http.get name' (Http.set name v h)
  = if String.eqb (Http.toLowerCase name') (Http.toLowerCase name)
    then (if Http.truthy v then Some v else None)
    else Http.get name' h.
Proof.
  unfold Http.get, Http.set, Http.Headers in *.
  destruct (String.eqb_spec (Http.toLowerCase name') (Http.toLowerCase name)) as [->|Hne].
  - by rewrite lookup_insert_eq.
  - by rewrite lookup_insert_ne.
Qed.

Lemma toLowerCase_length s : String.length (Http.toLowerCase s) = String.length s.
Proof. induction s as [|c s IH]; [done|]. simpl. by rewrite IH. Qed.

(** X6.  The response that [errorResponse] makes of an exception: its
    body is the JSON text, its status is the status of the exception; it
    has two headers, the length of the body and the content type
    [application/json], which has replaced the [text/plain] of the
    constructor because header names are stored in lower case; and its
    [ok] is still [true]. *)
Theorem errorResponse_shape (ResponseCodes : N -> option string)
        (json_members : Dispatch.thrown -> string) (e : Dispatch.thrown) (url : URL) :
  let r := Http.errorResponse ResponseCodes json_members e url in
  Http._text r = "{" +:+ json_members e +:+ "}"
  /\ Http._status r = Dispatch.exn_status e
  /\ Http.statusText r = (s ← Dispatch.exn_status e; ResponseCodes s)
  /\ Http.ok r = true
  /\ Http.get "Content-Type" (Http.headers r) = Some (Http.Text "application/json")
  /\ Http.get "Content-Length" (Http.headers r)
     = Some (Http.Number (N.of_nat (String.length (Http._text r))))
  /\ dom (Http.headers r) = {[ "content-type"; "content-length" ]}.
Proof.
  intros r. unfold r, Http.errorResponse, Http.new, Http.Headers.
  change ("{" +:+ json_members e +:+ "}") with (String "{" (json_members e +:+ "}")).
  change (negb (String.eqb (String "{" (json_members e +:+ "}")) "")) with true.
  cbn [Http.set_status Http.set_headers Http.headers Http._text Http._status
       Http.statusText Http.ok Http.url Http.bodyUsed].
  split; [done|]. split; [done|]. split; [by destruct (Dispatch.exn_status e)|].
  unfold Http.set, Http.get, Http.Headers.
  repeat match goal with
         | |- context [Http.toLowerCase ?s] =>
             let l := eval vm_compute in (Http.toLowerCase s) in
             change (Http.toLowerCase s) with l
         end.
  split; [done|]. split; [|split].
  - by rewrite lookup_insert_eq.
  - by rewrite !lookup_insert_ne, lookup_insert_eq by done.
  - rewrite !dom_insert_L, dom_empty_L. set_solver.
Qed.

(** ** Names for new members *)

(** What a successful search has seen: the candidates before the one it
    returns exist, and the one it returns does not. *)
Lemma search_inv `{Platform} fuel parentUrl slug type st :
  forall unique name u,
    FsPromise.search fuel parentUrl slug type unique st = Ok (name, u) ->
    exists k,
      unique <= k < unique + fuel
      /\ name = FsPromise.candidate slug type k
      /\ URL_new name parentUrl = Ok u
      /\ Storage.exists_ st u = false
      /\ forall i, unique <= i < k ->
           exists ui, URL_new (FsPromise.candidate slug type i) parentUrl = Ok ui
                      /\ Storage.exists_ st ui = true.
Proof.
  induction fuel as [|fuel IH]; intros unique name u; cbn [FsPromise.search]; [done|].
  destruct (URL_new (FsPromise.candidate slug type unique) parentUrl) as [u0| | |] eqn:Hu;
    try done.
  destruct (Storage.exists_ st u0) eqn:Hex.
  - intros (k & Hk & -> & Hnew & Hfree & Hbefore)%IH.
    exists k. split; [lia|]. split; [done|]. split; [done|]. split; [done|].
    intros i Hi. destruct (decide (i = unique)) as [->|Hne]; [by exists u0|].
    apply Hbefore. lia.
  - intros [= <- <-]. exists unique. split; [lia|]. split; [done|]. split; [done|].
    split; [done|]. intros i Hi. lia.
Qed.

(** X7.  [invent] never overwrites: when it succeeds, the name it
    returns is the first of [slug], [slug-1], [slug-2], ... ([Resource]
    for an empty slug) that named nothing in the parent; the body is
    stored under that name, and every resource and every container that
    the storage had is as it was. *)
Theorem invent_never_overwrites `{Platform} (fuel : nat) (parentUrl : URL)
        (requestedName : option string) (body : list N) (st st' : Storage.Storage)
        (name : string) :
  FsPromise.invent fuel parentUrl requestedName body st = (Ok (name, tt), st') ->
  exists k u,
    name = FsPromise.candidate requestedName "Resource" k
    /\ URL_new name parentUrl = Ok u
    /\ Storage.exists_ st u = false
    /\ (forall i, i < k ->
          exists ui, URL_new (FsPromise.candidate requestedName "Resource" i) parentUrl = Ok ui
                     /\ Storage.exists_ st ui = true)
    /\ Storage.containers st' = Storage.containers st
    /\ Storage.resources st' !! pathname u = Some body
    /\ Storage.resources st ⊆ Storage.resources st'.
Proof.
  unfold FsPromise.invent, FsPromise.firstAvailable.
  destruct (FsPromise.search fuel parentUrl requestedName "Resource" 0 st)
    as [[name0 u]| | |] eqn:Hsearch; try done.
  apply search_inv in Hsearch as (k & Hk & -> & Hnew & Hfree & Hbefore).
  unfold Storage.write.
  destruct (Storage.is_dir st (Str.dirname (pathname u)) && negb (Storage.is_dir st (pathname u)));
    [|done].
  intros [= <- <-]. exists k, u. split; [done|]. split; [done|]. split; [done|].
  split; [intros i Hi; apply Hbefore; lia|]. cbn [Storage.containers Storage.resources].
  split; [done|]. split; [by rewrite lookup_insert_eq|].
  apply insert_subseteq. unfold Storage.exists_ in Hfree.
  apply orb_false_iff in Hfree as [_ Hfile]. unfold Storage.is_file in Hfile.
  apply bool_decide_eq_false in Hfile. by apply eq_None_not_Some.
Qed.

Lemma invent_never_overwrites_witness :
  exists name st',
    FsPromise.invent (H := Node.platform) 3 (Example.at_ "/Data/") (Some "note")
                     (Js.of_string "second") Demo.notes = (Ok (name, tt), st')
    /\ name = "note-1"
    /\ exists k u,
        name = FsPromise.candidate (Some "note") "Resource" k
        /\ Node.url_new name (Example.at_ "/Data/") = Ok u
        /\ Storage.exists_ Demo.notes u = false
        /\ (forall i, i < k ->
              exists ui, Node.url_new (FsPromise.candidate (Some "note") "Resource" i)
                                      (Example.at_ "/Data/") = Ok ui
                         /\ Storage.exists_ Demo.notes ui = true)
        /\ Storage.containers st' = Storage.containers Demo.notes
        /\ Storage.resources st' !! pathname u = Some (Js.of_string "second")
        /\ Storage.resources Demo.notes ⊆ Storage.resources st'.
Proof.
  eexists _, _.
  match goal with |- ?A /\ _ => assert A as E by (vm_compute; reflexivity) end.
  split; [exact E|]. split; [reflexivity|].
  exact (invent_never_overwrites (H := Node.platform) _ _ _ _ _ _ _ E).
Defined.

(** The search, counted from [unique], when the candidates up to [k]
    are known *)
Lemma search_finds `{Platform} parentUrl slug type st (urls : nat -> URL) k :
  (forall i, i <= k -> URL_new (FsPromise.candidate slug type i) parentUrl = Ok (urls i)) ->
  Storage.exists_ st (urls k) = false ->
  forall fuel unique,
    unique <= k -> k - unique < fuel ->
    (forall i, unique <= i < k -> Storage.exists_ st (urls i) = true) ->
    FsPromise.search fuel parentUrl slug type unique st
    = Ok (FsPromise.candidate slug type k, urls k).
Proof.
  intros Hurls Hfree. induction fuel as [|fuel IH]; intros unique Hle Hfuel Htaken; [lia|].
  cbn [FsPromise.search]. rewrite Hurls by done.
  destruct (decide (unique = k)) as [->|Hne]; [by rewrite Hfree|].
  rewrite Htaken by lia. apply IH; [lia|lia|]. intros i Hi. apply Htaken. lia.
Qed.

Lemma first_free (taken : nat -> bool) n :
  (exists k, k < n /\ taken k = false /\ forall i, i < k -> taken i = true)
  \/ (forall i, i < n -> taken i = true).
Proof.
  induction n as [|n [(k & Hk & Hfree & Hbefore)|Hall]].
  - right. intros i Hi. lia.
  - left. exists k. split; [lia|done].
  - destruct (taken n) eqn:Hn.
    + right. intros i Hi. destruct (decide (i = n)) as [->|]; [done|]. apply Hall. lia.
    + left. exists n. split; [lia|]. split; [done|]. intros i Hi. by apply Hall.
Qed.

Lemma NoDup_bounded (l : list string) (X : gset string) :
  NoDup l -> (forall x, x ∈ l -> x ∈ X) -> length l <= size X.
Proof.
  intros Hnd Hsub. rewrite <- (size_list_to_set (C := gset string) l) by done.
  apply subseteq_size. intros x Hx%elem_of_list_to_set. by apply Hsub.
Qed.

Lemma size_list_to_set_le (l : list string) :
  size (list_to_set (C := gset string) l) <= length l.
Proof.
  induction l as [|x l IH]; [by rewrite list_to_set_nil, size_empty|].
  rewrite list_to_set_cons, size_union_alt, size_singleton. simpl.
  assert (size (list_to_set (C := gset string) l ∖ {[x]})
          <= size (list_to_set (C := gset string) l))
    by (by apply subseteq_size, subseteq_difference_l).
  lia.
Qed.

(** X8.  The name search of [firstAvailable] ends: when the candidate
    names resolve to identifiers of distinct paths, a storage of [n]
    directories and files has a free name among the first [n + 1]
    candidates, and the loop returns the first free one after at most
    [n + 1] rounds. *)
Theorem firstAvailable_ends `{Platform} (parentUrl : URL) (slug : option string)
        (type : string) (st : Storage.Storage) (us : list URL) :
  Bounds.tested parentUrl slug type (S (Bounds.entries st)) = map Ok us ->
  NoDup (map (fun u => Storage.as_dir (pathname u)) us) ->
  exists k u,
    k <= Bounds.entries st
    /\ us !! k = Some u
    /\ Storage.exists_ st u = false
    /\ forall fuel, Bounds.entries st < fuel ->
         FsPromise.search fuel parentUrl slug type 0 st
         = Ok (FsPromise.candidate slug type k, u).
Proof.
  intros Htested Hnd. set (n := Bounds.entries st) in *.
  assert (length us = S n) as Hlen.
  { apply (f_equal length) in Htested. unfold Bounds.tested in Htested.
    by rewrite !length_map, length_seq in Htested. }
  assert (forall i, i <= n ->
            exists u, us !! i = Some u
                      /\ URL_new (FsPromise.candidate slug type i) parentUrl = Ok u) as Hurls.
  { intros i Hi. destruct (lookup_lt_is_Some_2 us i) as [u Hu]; [lia|]. exists u.
    split; [done|]. apply (f_equal (fun l => l !! i)) in Htested.
    unfold Bounds.tested in Htested. rewrite !list_lookup_fmap, Hu in Htested.
    rewrite lookup_seq_lt in Htested by lia. simpl in Htested. by injection Htested. }
  set (url := fun i => default parentUrl (us !! i)).
  destruct (first_free (fun i => Storage.exists_ st (url i)) (S n))
    as [(k & Hk & Hfree & Hbefore)|Hall].
  - destruct (Hurls k) as (u & Hu & Hnew); [lia|].
    assert (url k = u) as Huk by (unfold url; by rewrite Hu).
    exists k, u. split; [lia|]. split; [done|]. rewrite <- Huk. split; [done|].
    intros fuel Hfuel. apply (search_finds parentUrl slug type st url k); [|done|lia|lia|].
    + intros i Hi. destruct (Hurls i) as (ui & Hui & Hnewi); [lia|].
      unfold url. by rewrite Hui.
    + intros i Hi. apply Hbefore. lia.
  - exfalso.
    set (X := dom (Storage.containers st)
              ∪ set_map (C := gset string) (D := gset string) Storage.as_dir
                  (dom (Storage.resources st))).
    assert (length (map (fun u => Storage.as_dir (pathname u)) us) <= size X) as Hle.
    { apply NoDup_bounded; [done|]. intros x (u & -> & Hin)%list_elem_of_fmap.
      apply list_elem_of_lookup in Hin as [i Hi].
      assert (i < S n) as Hlt by (rewrite <- Hlen; by apply lookup_lt_Some with u).
      specialize (Hall i Hlt). unfold url in Hall. rewrite Hi in Hall. simpl in Hall.
      unfold Storage.exists_, Storage.is_dir, Storage.is_file in Hall.
      apply orb_true_iff in Hall as [Hd%bool_decide_eq_true|Hf%bool_decide_eq_true].
      - apply elem_of_union. left. by apply elem_of_dom.
      - apply elem_of_union. right. apply elem_of_map. exists (pathname u).
        split; [done|]. by apply elem_of_dom. }
    rewrite length_map, Hlen in Hle.
    assert (size X <= n) as Hsize.
    { unfold X, n, Bounds.entries. rewrite size_union_alt.
      assert (size (set_map (C := gset string) (D := gset string) Storage.as_dir
                      (dom (Storage.resources st)))
              <= size (dom (Storage.resources st))) as Hmap.
      { unfold set_map. etrans; [apply size_list_to_set_le|].
        by rewrite length_fmap. }
      pose proof (subseteq_size
                    (set_map (C := gset string) (D := gset string) Storage.as_dir
                       (dom (Storage.resources st))
                     ∖ dom (Storage.containers st))
                    (set_map (C := gset string) (D := gset string) Storage.as_dir
                       (dom (Storage.resources st)))) as Hdiff.
      assert (set_map (C := gset string) (D := gset string) Storage.as_dir
                (dom (Storage.resources st)) ∖ dom (Storage.containers st)
              ⊆ set_map (C := gset string) (D := gset string) Storage.as_dir
                  (dom (Storage.resources st))) as Hsub by (by apply subseteq_difference_l).
      specialize (Hdiff Hsub). lia. }
    lia.
Qed.

Lemma firstAvailable_ends_witness :
  exists k u,
    k <= Bounds.entries Demo.notes
    /\ map (fun n => Example.at_ ("/Data/" +:+ n)) ["note"; "note-1"; "note-2"; "note-3"; "note-4"]
         !! k = Some u
    /\ Storage.exists_ Demo.notes u = false
    /\ forall fuel, Bounds.entries Demo.notes < fuel ->
         FsPromise.search (H := Node.platform) fuel (Example.at_ "/Data/") (Some "note")
                          "Resource" 0 Demo.notes
         = Ok (FsPromise.candidate (Some "note") "Resource" k, u).
Proof.
  apply (firstAvailable_ends (H := Node.platform)).
  - vm_compute. reflexivity.
  - apply (bool_decide_unpack _). vm_compute. reflexivity.
Defined.

(** For an identifier that does not end with the metadata suffix,
    [rstat] succeeds exactly when the identifier names something. *)
Lemma rstat_exists `{Platform} size_of cfg (u : URL) (st : Storage.Storage) :
  Str.endsWith (pathname u) (FsPromise.metaDataSuffix cfg) = false ->
  Spec.is_ok (URL_new (FsPromise.getMetaDataFilePath cfg u) u) = true ->
  match FsPromise.rstat size_of cfg u st with
  | Ok _ => Storage.exists_ st u = true
  | Throw _ => Storage.exists_ st u = false
  | _ => False
  end.
Proof.
  intros Hsuffix Hmeta. unfold FsPromise.rstat, FsPromise.lstat, Storage.exists_.
  rewrite Hsuffix.
  destruct (URL_new _ u); [|done..].
  destruct (Storage.is_dir st (pathname u)); [done|].
  by destruct (Storage.is_file st (pathname u)).
Qed.

Lemma loop_search `{Platform} {Stat} (rstat : URL -> result Stat) (st : Storage.Storage)
      (fuel : nat) (parentUrl : URL) (slug : option string) (type : string) (unique : nat) :
  (forall i u, unique <= i < unique + fuel ->
     URL_new (FsPromise.candidate slug type i) parentUrl = Ok u ->
     match rstat u with
     | Ok _ => Storage.exists_ st u = true
     | Throw _ => Storage.exists_ st u = false
     | _ => False
     end) ->
  Fetcher.loop Stat rstat fuel parentUrl
    (if ShapeTree.falsy slug then type else default "" slug)
    (if String.eqb type "Container" then "/" else "") unique
  = match FsPromise.search fuel parentUrl slug type unique st with
    | Ok (name, _) => Ok name
    | Throw e => Throw e
    | Blocked => Blocked
    | OutOfFuel => OutOfFuel
    end.
Proof.
  revert unique. induction fuel as [|fuel IH]; intros unique Hrstat; [done|].
  cbn [Fetcher.loop FsPromise.search]. unfold Fetcher.incrementAndTest.
  fold (FsPromise.candidate slug type unique).
  destruct (URL_new (FsPromise.candidate slug type unique) parentUrl) as [u| | |] eqn:Hu;
    try done.
  pose proof (Hrstat unique u ltac:(lia) Hu) as Hone.
  destruct (rstat u); try done; rewrite Hone; [|done].
  apply IH. intros i u' Hi. apply Hrstat. lia.
Qed.

(** X9.  The dispatcher's [firstAvailableFile], over the file-system
    storage, and the storage's [firstAvailable] are the same search as
    long as no name that they try ends with the metadata suffix: they
    settle alike, and when they return they return the same name.  (For
    a name that ends with the suffix, [rstat] looks at the resource
    without the suffix.) *)
Theorem name_searches_agree `{Platform} (size_of : string -> Storage.Storage -> N)
        (cfg : FsPromise.Config) (st : Storage.Storage) (fuel : nat) (parentUrl : URL)
        (slug : option string) (type : string) :
  (forall i u, i < fuel ->
     URL_new (FsPromise.candidate slug type i) parentUrl = Ok u ->
     Str.endsWith (pathname u) (FsPromise.metaDataSuffix cfg) = false
     /\ Spec.is_ok (URL_new (FsPromise.getMetaDataFilePath cfg u) u) = true) ->
  Fetcher.firstAvailableFile FsPromise.Stat (fun u => FsPromise.rstat size_of cfg u st)
    fuel parentUrl slug type
  = match FsPromise.search fuel parentUrl slug type 0 st with
    | Ok (name, _) => Ok name
    | Throw e => Throw e
    | Blocked => Blocked
    | OutOfFuel => OutOfFuel
    end.
Proof.
  intros Hplain. unfold Fetcher.firstAvailableFile. apply loop_search.
  intros i u Hi Hu. destruct (Hplain i u ltac:(lia) Hu) as [Hsuffix Hmeta].
  by apply rstat_exists.
Qed.

Lemma name_searches_agree_witness :
  Fetcher.firstAvailableFile (H := Node.platform) FsPromise.Stat
    (fun u => FsPromise.rstat (H := Node.platform) Demo.size_of Demo.files u Demo.notes) 3
    (Example.at_ "/Data/") (Some "note") "Resource"
  = match FsPromise.search (H := Node.platform) 3 (Example.at_ "/Data/") (Some "note")
                           "Resource" 0 Demo.notes with
    | Ok (name, _) => Ok name
    | Throw e => Throw e
    | Blocked => Blocked
    | OutOfFuel => OutOfFuel
    end
  /\ Fetcher.firstAvailableFile (H := Node.platform) FsPromise.Stat
       (fun u => FsPromise.rstat (H := Node.platform) Demo.size_of Demo.files u Demo.notes) 3
       (Example.at_ "/Data/") (Some "note") "Resource"
     = Ok "note-1".
Proof.
  split; [|reflexivity].
  apply (name_searches_agree (H := Node.platform)).
  intros i u Hi Hu.
  destruct i as [|[|[|i]]]; [| | |lia]; vm_compute in Hu; injection Hu as <-; by vm_compute.
Defined.

(** Where a name ends with the suffix the searches differ: with a file
    [/Data/note], the dispatcher takes [note.meta] for the metadata of
    that file and moves on, the storage finds the name free. *)
Lemma name_searches_differ :
  Fetcher.firstAvailableFile (H := Node.platform) FsPromise.Stat
    (fun u => FsPromise.rstat (H := Node.platform) Demo.size_of Demo.files u Demo.notes) 3
    (Example.at_ "/Data/") (Some "note.meta") "Resource"
  = Ok "note.meta-1"
  /\ FsPromise.search (H := Node.platform) 3 (Example.at_ "/Data/") (Some "note.meta")
                      "Resource" 0 Demo.notes
     = Ok ("note.meta", Example.at_ "/Data/note.meta").
Proof. split; reflexivity. Qed.

(** X10.  The path of a container's index file and the path of a
    resource's metadata file are fixed points: the path that
    [getIndexFilePath] gives ends with the name of the index file, and
    asking again for the identifier of that path gives the same path;
    likewise [getMetaDataFilePath] and the metadata suffix. *)
Theorem file_paths_are_fixed (cfg : FsPromise.Config) (url : URL) :
  let index := FsPromise.getIndexFilePath cfg url in
  let meta := FsPromise.getMetaDataFilePath cfg url in
  Str.endsWith index (FsPromise.indexFile cfg) = true
  /\ FsPromise.getIndexFilePath cfg (mkURL (origin url) index (search url) (hash url)) = index
  /\ Str.endsWith meta (FsPromise.metaDataSuffix cfg) = true
  /\ FsPromise.getMetaDataFilePath cfg (mkURL (origin url) meta (search url) (hash url)) = meta.
Proof.
  intros index meta.
  assert (Str.endsWith index (FsPromise.indexFile cfg) = true) as Hi.
  { unfold index, FsPromise.getIndexFilePath.
    destruct (Str.endsWith (pathname url) (FsPromise.indexFile cfg)) eqn:He; [done|].
    apply endsWith_append. }
  assert (Str.endsWith meta (FsPromise.metaDataSuffix cfg) = true) as Hm.
  { unfold meta, FsPromise.getMetaDataFilePath.
    destruct (Str.endsWith (pathname url) (FsPromise.metaDataSuffix cfg)) eqn:He; [done|].
    apply endsWith_append. }
  split; [done|]. split; [|split; [done|]].
  - unfold FsPromise.getIndexFilePath at 1. cbn [pathname]. by rewrite Hi.
  - unfold FsPromise.getMetaDataFilePath at 1. cbn [pathname]. by rewrite Hm.
Qed.

(** ** The ecosystem's index *)

Lemma getQuads_app (g1 g2 : Store) s p o :
  getQuads (g1 ++ g2) s p o = getQuads g1 s p o ++ getQuads g2 s p o.
Proof. unfold getQuads. apply List.filter_app. Qed.

Lemma getQuads_nil_absent (g : Store) s p o q :
  getQuads g s p o = [] ->
  Rdf.matches s (subject q) = true -> Rdf.matches p (predicate q) = true ->
  Rdf.matches o (object q) = true ->
  q ∉ g.
Proof.
  intros Hnil Hs Hp Ho Hin.
  assert (q ∈ getQuads g s p o) as Hq by (by apply elem_of_getQuads).
  rewrite Hnil in Hq. by apply elem_of_nil in Hq.
Qed.

Lemma installed_matches instanceUrl shapeTreeUrl :
  getQuads [Ecosystem.installed instanceUrl shapeTreeUrl] None
    (Some (NamedNode (Prefixes.ns_tree +:+ "shapeTreeRoot")))
    (Some (NamedNode (href shapeTreeUrl)))
  = [Ecosystem.installed instanceUrl shapeTreeUrl].
Proof.
  unfold getQuads, Ecosystem.installed, triple. cbn [List.filter subject predicate object Rdf.matches].
  by rewrite !bool_decide_eq_true_2.
Qed.

(** X11.  The index of planted shape trees is read back as it was
    written: in a container that lists no instance of a shape tree,
    [reuseShapeTree] finds nothing; once [indexInstalledShapeTree] has
    recorded an instance it finds that instance; and
    [unindexInstalledShapeTree] takes the record away again, leaving the
    statements as they were. *)
Theorem index_reuse_unindex `{Platform} (parent : Container.Container)
        (instanceUrl shapeTreeUrl : URL) :
  Ecosystem.reuseShapeTree parent shapeTreeUrl = Ok None ->
  URL_parse (href instanceUrl) = Ok instanceUrl ->
  let indexed := Ecosystem.indexInstalledShapeTree parent instanceUrl shapeTreeUrl in
  let unindexed := Ecosystem.unindexInstalledShapeTree indexed instanceUrl shapeTreeUrl in
  Ecosystem.reuseShapeTree indexed shapeTreeUrl = Ok (Some instanceUrl)
  /\ Container.graph unindexed = Container.graph parent
  /\ Ecosystem.reuseShapeTree unindexed shapeTreeUrl = Ok None.
Proof.
  intros Hnone Hparse indexed unindexed.
  assert (getQuads (Container.graph parent) None
            (Some (NamedNode (Prefixes.ns_tree +:+ "shapeTreeRoot")))
            (Some (NamedNode (href shapeTreeUrl))) = []) as Hnil.
  { unfold Ecosystem.reuseShapeTree, zeroOrOne in Hnone.
    destruct (getQuads _ _ _ _) as [|q [|q' l]]; [done| |done].
    by destruct (URL_parse (value (subject q))). }
  assert (Ecosystem.installed instanceUrl shapeTreeUrl ∉ Container.graph parent) as Hfresh.
  { apply (getQuads_nil_absent _ _ _ _ _ Hnil); [done|..];
      cbn [Ecosystem.installed triple predicate object Rdf.matches];
      by apply bool_decide_eq_true_2. }
  assert (Container.graph indexed
          = Container.graph parent ++ [Ecosystem.installed instanceUrl shapeTreeUrl]) as Hg.
  { unfold indexed, Ecosystem.indexInstalledShapeTree. cbn [Container.graph Ecosystem.set_prefixes
      Container.set_graph]. unfold addQuad, has. by rewrite bool_decide_eq_false_2. }
  split; [|split].
  - unfold Ecosystem.reuseShapeTree, zeroOrOne.
    rewrite Hg, getQuads_app, Hnil, installed_matches. cbn [app].
    cbn [Ecosystem.installed triple subject value]. by rewrite Hparse.
  - unfold unindexed, Ecosystem.unindexInstalledShapeTree. cbn [Container.graph Container.set_graph].
    rewrite Hg, removeQuad_app, removeQuad_absent by done.
    unfold removeQuad. cbn [List.filter]. rewrite bool_decide_eq_true_2 by done.
    cbn [negb]. by rewrite app_nil_r.
  - unfold Ecosystem.reuseShapeTree, zeroOrOne, unindexed, Ecosystem.unindexInstalledShapeTree.
    cbn [Container.graph Container.set_graph].
    rewrite Hg, removeQuad_app, removeQuad_absent by done.
    unfold removeQuad at 1. cbn [List.filter]. rewrite bool_decide_eq_true_2 by done.
    cbn [negb]. by rewrite app_nil_r, Hnil.
Qed.

Lemma index_reuse_unindex_witness :
  Ecosystem.reuseShapeTree (H := Node.platform)
    (Ecosystem.indexInstalledShapeTree Example.empty_data (Example.at_ "/Data/proj/")
                                       Example.shapes)
    Example.shapes
  = Ok (Some (Example.at_ "/Data/proj/"))
  /\ Container.graph
       (Ecosystem.unindexInstalledShapeTree
          (Ecosystem.indexInstalledShapeTree Example.empty_data (Example.at_ "/Data/proj/")
                                             Example.shapes)
          (Example.at_ "/Data/proj/") Example.shapes)
     = Container.graph Example.empty_data
  /\ Ecosystem.reuseShapeTree (H := Node.platform)
       (Ecosystem.unindexInstalledShapeTree
          (Ecosystem.indexInstalledShapeTree Example.empty_data (Example.at_ "/Data/proj/")
                                             Example.shapes)
          (Example.at_ "/Data/proj/") Example.shapes)
       Example.shapes
     = Ok None.
Proof.
  apply (index_reuse_unindex (H := Node.platform) Example.empty_data
           (Example.at_ "/Data/proj/") Example.shapes).
  - reflexivity.
  - reflexivity.
Defined.

(** ** Planting *)

Lemma getQuads_addQuad_other (g : Store) q s p o :
  Rdf.matches s (subject q) && Rdf.matches p (predicate q) && Rdf.matches o (object q) = false ->
  getQuads (addQuad q g) s p o = getQuads g s p o.
Proof.
  intros Hq. unfold addQuad. destruct (has g q); [done|].
  rewrite getQuads_app. unfold getQuads at 2. cbn [List.filter]. rewrite Hq. apply app_nil_r.
Qed.

Lemma instantiateStatic_parent `{Platform} fuel shapeTree stepNode rootUrl path parent st
      ret parent' st' :
  ShapeTree.instantiateStatic fuel shapeTree stepNode rootUrl path parent st
  = (Ok ret, parent', st') ->
  Container.graph parent'
  = addQuad (Container.membership parent (href rootUrl)) (Container.graph parent).
Proof.
  destruct fuel as [|fuel]; [done|]. rewrite instantiateStatic_S.
  destruct (Container.managed_open _ _ _ _ st) as [[ret0| | |] st1] eqn:Hopen; try done.
  apply managed_open_inv in Hopen as (_ & _ & Hok).
  destruct (Hok ret0 eq_refl) as (Hurl & _). cbn zeta.
  destruct (ShapeTree.instantiate_nested _ _ _ _ _ ret0 st1) as [[[subs| | |] ret2] st2];
    try done.
  - destruct (Container.write _ st2) as [[r3 parent2] st3] eqn:Hw.
    apply write_frame in Hw as (_ & Hgraph & _). intros [= <- <- <-].
    by rewrite Hgraph, Hurl.
  - destruct (Container.remove ret2 st2) as [[[]] ?]; done.
Qed.

(** X13.  Planting is idempotent: once [plantShapeTreeInstance] has
    planted a shape tree in a container (or found it planted), planting
    the same shape tree there again returns the same location, whatever
    location is asked for, and changes neither the container nor the
    storage. *)
Theorem plant_twice `{Platform} (fetch : URL -> result (option string * string))
        (parseJsonLd parseTurtle : string -> URL -> result Store)
        (fuel : nat) (shapeTreeUrl : URL) (postedContainer : Container.Container)
        (location : URL) (st : Storage.Storage)
        (planted : URL) (c' : Container.Container) (st' : Storage.Storage) :
  Plant.plantShapeTreeInstance fetch parseJsonLd parseTurtle fuel shapeTreeUrl
    postedContainer location st = (Ok planted, c', st') ->
  URL_parse (href location) = Ok location ->
  forall fuel' location',
    Plant.plantShapeTreeInstance fetch parseJsonLd parseTurtle fuel' shapeTreeUrl
      c' location' st' = (Ok planted, c', st').
Proof.
  intros Hplant Hparse fuel' location'. unfold Plant.plantShapeTreeInstance in *.
  destruct (Ecosystem.reuseShapeTree postedContainer shapeTreeUrl) as [[reused|]| | |] eqn:Hreuse;
    try done.
  { injection Hplant as <- <- <-. by rewrite Hreuse. }
  destruct (Plant.RemoteResource_fetch _ _ _ _) as [g| | |]; try done.
  destruct (ShapeTree.getRdfRoot _) as [root| | |]; try done.
  destruct (ShapeTree.instantiateStatic _ _ _ _ _ _ _) as [[[ret| | |] c1] st1] eqn:Hrun;
    try done.
  apply instantiateStatic_parent in Hrun.
  destruct (Container.write _ st1) as [[r2 c2] st2] eqn:Hw.
  apply write_frame in Hw as (_ & Hgraph & _).
  destruct r2; try done. injection Hplant as <- <- <-.
  assert (Ecosystem.reuseShapeTree c2 shapeTreeUrl = Ok (Some location)) as ->; [|done].
  assert (getQuads (Container.graph postedContainer) None
            (Some (NamedNode (Prefixes.ns_tree +:+ "shapeTreeRoot")))
            (Some (NamedNode (href shapeTreeUrl))) = []) as Hnil.
  { unfold Ecosystem.reuseShapeTree, zeroOrOne in Hreuse.
    destruct (getQuads _ _ _ _) as [|q [|q' l]]; [done| |done].
    by destruct (URL_parse (value (subject q))). }
  assert (getQuads (Container.graph c1) None
            (Some (NamedNode (Prefixes.ns_tree +:+ "shapeTreeRoot")))
            (Some (NamedNode (href shapeTreeUrl))) = []) as Hnil1.
  { rewrite Hrun, getQuads_addQuad_other; [done|]. reflexivity. }
  assert (Ecosystem.installed location shapeTreeUrl ∉ Container.graph c1) as Hfresh.
  { apply (getQuads_nil_absent _ _ _ _ _ Hnil1); [done|..];
      cbn [Ecosystem.installed triple predicate object Rdf.matches];
      by apply bool_decide_eq_true_2. }
  unfold Ecosystem.reuseShapeTree, zeroOrOne. rewrite Hgraph.
  unfold Ecosystem.indexInstalledShapeTree.
  cbn [Container.graph Ecosystem.set_prefixes Container.set_graph].
  unfold addQuad at 1, has. rewrite bool_decide_eq_false_2 by done.
  rewrite getQuads_app, Hnil1, installed_matches. cbn [app].
  cbn [Ecosystem.installed triple subject value]. by rewrite Hparse.
Qed.

Lemma plant_twice_witness :
  exists c' st',
    Plant.plantShapeTreeInstance (H := Node.platform) Demo.fetch Demo.parseJsonLd
      Demo.parseTurtle 3 Example.shapes Example.empty_data (Example.at_ "/Data/proj/")
      Example.st0
    = (Ok (Example.at_ "/Data/proj/"), c', st')
    /\ is_Some (Storage.containers st' !! "/Data/proj/repos/")
    /\ forall fuel' location',
        Plant.plantShapeTreeInstance (H := Node.platform) Demo.fetch Demo.parseJsonLd
          Demo.parseTurtle fuel' Example.shapes c' location' st'
        = (Ok (Example.at_ "/Data/proj/"), c', st').
Proof.
  eexists _, _.
  match goal with |- ?A /\ _ => assert A as E by (vm_compute; reflexivity) end.
  split; [exact E|]. split; [by eexists|].
  exact (plant_twice (H := Node.platform) _ _ _ _ _ _ _ _ _ _ _ E eq_refl).
Defined.

(** ** The media type of a fetched resource *)

Lemma take_until_free (stop : ascii -> bool) (s rest : string) :
  Notions.free_of (fun c => stop c) s = true ->
  rest = "" \/ (exists c r, rest = String c r /\ stop c = true) ->
  Node.take_until stop (s +:+ rest) = (s, rest).
Proof.
  intros Hfree Hrest. induction s as [|c s IH].
  - change ("" +:+ rest) with rest.
    destruct Hrest as [->|(c & r & -> & Hc)]; [done|].
    cbn [Node.take_until]. by rewrite Hc.
  - cbn [Notions.free_of] in Hfree. apply andb_true_iff in Hfree as [Hc Hs].
    apply negb_true_iff in Hc. rewrite append_cons. cbn [Node.take_until].
    by rewrite Hc, (IH Hs).
Qed.

(** X19.  [fetch] of a remote resource chooses the parser by the media
    type alone: what follows a [';'] in the content type is ignored.
    JSON-LD and Turtle are parsed relative to the identifier of the
    resource; any other media type, compared as it is spelled, is an
    error that names it. *)
Theorem fetch_by_media_type (fetch : URL -> result (option string * string))
        (parseJsonLd parseTurtle : string -> URL -> result Store)
        (url : URL) (mediaType parameters text : string) :
  Notions.free_of (fun c => Node.is_char ";" c) mediaType = true ->
  parameters = "" \/ Str.startsWith parameters ";" = true ->
  fetch url = Ok (Some (mediaType +:+ parameters), text) ->
  Plant.RemoteResource_fetch fetch parseJsonLd parseTurtle url
  = if String.eqb mediaType "application/ld+json" then parseJsonLd text url
    else if String.eqb mediaType "text/turtle" then parseTurtle text url
    else Throw (Error ("unknown media type " +:+ mediaType +:+ " when parsing " +:+ href url)).
Proof.
  intros Hfree Hparams Hfetch. unfold Plant.RemoteResource_fetch, Plant.mediaType.
  rewrite Hfetch, take_until_free; [done|done|].
  destruct Hparams as [->|Hstart]; [by left|right].
  destruct parameters as [|c r]; [done|]. exists c, r. split; [done|].
  unfold Str.startsWith in Hstart. cbn in Hstart.
  unfold Node.is_char. destruct (Ascii.eqb_spec c ";") as [->|Hne]; [apply Ascii.eqb_refl|].
  exfalso. revert Hstart. clear -Hne. intros Hstart.
  destruct (Ascii.eqb_spec ";" c) as [<-|Hne']; [done|].
  revert Hstart. cbn. rewrite ?(proj2 (Ascii.eqb_neq _ _)) by done. done.
Qed.

Lemma fetch_by_media_type_witness :
  Plant.RemoteResource_fetch Demo.fetch Demo.parseJsonLd Demo.parseTurtle
    Example.shapes
  = (if String.eqb "text/turtle" "application/ld+json"
     then Demo.parseJsonLd "the text of the shape tree" Example.shapes
     else if String.eqb "text/turtle" "text/turtle"
          then Demo.parseTurtle "the text of the shape tree" Example.shapes
          else Throw (Error ("unknown media type " +:+ "text/turtle" +:+ " when parsing "
                             +:+ href Example.shapes)))
  /\ Plant.RemoteResource_fetch Demo.fetch Demo.parseJsonLd
       Demo.parseTurtle Example.shapes
     = Ok Demo.static_graph.
Proof.
  split; [|reflexivity].
  apply (fetch_by_media_type Demo.fetch Demo.parseJsonLd Demo.parseTurtle
           Example.shapes "text/turtle" "; charset=utf-8" "the text of the shape tree").
  - reflexivity.
  - right. reflexivity.
  - reflexivity.
Defined.

(** ** Static instantiation that succeeds *)

Lemma grows_refl st : Grown.grows st st.
Proof. by intros k. Qed.

Lemma grows_trans st1 st2 st3 :
  Grown.grows st1 st2 -> Grown.grows st2 st3 -> Grown.grows st1 st3.
Proof. intros H12 H23 k Hk. by apply H23, H12. Qed.

Lemma managed_open_grows `{Platform} u title stu path st ret st' :
  Container.managed_open (VUrl u) (Container.Title title) stu path st = (Ok ret, st') ->
  Grown.grows st st' /\ Container.subdirs ret = [].
Proof.
  intros Hopen. pose proof Hopen as (_ & Hne & Hok)%managed_open_inv.
  destruct (Hok ret eq_refl) as (_ & Hdir & _). split.
  - intros k Hk. destruct (decide (k = pathname u)) as [->|Hk']; [done|].
    by rewrite Hne.
  - unfold Container.managed_open, Container.loadOrCreate, Container.managed_loadOrCreate,
      Container.parseShapeTreeInstance, Container.new in Hopen.
    repeat case_match; by simplify_eq.
Qed.

Lemma write_subdirs c st r c' st' :
  Container.write c st = (r, c', st') -> Container.subdirs c' = Container.subdirs c.
Proof.
  unfold Container.write. destruct (Container.acquire c) as [[m t]|]; [|by intros [= <- <- <-]].
  by destruct (Storage.writeContainer _ _ st) as [[] ?]; intros [= <- <- <-].
Qed.

Section Grows.
Context `{Platform}.
Variable rec : ShapeTree.RemoteShapeTree -> term -> URL -> string -> Container.Container
               -> Storage.Storage
               -> result Container.Container * Container.Container * Storage.Storage.
Hypothesis rec_grows :
  forall step node u path parent st ret parent' st',
    rec step node u path parent st = (Ok ret, parent', st') ->
    Container.url ret = u
    /\ is_Some (Storage.containers st' !! pathname u)
    /\ Grown.grows st st'
    /\ Storage.resources st' = Storage.resources st
    /\ Container.url parent' = Container.url parent
    /\ Container.subdirs parent' = Container.subdirs parent.

Lemma instantiate_nested_grows shapeTree rootUrl path ts :
  forall ret st subs ret' st',
    ShapeTree.instantiate_nested rec shapeTree rootUrl path ts ret st = (Ok subs, ret', st') ->
    subs = map (Grown.child_dir (ShapeTree.graph shapeTree) rootUrl) ts
    /\ Grown.grows st st'
    /\ Storage.resources st' = Storage.resources st
    /\ Container.url ret' = Container.url ret
    /\ Container.subdirs ret' = Container.subdirs ret
    /\ forall u, Some u ∈ subs -> is_Some (Storage.containers st' !! pathname u).
Proof.
  induction ts as [|t ts IH]; intros ret st subs ret' st'.
  { intros [= <- <- <-]. split; [done|]. split; [apply grows_refl|]. split; [done|].
    split; [done|]. split; [done|]. intros u Hu. by apply elem_of_nil in Hu. }
  cbn [ShapeTree.instantiate_nested map]. unfold Grown.child_dir at 1.
  destruct (zeroOrOne _ _ _ _) as [[labelT|]| | |]; try done.
  - destruct (URL_new _ rootUrl) as [nestedUrl| | |]; try done.
    destruct (rec _ _ nestedUrl _ ret st) as [[[child| | |] ret1] st1] eqn:Hrec; try done.
    apply rec_grows in Hrec as (Hurl & Hdir & Hg1 & Hres1 & Hurl1 & Hsub1).
    destruct (ShapeTree.instantiate_nested rec shapeTree rootUrl path ts ret1 st1)
      as [[[l| | |] ret2] st2] eqn:Hrest; try done.
    apply IH in Hrest as (-> & Hg2 & Hres2 & Hurl2 & Hsub2 & Hdirs). intros [= <- <- <-].
    split; [by rewrite Hurl|]. split; [by apply grows_trans with st1|].
    split; [congruence|]. split; [congruence|]. split; [congruence|].
    intros u Hu. apply elem_of_cons in Hu as [Hu|Hu]; [|by apply Hdirs].
    injection Hu as ->. rewrite Hurl. by apply Hg2.
  - destruct (ShapeTree.instantiate_nested rec shapeTree rootUrl path ts ret st)
      as [[[l| | |] ret2] st2] eqn:Hrest; try done.
    apply IH in Hrest as (-> & Hg2 & Hres2 & Hurl2 & Hsub2 & Hdirs). intros [= <- <- <-].
    split; [done|]. split; [done|]. split; [done|]. split; [done|]. split; [done|].
    intros u Hu. apply elem_of_cons in Hu as [Hu|Hu]; [done|by apply Hdirs].
Qed.

End Grows.

(** X12.  What a successful [instantiateStatic] leaves behind: the
    container of [rootUrl] exists, and so does the container of every
    labelled child of the step, whose identifiers are the [subdirs] of
    the result, in the order of the step's contents ([null] for a child
    without a label); no directory that existed is gone and no file has
    changed; and the parent lists [rootUrl] as a member. *)
Theorem instantiateStatic_creates `{Platform} (fuel : nat) :
  forall (shapeTree : ShapeTree.RemoteShapeTree) (stepNode : term) (rootUrl : URL)
         (pathWithinShapeTree : string) (parent : Container.Container) (st : Storage.Storage)
         (ret parent' : Container.Container) (st' : Storage.Storage),
    ShapeTree.instantiateStatic fuel shapeTree stepNode rootUrl pathWithinShapeTree parent st
    = (Ok ret, parent', st') ->
    Container.url ret = rootUrl
    /\ is_Some (Storage.containers st' !! pathname rootUrl)
    /\ Container.subdirs ret
       = map (Grown.child_dir (ShapeTree.graph shapeTree) rootUrl)
             (getQuads (ShapeTree.graph shapeTree) (Some stepNode)
                       (ShapeTree.tree "contents") None)
    /\ (forall u, Some u ∈ Container.subdirs ret ->
                  is_Some (Storage.containers st' !! pathname u))
    /\ Grown.grows st st'
    /\ Storage.resources st' = Storage.resources st
    /\ Container.url parent' = Container.url parent
    /\ Container.subdirs parent' = Container.subdirs parent
    /\ Container.graph parent'
       = addQuad (Container.membership parent (href rootUrl)) (Container.graph parent).
Proof.
  induction fuel as [|fuel IH]; intros shapeTree stepNode rootUrl path parent st ret parent' st';
    [done|].
  rewrite instantiateStatic_S.
  destruct (Container.managed_open _ _ _ _ st) as [[ret0| | |] st1] eqn:Hopen; try done.
  pose proof Hopen as [Hg1 Hsub0]%managed_open_grows.
  apply managed_open_inv in Hopen as (Hres1 & _ & Hok).
  destruct (Hok ret0 eq_refl) as (Hurl & Hdir & _).
  cbn zeta.
  destruct (ShapeTree.instantiate_nested _ _ _ _ _ ret0 st1) as [[[subs| | |] ret2] st2] eqn:Hn.
  - apply instantiate_nested_grows in Hn as (-> & Hg2 & Hres2 & Hurl2 & Hsub2 & Hdirs).
    2:{ intros step node u path' parent0 st0 ret' parent0' st0' Hrec.
        apply IH in Hrec as (? & ? & _ & _ & ? & ? & ? & ? & _). done. }
    destruct (Container.write _ st2) as [[r3 parent2] st3] eqn:Hw.
    pose proof (write_subdirs _ _ _ _ _ Hw) as Hsub3.
    apply write_frame in Hw as (Hurl3 & Hgraph3 & Hres3 & _ & Hex3 & _).
    intros [= <- <- <-]. cbn [Container.addSubdirs Container.set_subdirs Container.url
                                Container.subdirs].
    split; [congruence|]. split; [by apply Hex3, Hg2|].
    rewrite Hsub2, Hsub0. cbn [app]. split; [done|].
    split; [intros u Hu; by apply Hex3, Hdirs|].
    split; [intros k Hk; by apply Hex3, Hg2, Hg1|].
    split; [congruence|]. split; [by rewrite Hurl3|].
    split; [by rewrite Hsub3|].
    rewrite Hgraph3, Hurl. done.
  - destruct (Container.remove ret2 st2) as [[[]] ?]; done.
  - done.
  - done.
Qed.

Lemma instantiateStatic_creates_witness :
  exists ret parent' st',
    ShapeTree.instantiateStatic (H := Node.platform) 3 Demo.static_tree Example.root_node
      (Example.at_ "/Data/proj/") "." Example.empty_data Example.st0
    = (Ok ret, parent', st')
    /\ Container.subdirs ret
       = [Some (Example.at_ "/Data/proj/repos/"); Some (Example.at_ "/Data/proj/users/")]
    /\ Container.url ret = Example.at_ "/Data/proj/"
    /\ is_Some (Storage.containers st' !! "/Data/proj/")
    /\ Container.subdirs ret
       = map (Grown.child_dir (H := Node.platform) (ShapeTree.graph Demo.static_tree)
                              (Example.at_ "/Data/proj/"))
             (getQuads (ShapeTree.graph Demo.static_tree) (Some Example.root_node)
                       (ShapeTree.tree "contents") None)
    /\ (forall u, Some u ∈ Container.subdirs ret ->
                  is_Some (Storage.containers st' !! pathname u))
    /\ Grown.grows Example.st0 st'
    /\ Storage.resources st' = Storage.resources Example.st0
    /\ Container.url parent' = Container.url Example.empty_data
    /\ Container.subdirs parent' = Container.subdirs Example.empty_data
    /\ Container.graph parent'
       = addQuad (Container.membership Example.empty_data (href (Example.at_ "/Data/proj/")))
                 (Container.graph Example.empty_data).
Proof.
  eexists _, _, _.
  match goal with |- ?A /\ _ => assert A as E by (vm_compute; reflexivity) end.
  split; [exact E|]. split; [reflexivity|].
  exact (instantiateStatic_creates (H := Node.platform) _ _ _ _ _ _ _ _ _ _ E).
Defined.

(** ** Opening containers, and the system hierarchy *)

Lemma elem_of_addQuads qs (g : Store) x : x ∈ addQuads qs g <-> x ∈ g \/ x ∈ qs.
Proof.
  unfold addQuads. revert g. induction qs as [|q qs IH]; intros g; cbn [fold_left].
  - split; [by left|]. intros [?|Hx]; [done|]. by apply elem_of_nil in Hx.
  - rewrite IH, elem_of_addQuad, elem_of_cons. tauto.
Qed.

Lemma new_identifier u title :
  Spec.container_identifier (VUrl u) = true ->
  Container.new (VUrl u) title
  = Ok (Container.mkContainer u
          (match title with Container.Loaded _ p => p | Container.Title _ => [] end)
          Mutex.new
          (match title with Container.Loaded g _ => g | Container.Title _ => [] end)
          [] None false None None None).
Proof.
  unfold Spec.container_identifier, Container.new. rewrite one_trailing_slash.
  intros [-> ->%negb_true_iff]%andb_true_iff. done.
Qed.

(** Opening the container of an identifier whose directory exists, or
    can be made *)
Lemma open_ensures u title st :
  Spec.container_identifier (VUrl u) = true ->
  Storage.is_file st (Storage.as_file (pathname u)) = false ->
  is_Some (Storage.containers st !! pathname u)
  \/ Storage.is_dir st (Str.dirname (pathname u)) = true ->
  exists c st',
    Container.open (VUrl u) (Container.Title title) st = (Ok c, st')
    /\ Container.url c = u
    /\ Spec.idle (Container._mutex c) = true
    /\ Storage.resources st' = Storage.resources st
    /\ (forall k, k <> pathname u -> Storage.containers st' !! k = Storage.containers st !! k)
    /\ is_Some (Storage.containers st' !! pathname u)
    /\ (forall g : Store,
          Storage.containers st !! pathname u = Some g ->
          st' = st /\ Container.graph c = addQuads g [] /\ Container.newDir c = Some false)
    /\ (Storage.containers st !! pathname u = None ->
        Storage.containers st' !! pathname u = Some (Storage.makeContainer u title)
        /\ Container.graph c = addQuads (Storage.makeContainer u title) []
        /\ Container.newDir c = Some true).
Proof.
  intros Hid Hfile Hdir. unfold Container.open. rewrite new_identifier by done.
  unfold Container.ready, Container.loadOrCreate.
  change (Container.acquire _) with (Some (Mutex.mkMutex (Mutex.ThenPromise Mutex.Resolved
            (Mutex.WillLock 0)) 1 1 ∅, 0)).
  cbn [Container.url]. unfold Storage.ensureContainer.
  destruct (Storage.containers st !! pathname u) as [g|] eqn:Hu.
  - eexists _, st. split; [done|]. cbn [Container.url Container.graph Container.set_mutex
      Container.set_graph Container.set_newDir Container._mutex Container.newDir].
    split; [done|]. split; [done|]. split; [done|]. split; [done|].
    split; [by rewrite Hu|]. split; [by intros g' [= <-]|done].
  - destruct Hdir as [[]|Hdir]; [done|]. rewrite Hfile, Hdir.
    eexists _, _. split; [done|]. cbn [Container.url Container.graph Container.set_mutex
      Container.set_graph Container.set_newDir Container._mutex Container.newDir
      Storage.resources Storage.containers].
    split; [done|]. split; [done|]. split; [done|].
    split; [intros k Hk; by rewrite lookup_insert_ne|].
    rewrite lookup_insert_eq. done.
Qed.

(** X14.  [createSystemHierarchy] on a storage that has the root
    directory: it opens the root, makes the directories of the
    applications, of the cache and of the shared data below it, and
    writes the root, whose statements are then the ones it had and the
    three memberships.  The members are named relative to the base
    identifier, the directories are made relative to the root.  It sets
    the ecosystem's identifiers of applications and cache, and touches
    nothing else in the storage. *)
Theorem createSystemHierarchy_creates `{Platform} (base : URL) (config : Ecosystem.Config)
        (this : Ecosystem.SimpleApps) (st : Storage.Storage) (g0 : Store)
        (root ua uc us ma mc ms : URL) :
  URL_new "/" base = Ok root ->
  URL_new (Ecosystem.apps config +:+ "/") base = Ok ma ->
  URL_new (Ecosystem.cache config +:+ "/") base = Ok mc ->
  URL_new (Ecosystem.shared config +:+ "/") base = Ok ms ->
  URL_new (Ecosystem.apps config +:+ "/") root = Ok ua ->
  URL_new (Ecosystem.cache config +:+ "/") root = Ok uc ->
  URL_new (Ecosystem.shared config +:+ "/") root = Ok us ->
  Forall (Hierarchy.openable st) [root; ua; uc; us] ->
  Storage.containers st !! pathname root = Some g0 ->
  Forall (fun u => Storage.is_dir st (Str.dirname (pathname u)) = true) [ua; uc; us] ->
  exists spec rootc st',
    Ecosystem.createSystemHierarchy base config this st
    = (Ecosystem.mkSimpleApps (Some base) (Some ma) (Some mc), Ok spec, st')
    /\ Ecosystem.spec_container spec = Some rootc
    /\ Container.url rootc = root
    /\ Storage.containers st' !! pathname root = Some (Container.graph rootc)
    /\ (forall q, q ∈ Container.graph rootc
                  <-> q ∈ g0 \/ q ∈ map (fun m => Container.membership rootc (href m)) [ma; mc; ms])
    /\ Forall (fun u => is_Some (Storage.containers st' !! pathname u)) [ua; uc; us]
    /\ Storage.resources st' = Storage.resources st
    /\ (forall k, k ∉ map pathname [root; ua; uc; us] ->
                  Storage.containers st' !! k = Storage.containers st !! k).
Proof.
  intros Hroot Hma Hmc Hms Hua Huc Hus Hopen Hg0 Hdirs.
  apply Forall_cons in Hopen as [[Hid0 Hf0] Hopen].
  apply Forall_cons in Hopen as [[Hida Hfa] Hopen].
  apply Forall_cons in Hopen as [[Hidc Hfc] Hopen].
  apply Forall_cons in Hopen as [[Hids Hfs] _].
  apply Forall_cons in Hdirs as [Hda Hdirs].
  apply Forall_cons in Hdirs as [Hdc Hdirs].
  apply Forall_cons in Hdirs as [Hds _].
  unfold Ecosystem.createSystemHierarchy. rewrite Hma, Hmc.
  unfold Ecosystem.containerHierarchy.
  cbn [Ecosystem.createContainers Ecosystem.spec_path]. rewrite Hroot.
  (* the root *)
  destruct (open_ensures root "DocRoot Container" st Hid0 Hf0)
    as (c0 & st0 & -> & Hurl0 & Hidle0 & _ & _ & _ & Hst0 & _); [by left; rewrite Hg0|].
  destruct (Hst0 g0 Hg0) as (-> & Hgraph0 & _).
  cbn [Container.url Container.addMember Container.set_graph]. rewrite Hurl0, Hua, Hma.
  (* the applications *)
  destruct (open_ensures ua "Applications Container" st Hida Hfa)
    as (ca & st1 & -> & _ & _ & Hres1 & Hne1 & Hexa & _); [by right|].
  assert (forall k, is_Some (Storage.containers st !! k) ->
                    is_Some (Storage.containers st1 !! k)) as Hgrow1.
  { intros k Hk. destruct (decide (k = pathname ua)) as [->|Hne]; [done|]. by rewrite Hne1. }
  rewrite Huc, Hmc.
  (* the cache *)
  destruct (open_ensures uc "Cache Container" st1)
    as (cc & st2 & -> & _ & _ & Hres2 & Hne2 & Hexc & _); [done| |right|].
  { unfold Storage.is_file in *. by rewrite Hres1. }
  { unfold Storage.is_dir in *. apply bool_decide_eq_true, Hgrow1.
    by apply bool_decide_eq_true in Hdc. }
  assert (forall k, is_Some (Storage.containers st1 !! k) ->
                    is_Some (Storage.containers st2 !! k)) as Hgrow2.
  { intros k Hk. destruct (decide (k = pathname uc)) as [->|Hne]; [done|]. by rewrite Hne2. }
  rewrite Hus, Hms.
  (* the shared data *)
  destruct (open_ensures us "Shared Data Container" st2)
    as (cs & st3 & -> & _ & _ & Hres3 & Hne3 & Hexs & _); [done| |right|].
  { unfold Storage.is_file in *. by rewrite Hres2, Hres1. }
  { unfold Storage.is_dir in *. apply bool_decide_eq_true, Hgrow2, Hgrow1.
    by apply bool_decide_eq_true in Hds. }
  assert (forall k, is_Some (Storage.containers st2 !! k) ->
                    is_Some (Storage.containers st3 !! k)) as Hgrow3.
  { intros k Hk. destruct (decide (k = pathname us)) as [->|Hne]; [done|]. by rewrite Hne3. }
  (* the root is written *)
  set (members := Container.addMember (href ms) _).
  assert (Container.url members = root) as Hurlm by done.
  assert (Spec.idle (Container._mutex members) = true) as Hidlem by done.
  destruct (acquire_idle members Hidlem) as (m & t & Hacq & _).
  unfold Container.write. rewrite Hacq. unfold Storage.writeContainer. rewrite Hurlm.
  destruct (Hgrow3 (pathname root)) as [g3 Hg3].
  { apply Hgrow2, Hgrow1. by rewrite Hg0. }
  rewrite Hg3.
  eexists _, _, _. split; [reflexivity|].
  cbn [Ecosystem.spec_container Container.url Container.set_mutex Container.graph
       Storage.containers Storage.resources].
  split; [done|]. split; [done|]. split; [by rewrite lookup_insert_eq|].
  split; [|split; [|split]].
  - intros q. unfold members, Container.addMember, Container.membership.
    cbn [Container.graph Container.set_graph Container.set_mutex Container.url map].
    rewrite !elem_of_addQuad, Hgraph0, elem_of_addQuads, !elem_of_cons, !elem_of_nil.
    tauto.
  - assert (forall k, is_Some (Storage.containers st3 !! k) ->
              is_Some (<[pathname root := Container.graph members]> (Storage.containers st3) !! k))
      as Hgrow4.
    { intros k Hk. destruct (decide (k = pathname root)) as [->|Hne];
        [by rewrite lookup_insert_eq|by rewrite lookup_insert_ne]. }
    apply Forall_cons; split; [by apply Hgrow4, Hgrow3, Hgrow2|].
    apply Forall_cons; split; [by apply Hgrow4, Hgrow3|].
    apply Forall_cons; split; [by apply Hgrow4|]. done.
  - congruence.
  - intros k Hk. cbn [map] in Hk. rewrite !not_elem_of_cons in Hk.
    destruct Hk as (Hk0 & Hka & Hkc & Hks & _).
    rewrite lookup_insert_ne by done. rewrite Hne3, Hne2, Hne1 by done. done.
Qed.

Lemma createSystemHierarchy_creates_witness :
  exists spec rootc st',
    Ecosystem.createSystemHierarchy (H := Node.platform) (Example.at_ "/") Demo.names
      Demo.nowhere Demo.bare
    = (Ecosystem.mkSimpleApps (Some (Example.at_ "/")) (Some (Example.at_ "/Apps/"))
                              (Some (Example.at_ "/Cache/")),
       Ok spec, st')
    /\ Ecosystem.spec_container spec = Some rootc
    /\ Container.url rootc = Example.at_ "/"
    /\ Storage.containers st' !! "/" = Some (Container.graph rootc)
    /\ (forall q, q ∈ Container.graph rootc
                  <-> q ∈ [] \/ q ∈ map (fun m => Container.membership rootc (href m))
                                        [Example.at_ "/Apps/"; Example.at_ "/Cache/";
                                         Example.at_ "/Data/"])
    /\ Forall (fun u => is_Some (Storage.containers st' !! pathname u))
              [Example.at_ "/Apps/"; Example.at_ "/Cache/"; Example.at_ "/Data/"]
    /\ Storage.resources st' = Storage.resources Demo.bare
    /\ (forall k, k ∉ map pathname [Example.at_ "/"; Example.at_ "/Apps/";
                                    Example.at_ "/Cache/"; Example.at_ "/Data/"] ->
                  Storage.containers st' !! k = Storage.containers Demo.bare !! k).
Proof.
  apply (createSystemHierarchy_creates (H := Node.platform) (Example.at_ "/") Demo.names
           Demo.nowhere Demo.bare []
           (Example.at_ "/") (Example.at_ "/Apps/") (Example.at_ "/Cache/")
           (Example.at_ "/Data/") (Example.at_ "/Apps/") (Example.at_ "/Cache/")
           (Example.at_ "/Data/")); try reflexivity.
  - repeat (apply Forall_cons; split; [split; reflexivity|]). apply Forall_nil_2.
  - repeat (apply Forall_cons; split; [reflexivity|]). apply Forall_nil_2.
Defined.

(** ** Containers that are opened again *)

(** X15.  Opening a container is idempotent: when a container has been
    opened and its directory exists, opening it again leaves the storage
    as it is, reports that the directory is not new, and has the same
    statements, whatever title it is given. *)
Theorem open_twice (u : URL) (title title' : string) (st st' : Storage.Storage)
        (c : Container.Container) :
  Container.open (VUrl u) (Container.Title title) st = (Ok c, st') ->
  is_Some (Storage.containers st' !! pathname u) ->
  exists c',
    Container.open (VUrl u) (Container.Title title') st' = (Ok c', st')
    /\ Container.url c' = Container.url c
    /\ Container.graph c' = Container.graph c
    /\ Container.newDir c' = Some false.
Proof.
  unfold Container.open.
  destruct (Container.new (VUrl u) (Container.Title title)) as [c0| | |] eqn:Hnew; try done.
  assert (Container.new (VUrl u) (Container.Title title') = Ok c0) as ->.
  { unfold Container.new in *. by repeat case_match. }
  assert (Container.url c0 = u /\ Container.graph c0 = []
          /\ Container.acquire c0 = Some (Mutex.mkMutex (Mutex.ThenPromise Mutex.Resolved
                                            (Mutex.WillLock 0)) 1 1 ∅, 0))
    as (Hurl & Hgraph & Hacq).
  { unfold Container.new in Hnew. repeat case_match; by simplify_eq. }
  unfold Container.ready, Container.loadOrCreate. rewrite Hacq, Hurl, Hgraph.
  unfold Storage.ensureContainer.
  destruct (Storage.containers st !! pathname u) as [g|] eqn:Hu.
  - intros [= <- <-] _. rewrite Hu. by eexists.
  - destruct (Storage.is_file st _).
    { intros [= <- <-] Hex. rewrite Hu in Hex. by destruct Hex. }
    destruct (Storage.is_dir st _); [|done].
    intros [= <- <-] _. cbn [Storage.containers]. rewrite lookup_insert_eq. by eexists.
Qed.

Lemma open_twice_witness :
  exists c st',
    Container.open (VUrl (Example.at_ "/Data/new/")) (Container.Title "New") Example.st0
    = (Ok c, st')
    /\ Container.newDir c = Some true
    /\ exists c',
        Container.open (VUrl (Example.at_ "/Data/new/")) (Container.Title "Other") st'
        = (Ok c', st')
        /\ Container.url c' = Container.url c
        /\ Container.graph c' = Container.graph c
        /\ Container.newDir c' = Some false.
Proof.
  eexists _, _.
  match goal with |- ?A /\ _ => assert A as E by (vm_compute; reflexivity) end.
  split; [exact E|]. split; [reflexivity|].
  refine (open_twice _ _ _ _ _ _ E _). by eexists.
Defined.

Lemma addQuad_fresh q (g : Store) : q ∉ g -> addQuad q g = g ++ [q].
Proof. intros Hq. unfold addQuad, has. by rewrite bool_decide_eq_false_2. Qed.

(** The names of the vocabulary, written out *)
Ltac vocabulary :=
  repeat match goal with
         | |- context [Prefixes.ns_tree +:+ ?b] =>
             let r := eval vm_compute in (Prefixes.ns_tree +:+ b) in
             change (Prefixes.ns_tree +:+ b) with r
         | |- context [Prefixes.ns_rdf +:+ ?b] =>
             let r := eval vm_compute in (Prefixes.ns_rdf +:+ b) in
             change (Prefixes.ns_rdf +:+ b) with r
         | |- context [Prefixes.ns_dc +:+ ?b] =>
             let r := eval vm_compute in (Prefixes.ns_dc +:+ b) in
             change (Prefixes.ns_dc +:+ b) with r
         | |- context [Prefixes.ns_ldp +:+ ?b] =>
             let r := eval vm_compute in (Prefixes.ns_ldp +:+ b) in
             change (Prefixes.ns_ldp +:+ b) with r
         end.

(** The statements of a new managed container, in the order in which
    they were added *)
Lemma new_statements u title stu path root :
  addQuads
    [ triple (NamedNode (href u)) (NamedNode (Prefixes.ns_tree +:+ "shapeTreeRoot"))
             (NamedNode (href stu));
      triple (NamedNode (href u)) (NamedNode (Prefixes.ns_tree +:+ "shapeTreeInstancePath"))
             (Literal path);
      triple (NamedNode (href u)) (NamedNode (Prefixes.ns_tree +:+ "shapeTreeInstanceRoot"))
             (NamedNode (href root)) ]
    (addQuads (Storage.makeContainer u title) [])
  = Persisted.statements u title stu path root.
Proof.
  unfold addQuads, Storage.makeContainer, Persisted.statements, triple. cbn [fold_left].
  vocabulary.
  rewrite (addQuad_fresh _ []) by apply not_elem_of_nil. cbn [app].
  rewrite (addQuad_fresh _ [_]) by (rewrite ?not_elem_of_cons; repeat split;
                                    (discriminate || apply not_elem_of_nil)).
  cbn [app].
  rewrite (addQuad_fresh _ [_; _]) by (rewrite ?not_elem_of_cons; repeat split;
                                       (discriminate || apply not_elem_of_nil)).
  cbn [app].
  rewrite (addQuad_fresh _ [_; _; _]) by (rewrite ?not_elem_of_cons; repeat split;
                                          (discriminate || apply not_elem_of_nil)).
  cbn [app].
  rewrite (addQuad_fresh _ [_; _; _; _]) by (rewrite ?not_elem_of_cons; repeat split;
                                             (discriminate || apply not_elem_of_nil)).
  done.
Qed.

(** The one statement of a new managed container that has the property
    [p], for the three properties of [containerText] *)
Lemma statements_property u title stu path root p o :
  (p, o) ∈ [ ("shapeTreeRoot", NamedNode (href stu));
             ("shapeTreeInstancePath", Literal path);
             ("shapeTreeInstanceRoot", NamedNode (href root)) ] ->
  zeroOrOne (Persisted.statements u title stu path root)
            (Some (NamedNode (href u))) (Some (NamedNode (Prefixes.ns_tree +:+ p))) None
  = Ok (Some (triple (NamedNode (href u)) (NamedNode (Prefixes.ns_tree +:+ p)) o)).
Proof.
  intros Hp. unfold zeroOrOne, getQuads, Persisted.statements, triple.
  cbn [List.filter subject predicate object Rdf.matches].
  rewrite !(bool_decide_eq_true_2 (NamedNode (href u) = NamedNode (href u))) by done.
  rewrite !elem_of_cons, elem_of_nil in Hp.
  destruct Hp as [[= -> ->]|[[= -> ->]|[[= -> ->]|[]]]]; vocabulary;
    repeat (rewrite bool_decide_eq_false_2 by discriminate);
    rewrite bool_decide_eq_true_2 by done; done.
Qed.

(** X16.  A managed container that was made is read back as it was
    written, when its title, its instance path and the identifiers that
    the constructors splice into Turtle text are read by Turtle as they
    are written: [loadContainer] of its identifier gives a managed
    container with the statements that were persisted, whose shape tree
    and instance path are the ones that the constructor was given, and
    whose instance root is the one that [containerText] wrote, relative
    to the container.  The container in memory has the instance path
    too, but the instance root that the constructor resolved against the
    identifier of the shape tree. *)
Theorem managed_container_reloads `{Platform} (u : URL) (title : string) (stu : URL)
        (path : string) (st st' : Storage.Storage) (c : Container.Container) (root : URL) :
  Turtle.verbatim title = true ->
  Turtle.verbatim path = true ->
  Turtle.iri (href stu) = true ->
  Turtle.iri (Path_relative path "") = true ->
  Container.managed_open (VUrl u) (Container.Title title) (VUrl stu) path st = (Ok c, st') ->
  Container.newDir c = Some true ->
  URL_new (Path_relative path "") u = Ok root ->
  URL_parse (href root) = Ok root ->
  URL_parse (href stu) = Ok stu ->
  Container.graph c = Persisted.statements u title stu path root
  /\ Storage.containers st' !! pathname u = Some (Container.graph c)
  /\ Container.shapeTreeInstancePath c = Some path
  /\ (forall root', URL_new (Path_relative path "") stu = Ok root' ->
                    Container.shapeTreeInstanceRoot c = Some root')
  /\ exists c2,
      Container.loadContainer u st' = Ok c2
      /\ Container.url c2 = u
      /\ Container.managed c2 = true
      /\ Container.graph c2 = Container.graph c
      /\ Container.shapeTreeUrl c2 = Some stu
      /\ Container.shapeTreeInstancePath c2 = Some path
      /\ Container.shapeTreeInstanceRoot c2 = Some root.
Proof.
  intros _ _ _ _ Hopen Hnew Hroot Hparse_root Hparse_stu.
  assert (Container.graph c = Persisted.statements u title stu path root
          /\ Storage.containers st' !! pathname u = Some (Container.graph c)
          /\ Container.new (VUrl u) (Container.Loaded (Container.graph c) [])
             = Ok (Container.mkContainer u [] Mutex.new (Container.graph c) [] None false
                     None None None)
          /\ Container.shapeTreeInstancePath c = Some path
          /\ (forall root', URL_new (Path_relative path "") stu = Ok root' ->
                            Container.shapeTreeInstanceRoot c = Some root'))
    as (Hgraph & Hstored & Hload & Hpath & Hmemory).
  { unfold Container.managed_open in Hopen.
    destruct (Container.new (VUrl u) (Container.Title title)) as [c0| | |] eqn:Hc0; try done.
    assert (c0 = Container.mkContainer u [] Mutex.new [] [] None false None None None) as ->.
    { unfold Container.new in Hc0. repeat case_match; by simplify_eq. }
    assert (forall g, Container.new (VUrl u) (Container.Loaded g [])
                      = Ok (Container.mkContainer u [] Mutex.new g [] None false None None None))
      as Hloaded.
    { intros g. unfold Container.new in *. repeat case_match; by simplify_eq. }
    unfold Container.loadOrCreate in Hopen.
    change (Container.acquire _) with (Some (Mutex.mkMutex (Mutex.ThenPromise Mutex.Resolved
              (Mutex.WillLock 0)) 1 1 ∅, 0)) in Hopen.
    cbn [Container.url Container.set_managed] in Hopen.
    destruct (Storage.ensureContainer u title st) as [[[nd g]| | |] st1] eqn:Hensure;
      try (by destruct (URL_new _ stu)).
    destruct (URL_new _ stu) as [root0| | |] eqn:Hroot0; try done.
    unfold Container.managed_loadOrCreate in Hopen.
    match type of Hopen with
    | context [Container.acquire ?x] =>
        change (Container.acquire x)
          with (Some (Mutex.mkMutex
                        (Mutex.ThenPromise (Mutex.ThenPromise Mutex.Resolved (Mutex.WillLock 0))
                           (Mutex.WillLock 1)) 1 2 {[0]}, 1)) in Hopen
    end.
    cbn [Container.newDir Container.set_shapeTreeInstanceRoot Container.set_shapeTreeInstancePath
         Container.set_mutex Container.set_graph Container.set_newDir] in Hopen.
    destruct nd.
    2:{ unfold Container.parseShapeTreeInstance in Hopen.
        repeat case_match; simplify_eq; done. }
    unfold Container.containerText in Hopen.
    cbn [Container.url Container.graph Container.set_shapeTreeInstanceRoot
         Container.set_shapeTreeInstancePath Container.set_mutex Container.set_graph
         Container.set_newDir Container.set_managed] in Hopen.
    rewrite Hroot in Hopen.
    unfold Storage.ensureContainer in Hensure.
    destruct (Storage.containers st !! pathname u) eqn:Hu; [by simplify_eq|].
    destruct (Storage.is_file st _).
    { injection Hensure as <- <-. unfold Storage.writeContainer in Hopen.
      cbn [Container.url Container.set_graph] in Hopen. by rewrite Hu in Hopen. }
    destruct (Storage.is_dir st _); [|done]. injection Hensure as <- <-.
    unfold Storage.writeContainer in Hopen.
    cbn [Container.url Container.graph Container.set_graph Storage.containers] in Hopen.
    rewrite lookup_insert_eq in Hopen. injection Hopen as <- <-.
    cbn [Container.graph Container.set_mutex Container.set_graph Storage.containers
         Container.shapeTreeInstancePath Container.shapeTreeInstanceRoot].
    pose proof (new_statements u title stu path root) as Hs.
    unfold addQuads, Storage.makeContainer in Hs. cbn [fold_left] in Hs.
    rewrite Hs, lookup_insert_eq, Hloaded.
    split; [done|]. split; [done|]. split; [done|]. split; [done|].
    intros root' [= ->]. done. }
  split; [done|]. split; [done|]. split; [done|]. split; [done|].
  unfold Container.loadContainer, Storage.readContainer. rewrite Hstored.
  unfold Container.asUrl at 1.
  rewrite Hgraph, (statements_property _ _ _ _ _ _ (NamedNode (href root)))
    by (rewrite !elem_of_cons; auto).
  cbn [triple object value]. rewrite Hparse_root.
  unfold Container.managed_open. rewrite <- Hgraph, Hload.
  unfold Container.parseShapeTreeInstance, Container.asUrl, Container.asLiteral.
  cbn [Container.graph Container.url Container.set_managed]. rewrite Hgraph.
  rewrite (statements_property _ _ _ _ _ _ (NamedNode (href root)))
    by (rewrite !elem_of_cons; auto).
  rewrite (statements_property _ _ _ _ _ _ (Literal path)) by (rewrite !elem_of_cons; auto).
  rewrite (statements_property _ _ _ _ _ _ (NamedNode (href stu)))
    by (rewrite !elem_of_cons; auto).
  cbn [triple object value fst]. rewrite Hparse_root, Hparse_stu.
  eexists. split; [done|]. done.
Qed.

Lemma managed_container_reloads_witness :
  exists c st',
    Container.managed_open (H := Node.platform) (VUrl (Example.at_ "/Data/proj/"))
      (Container.Title "Projects") (VUrl Example.shapes) "." Example.st0
    = (Ok c, st')
    /\ Container.shapeTreeInstanceRoot c = Some (mkURL "http://shapes.example" "/tree" "" "")
    /\ Container.graph c
       = Persisted.statements (Example.at_ "/Data/proj/") "Projects" Example.shapes "."
                              (Example.at_ "/Data/proj/")
    /\ Storage.containers st' !! "/Data/proj/" = Some (Container.graph c)
    /\ Container.shapeTreeInstancePath c = Some "."
    /\ (forall root', Node.url_new (Node.relative "." "") Example.shapes = Ok root' ->
                      Container.shapeTreeInstanceRoot c = Some root')
    /\ exists c2,
        Container.loadContainer (H := Node.platform) (Example.at_ "/Data/proj/") st' = Ok c2
        /\ Container.url c2 = Example.at_ "/Data/proj/"
        /\ Container.managed c2 = true
        /\ Container.graph c2 = Container.graph c
        /\ Container.shapeTreeUrl c2 = Some Example.shapes
        /\ Container.shapeTreeInstancePath c2 = Some "."
        /\ Container.shapeTreeInstanceRoot c2 = Some (Example.at_ "/Data/proj/").
Proof.
  eexists _, _.
  match goal with |- ?A /\ _ => assert A as E by (vm_compute; reflexivity) end.
  split; [exact E|]. split; [reflexivity|].
  refine (managed_container_reloads (H := Node.platform) _ _ _ _ _ _ _ _ _ _ _ _ E _ _ _ _);
    reflexivity.
Defined.

(** ** Merging a payload *)

Lemma addQuad_present q (g : Store) : q ∈ g -> addQuad q g = g.
Proof. intros Hq. unfold addQuad, has. by rewrite bool_decide_eq_true_2. Qed.

Lemma addQuads_present qs (g : Store) : (forall q, q ∈ qs -> q ∈ g) -> addQuads qs g = g.
Proof.
  unfold addQuads. induction qs as [|q qs IH]; intros Hall; cbn [fold_left]; [done|].
  rewrite addQuad_present by (apply Hall; by left).
  apply IH. intros q' Hq'. apply Hall. by right.
Qed.

Lemma addQuad_NoDup q (g : Store) : NoDup g -> NoDup (addQuad q g).
Proof.
  intros Hg. unfold addQuad, has. case_bool_decide as Hq; [done|].
  apply NoDup_app. split; [done|]. split; [|apply NoDup_singleton].
  intros x Hx ->%list_elem_of_singleton. done.
Qed.

Lemma addQuads_NoDup qs (g : Store) : NoDup g -> NoDup (addQuads qs g).
Proof.
  unfold addQuads. revert g. induction qs as [|q qs IH]; intros g Hg; cbn [fold_left]; [done|].
  by apply IH, addQuad_NoDup.
Qed.

(** X20.  [merge] adds a payload to the statements of a container as a
    set: afterwards the container has the statements it had and those of
    the payload, and a store without duplicates stays without them;
    merging the same payload again changes nothing; and the order of two
    payloads does not matter for which statements there are. *)
Theorem merge_is_union (payload payload' : Store) (c : Container.Container) :
  (forall q, q ∈ Container.graph (Container.merge payload c)
             <-> q ∈ Container.graph c \/ q ∈ payload)
  /\ (NoDup (Container.graph c) -> NoDup (Container.graph (Container.merge payload c)))
  /\ Container.merge payload (Container.merge payload c) = Container.merge payload c
  /\ (forall q, q ∈ Container.graph (Container.merge payload' (Container.merge payload c))
                <-> q ∈ Container.graph (Container.merge payload (Container.merge payload' c))).
Proof.
  assert (forall p d, Container.graph (Container.merge p d) = addQuads p (Container.graph d))
    as Hgraph by (by intros p []).
  split; [|split; [|split]].
  - intros q. rewrite Hgraph. apply elem_of_addQuads.
  - rewrite Hgraph. apply addQuads_NoDup.
  - destruct c as [u p m g]. unfold Container.merge, Container.set_graph.
    cbn [Container.url Container.prefixes Container._mutex Container.graph Container.subdirs
         Container.newDir Container.managed Container.shapeTreeUrl
         Container.shapeTreeInstancePath Container.shapeTreeInstanceRoot].
    rewrite (addQuads_present payload (addQuads payload g)); [done|].
    intros q Hq. apply elem_of_addQuads. by right.
  - intros q. rewrite !Hgraph, !elem_of_addQuads. tauto.
Qed.

(** ** What the caching fetch leaves alone *)

(** X17.  [cachingFetch] touches the storage in one place at most, the
    cache entry of the URL; it asks the network at most once.  A
    request to the origin of the cache goes to the network and leaves
    the storage as it is; a request whose entry exists reads it without
    asking the network and without writing; and a failed fetch caches
    nothing. *)
Theorem cachingFetch_frame (Fetch : URL -> result Cache.NetResponse)
        (cacheRoot url : URL) (w : Cache.World) :
  let entry := Cache.resolve_name (Cache.cacheName url) cacheRoot in
  let r := fst (Cache.cachingFetch Fetch cacheRoot url w) in
  let w' := snd (Cache.cachingFetch Fetch cacheRoot url w) in
  Storage.containers (Cache.storage w') = Storage.containers (Cache.storage w)
  /\ (forall k, k <> pathname entry ->
        Storage.resources (Cache.storage w') !! k = Storage.resources (Cache.storage w) !! k)
  /\ (Cache.fetched w' = Cache.fetched w \/ Cache.fetched w' = S (Cache.fetched w))
  /\ (origin cacheRoot = origin url ->
        Cache.storage w' = Cache.storage w /\ Cache.fetched w' = S (Cache.fetched w))
  /\ (origin cacheRoot <> origin url ->
      Storage.exists_ (Cache.storage w) entry = true -> w' = w)
  /\ (origin cacheRoot <> origin url ->
      Storage.exists_ (Cache.storage w) entry = false ->
      Cache.fetched w' = S (Cache.fetched w)
      /\ (Spec.is_ok r = false -> Cache.storage w' = Cache.storage w)
      /\ (Spec.is_ok r = true ->
            exists resp,
              Fetch url = Ok resp /\ Cache.ok resp = true
              /\ Storage.read entry (Cache.storage w')
                 = Ok (Cache.image_of (Cache.to_map (List.filter Cache.kept (Cache.net_headers resp)))
                         (Cache.net_text resp)))).
Proof.
  intros entry r w'. unfold r, w', Cache.cachingFetch. fold entry.
  destruct (String.eqb_spec (origin cacheRoot +:+ "/") (origin url +:+ "/")) as [Heq|Hne].
  - apply append_slash_inj in Heq.
    destruct (Fetch url); cbn [fst snd Cache.storage Cache.fetched];
      repeat split; try done; auto.
  - assert (origin cacheRoot <> origin url) as Hne' by (intros Heq; apply Hne; by rewrite Heq).
    destruct (Storage.exists_ (Cache.storage w) entry) eqn:Hex; cbn [negb].
    + destruct (Storage.read entry (Cache.storage w)) as [image| | |];
        [destruct (Cache.parse_image image) as [[headers text]| | |]|..];
        cbn [fst snd]; repeat split; try done; auto.
    + unfold Cache.getOrThrow.
      destruct (Fetch url) as [resp| | |]; [destruct (Cache.ok resp) eqn:Hok|..];
        cbn [fst snd Cache.storage Cache.fetched]; try (repeat split; try done; auto; fail).
      unfold Storage.write.
      destruct (Storage.is_dir (Cache.storage w) _ && negb (Storage.is_dir (Cache.storage w) _));
        cbn [fst snd Cache.storage Cache.fetched Storage.containers Storage.resources].
      * split; [done|]. split; [intros k Hk; by rewrite lookup_insert_ne|].
        split; [by right|]. split; [done|]. split; [done|]. intros _ _.
        split; [done|]. split; [done|]. intros _. exists resp.
        split; [done|]. split; [done|]. unfold Storage.read.
        cbn [Storage.resources]. by rewrite lookup_insert_eq.
      * repeat split; try done; auto.
Qed.
